(** * cross-seed, [src/torrent.ts]: torrent acquisition and lookup

  A shallow embedding of the remote fetch classifier
  ([parseTorrentFromURL]), the fuzzy name resolver
  ([getTorrentByFuzzyName] with [tokenizeName],
  [createComparableTorrent], [removeExtensionsFromName]) and the
  criteria locator ([getTorrentByCriteria]).

  Conventions of the embedding:
  - a JavaScript string is a [string]: a sequence of code units in
    the range 0..255 (the Latin-1 part of UTF-16);
  - an [async] function that rejects and a function that throws are
    both a [Throws] completion; a normal return is [Returns]; the one
    function whose promise can stay pending for ever,
    [parseTorrentFromURL], gives a [Promise];
  - effects on the event loop (timers) and the logger are threaded
    through an explicit [World];
  - the index store, the file system, the network and the two
    configurations are read-only inputs collected in [Env]. *)

From Stdlib Require Import List String Ascii Bool Arith ZArith NArith QArith
  Qminmax Lia Lqa Permutation Sorted DecimalString.
Import ListNotations.
Close Scope Q_scope.
Open Scope string_scope.

(** ** JavaScript strings *)

Module JSString.

Definition code (c : ascii) : N := N_of_ascii c.

(** [\s] of a JavaScript regular expression, on code units below 256:
    TAB, LF, VT, FF, CR, SPACE and NO-BREAK SPACE. *)
Definition is_space (c : ascii) : bool :=
  let n := code c in
  ((9 <=? n) && (n <=? 13) || (n =? 32) || (n =? 160))%N.

(** One character of [String.prototype.toLowerCase]: A-Z and the
    Latin-1 capitals (all of U+00C0..U+00DE but the multiplication
    sign) move up by 32.  This is the whole of [toLowerCase] on code
    units below 256 only: beyond them the function is not a map of
    single code units (U+0130 becomes two, a capital sigma depends on
    its place in the word). *)
Definition toLowerCase_char (c : ascii) : ascii :=
  let n := code c in
  if ((65 <=? n) && (n <=? 90)
      || (192 <=? n) && (n <=? 222) && negb (n =? 215))%N
  then ascii_of_N (n + 32) else c.

Fixpoint toLowerCase (s : string) : string :=
  match s with
  | EmptyString => EmptyString
  | String c s' => String (toLowerCase_char c) (toLowerCase s')
  end.

Definition startsWith (s p : string) : bool := prefix p s.

Fixpoint rev_string (acc s : string) : string :=
  match s with
  | EmptyString => acc
  | String c s' => rev_string (String c acc) s'
  end.

Definition endsWith (s p : string) : bool :=
  prefix (rev_string "" p) (rev_string "" s).

(** [s.includes(needle)] *)
Definition includes (s needle : string) : bool :=
  match index 0 needle s with Some _ => true | None => false end.

(** [s.slice(0, -1 * k)]: a negative end counts from the end of the
    string; [-1 * 0] is [-0], which is the end index 0. *)
Definition slice_0_neg (s : string) (k : nat) : string :=
  if (k =? 0)%nat then "" else substring 0 (length s - k) s.

(** [arr.join("")] *)
Definition join (l : list string) : string := concat "" l.

(** [n.toString()] for a non-negative integer. *)
Definition toString (n : N) : string := NilZero.string_of_uint (N.to_uint n).

(** [s.split(re)] for a regular expression [re = /[...]+/] given by
    its character class [sep]: the pieces between the maximal runs of
    separators; a run at the very start or end leaves an empty piece
    there, and a string without separator is its own single piece.
    [tok] is the piece being read, [skipping] tells that the previous
    character belonged to a run. *)
Fixpoint split_aux (sep : ascii -> bool) (tok : string) (skipping : bool)
    (s : string) : list string :=
  match s with
  | EmptyString => [tok]
  | String c s' =>
      if sep c
      then if skipping then split_aux sep "" true s'
           else tok :: split_aux sep "" true s'
      else split_aux sep (tok ++ String c "") false s'
  end.

Definition split (sep : ascii -> bool) (s : string) : list string :=
  split_aux sep "" false s.

(** [arr.sort()] with the default comparator on an array of strings:
    ascending order of code units.  The order is total and
    antisymmetric, so every sorting algorithm returns the same array;
    insertion is used here. *)
Fixpoint insert (x : string) (l : list string) : list string :=
  match l with
  | [] => [x]
  | y :: l' => if (x <=? y)%string then x :: l else y :: insert x l'
  end.

Fixpoint sort (l : list string) : list string :=
  match l with
  | [] => []
  | x :: l' => insert x (sort l')
  end.

(** The order of the default comparator. *)
Definition le (s t : string) : Prop := (s <=? t)%string = true.

End JSString.

(** ** Canonical keys (lines 210-227 of the source) *)

(** The character class [[.\s-]] of [tokenizeName]. *)
Definition is_separator (c : ascii) : bool :=
  (c =? ".")%char || JSString.is_space c || (c =? "-")%char.

(** Strings without a separator. *)
Fixpoint plain (s : string) : Prop :=
  match s with
  | EmptyString => True
  | String c s' => is_separator c = false /\ plain s'
  end.

Definition tokenizeName (tname : string) : list string :=
  JSString.sort (map JSString.toLowerCase (JSString.split is_separator tname)).

Definition createComparableTorrent (x : string) : string :=
  JSString.join (tokenizeName x).

(** [arr.forEach(callback)]: the callback runs on every element and
    whatever it returns is dropped; [forEach] itself returns
    [undefined]. *)
Definition forEach {A B : Type} (arr : list A) (callback : A -> B) : unit :=
  fold_left (fun _ x => let _ := callback x in tt) arr tt.

Section Extensions.

(** [VIDEO_EXTENSIONS] and [DATA_EXTENSIONS] of [constants.js]. *)
Variables VIDEO_EXTENSIONS DATA_EXTENSIONS : list string.

(** The callback of [removeExtensionsFromName]: [Some v] when it
    returns [v], [None] when it falls off its end. *)
Definition removeExtensions_callback (name extension : string)
    : option string :=
  if JSString.endsWith name extension
  then Some (if JSString.endsWith name extension
             then JSString.slice_0_neg name (length extension)
             else name)
  else None.

Definition removeExtensionsFromName (name : string) : string :=
  let extensionsToRemove := (VIDEO_EXTENSIONS ++ DATA_EXTENSIONS)%list in
  let _ := forEach extensionsToRemove (removeExtensions_callback name) in
  name.

End Extensions.

(** ** Completions: a value returned or an exception thrown *)

(** A thrown JavaScript error object: its [name] and its [message]. *)
Record Exn : Type := mkExn { exn_name : string; exn_message : string }.

Definition TypeError (msg : string) : Exn := mkExn "TypeError" msg.
Definition Error (msg : string) : Exn := mkExn "Error" msg.
Definition AbortError : Exn := mkExn "AbortError" "The user aborted a request.".

Inductive Completion (A : Type) : Type :=
| Returns (a : A)
| Throws (e : Exn).
Arguments Returns {A} a.
Arguments Throws {A} e.

Definition cbind {A B : Type} (c : Completion A) (k : A -> Completion B)
    : Completion B :=
  match c with
  | Returns a => k a
  | Throws e => Throws e
  end.

Definition returned {A : Type} (c : Completion A) : bool :=
  match c with Returns _ => true | Throws _ => false end.

(** A promise as the caller that awaits it sees it: it settles, with a
    completion, or it stays pending for ever.  A completion stands for
    the promise settled with it. *)
Inductive Promise (A : Type) : Type :=
| Settles (c : Completion A)
| NeverSettles.
Arguments Settles {A} c.
Arguments NeverSettles {A}.
Coercion Settles : Completion >-> Promise.

(** ** JavaScript numbers that can leave the rationals *)

Inductive JSNumber : Type :=
| Finite (q : Q)
| PosInfinity
| NegInfinity
| NaN.

(** [a / b] on two array lengths or counts. *)
Definition js_divide (a b : nat) : JSNumber :=
  match b with
  | O => match a with O => NaN | S _ => PosInfinity end
  | S _ => Finite (Z.of_nat a # Pos.of_nat b)
  end.

(** [100 * (1 - x)] *)
Definition js_percent_complement (x : JSNumber) : JSNumber :=
  match x with
  | Finite q => Finite (100 * (1 - q))%Q
  | PosInfinity => NegInfinity
  | NegInfinity => PosInfinity
  | NaN => NaN
  end.

(** ** Plain objects used as string-keyed maps *)

Module JSObject.

(** The own properties, in the order of their creation. *)
Definition t (V : Type) : Type := list (string * V).

Definition empty {V : Type} : t V := [].

Fixpoint has {V : Type} (o : t V) (k : string) : bool :=
  match o with
  | [] => false
  | (k', _) :: o' => (k' =? k) || has o' k
  end.

Fixpoint replace {V : Type} (o : t V) (k : string) (v : V) : t V :=
  match o with
  | [] => []
  | (k', v') :: o' =>
      if k' =? k then (k', v) :: o' else (k', v') :: replace o' k v
  end.

(** [o[k] = v] with an object [v]: an existing property keeps its
    place, a new one goes last; the key [__proto__] reaches the setter
    of [Object.prototype] and creates no own property. *)
Definition set {V : Type} (o : t V) (k : string) (v : V) : t V :=
  if k =? "__proto__" then o
  else if has o k then replace o k v
  else (o ++ [(k, v)])%list.

(** The own property [k], if any. *)
Fixpoint get {V : Type} (o : t V) (k : string) : option V :=
  match o with
  | [] => None
  | (k', v) :: o' => if k' =? k then Some v else get o' k
  end.

Fixpoint digits_value (acc : N) (s : string) : option N :=
  match s with
  | EmptyString => Some acc
  | String c s' =>
      let n := JSString.code c in
      if ((48 <=? n) && (n <=? 57))%N
      then digits_value (10 * acc + (n - 48)) s'
      else None
  end.

(** An array index: the canonical decimal form of an integer below
    [2^32 - 1]. *)
Definition array_index (k : string) : option N :=
  match k with
  | EmptyString => None
  | _ =>
      match digits_value 0 k with
      | Some n =>
          if (JSString.toString n =? k) && (n <=? 4294967294)%N
          then Some n else None
      | None => None
      end
  end.

Fixpoint insert_index (x : N * string) (l : list (N * string))
    : list (N * string) :=
  match l with
  | [] => [x]
  | y :: l' => if (fst x <=? fst y)%N then x :: l else y :: insert_index x l'
  end.

Definition index_keys {V : Type} (o : t V) : list (N * string) :=
  fold_right
    (fun kv acc =>
       match array_index (fst kv) with
       | Some n => insert_index (n, fst kv) acc
       | None => acc
       end) [] o.

Definition name_keys {V : Type} (o : t V) : list string :=
  map fst (filter (fun kv => match array_index (fst kv) with
                             | Some _ => false
                             | None => true
                             end) o).

(** [Object.keys(o)]: array indices in ascending numeric order, then
    the other keys in the order of their creation. *)
Definition keys {V : Type} (o : t V) : list string :=
  (map snd (index_keys o) ++ name_keys o)%list.

End JSObject.

(** ** The package fastest-levenshtein *)

Module Levenshtein.

(** The edit distances from [String x a] to every prefix of [b], from
    those of [a] ([prev]); [left] is the entry just computed. *)
Fixpoint next_row (x : ascii) (b : string) (prev : list nat) (left : nat)
    : list nat :=
  match b, prev with
  | String y b', d :: ((u :: _) as prev') =>
      let c := Nat.min (Nat.min (S u) (S left))
                       (d + if (x =? y)%char then 0 else 1) in
      c :: next_row x b' prev' c
  | _, _ => []
  end.

Fixpoint rows (a b : string) (prev : list nat) : list nat :=
  match a with
  | EmptyString => prev
  | String x a' =>
      let first := S (hd 0 prev) in
      rows a' b (first :: next_row x b prev first)
  end.

(** The Levenshtein distance of two strings, row by row. *)
Definition levenshtein (a b : string) : nat :=
  last (rows a b (seq 0 (S (String.length b)))) 0.

(** [distance(a, b)]: the first thing the function does is read
    [b.length], which throws on [undefined]. *)
Definition distance (a : string) (b : option string) : Completion nat :=
  match b with
  | None =>
      Throws (TypeError "Cannot read properties of undefined (reading 'length')")
  | Some b => Returns (levenshtein a b)
  end.

(** The loop of [closest]: [best] is [arr[min_index]] together with
    [min_distance]; a later element replaces it only when strictly
    nearer. *)
Fixpoint closest_loop (str : string) (arr : list string)
    (best : option (string * nat)) : option string :=
  match arr with
  | [] => option_map fst best
  | x :: arr' =>
      let dist := levenshtein str x in
      match best with
      | None => closest_loop str arr' (Some (x, dist))
      | Some (_, min_distance) =>
          if (dist <? min_distance)%nat
          then closest_loop str arr' (Some (x, dist))
          else closest_loop str arr' best
      end
  end.

(** [closest(str, arr)]: [arr[0]] of an empty array is [undefined]. *)
Definition closest (str : string) (arr : list string) : option string :=
  closest_loop str arr None.

End Levenshtein.

(** ** The world: pending timers and the log *)

Record Timer : Type :=
  mkTimer { timer_id : nat; timer_delay : Z; timer_ref : bool }.

Inductive Level : Type := error | debug | verbose.

(** What is given to the logger.  The numbers of [Decide] are the exact
    values of the expressions of lines 259-264; the message prints the
    doubles that the source computes for them. *)
Inductive LogPayload : Type :=
| Text (message : string)
| Format (template arg : string)
| Thrown (e : Exn)
| Decide (distanceMax : Q) (candidate name : string)
         (similarityPct : JSNumber) (calcDistanceFrom : nat).

Record World : Type :=
  mkWorld { next_timer : nat;
            timers : list Timer;
            logs : list (Level * LogPayload) }.

(** A computation: runs in a world, completes, leaves a world. *)
Definition M (A : Type) : Type := World -> Completion A * World.

Definition ret {A : Type} (a : A) : M A := fun w => (Returns a, w).

Definition throw {A : Type} (e : Exn) : M A := fun w => (Throws e, w).

Definition lift {A : Type} (c : Completion A) : M A := fun w => (c, w).

Definition bind {A B : Type} (m : M A) (k : A -> M B) : M B :=
  fun w =>
    match m w with
    | (Returns a, w') => k a w'
    | (Throws e, w') => (Throws e, w')
    end.

(** [try { m } catch (e) { ... }], with the handler left to the caller:
    the exception becomes a value. *)
Definition attempt {A : Type} (m : M A) : M (Exn + A) :=
  fun w =>
    match m w with
    | (Returns a, w') => (Returns (inr a), w')
    | (Throws e, w') => (Returns (inl e), w')
    end.

Declare Scope js_scope.
Delimit Scope js_scope with js.
Notation "x <- m ;; k" := (bind m (fun x => k))
  (at level 100, m at next level, right associativity) : js_scope.
Notation "m ;; k" := (bind m (fun _ => k))
  (at level 100, right associativity) : js_scope.

(** A computation with an [await] that may never come back: it leaves
    the world in which it completed, or the world in which it is left
    waiting. *)
Definition Async (A : Type) : Type := World -> Promise A * World.

(** A computation that always completes, as one that may not. *)
Definition settled {A : Type} (m : M A) : Async A :=
  fun w => let (c, w') := m w in (Settles c, w').

Definition abind {A B : Type} (m : Async A) (k : A -> Async B) : Async B :=
  fun w =>
    match m w with
    | (Settles (Returns a), w') => k a w'
    | (Settles (Throws e), w') => (Settles (Throws e), w')
    | (NeverSettles, w') => (NeverSettles, w')
    end.

Notation "x <~ m ;; k" := (abind m (fun x => k))
  (at level 100, m at next level, right associativity) : js_scope.

Definition log (lv : Level) (p : LogPayload) : M unit :=
  fun w => (Returns tt,
            mkWorld (next_timer w) (timers w) (logs w ++ [(lv, p)])%list).

(** Node keeps a delay within [1 .. 2^31 - 1] and uses 1 otherwise. *)
Definition clamp_delay (ms : Z) : Z :=
  if ((ms <? 1) || (2147483647 <? ms))%Z then 1%Z else ms.

(** [setTimeout(callback, ms)]: a new pending timer; the callbacks of
    this file all abort the controller the timer was made for. *)
Definition setTimeout (ms : Z) : M nat :=
  fun w =>
    let id := next_timer w in
    (Returns id,
     mkWorld (S id) (mkTimer id (clamp_delay ms) true :: timers w) (logs w)).

(** [timeout.unref()]: the timer stays pending and no longer keeps the
    process alive. *)
Definition unref_timer (id : nat) (t : Timer) : Timer :=
  if (timer_id t =? id)%nat
  then mkTimer (timer_id t) (timer_delay t) false
  else t.

Definition unref (id : nat) : M unit :=
  fun w =>
    (Returns tt,
     mkWorld (next_timer w) (map (unref_timer id) (timers w)) (logs w)).

Definition pending (w : World) (id : nat) : option Timer :=
  find (fun t => (timer_id t =? id)%nat) (timers w).

(** A timer that fires leaves the pending ones. *)
Definition fire (id : nat) (w : World) : World :=
  mkWorld (next_timer w)
          (filter (fun t => negb (timer_id t =? id)%nat) (timers w))
          (logs w).

(** The timer behind an abort signal is due within [t] milliseconds of
    the moment it was armed. *)
Definition due (signal : option nat) (t : Z) (w : World) : bool :=
  match signal with
  | Some id =>
      match pending w id with
      | Some timer => (timer_delay timer <=? t)%Z
      | None => false
      end
  | None => false
  end.

(** The timer behind the signal fires. *)
Definition abort (signal : option nat) (w : World) : World :=
  match signal with
  | Some id => fire id w
  | None => w
  end.

(** The world with more entries in its log. *)
Definition logged (w : World) (entries : list (Level * LogPayload)) : World :=
  mkWorld (next_timer w) (timers w) (logs w ++ entries)%list.

(** ** HTTP through node-fetch *)

Definition Headers : Type := list (string * string).

(** [headers.get(name)]: names compare without case; several values
    of one name are joined. *)
Definition headers_get (h : Headers) (name : string) : option string :=
  match filter (fun kv => JSString.toLowerCase (fst kv)
                          =? JSString.toLowerCase name) h with
  | [] => None
  | vs => Some (concat ", " (map snd vs))
  end.

(** A response as delivered by [fetch]: status line and headers are
    there, the body is a stream that is still arriving.  [body] is what
    reading the stream to its end gives, the content or the error of
    the stream, and [body_latency] the time at which the stream ends or
    fails, in milliseconds from the sending of the request (as
    [latency] below).

    [response.clone()] of node-fetch tees the stream into two branches,
    each with a buffer of its own (16 KiB unless configured); a branch
    that nobody reads stops the stream for both once its buffer is
    full.  [clone_drains] tells that the whole body gets through before
    that happens: it depends on the size of the body and on the chunks
    it arrives in, and a body much larger than the buffers never gets
    through. *)
Record Response : Type :=
  mkResponse { status : N;
               statusText : string;
               headers : Headers;
               body : Completion string;
               body_latency : Z;
               clone_drains : bool }.

(** [response.ok] *)
Definition ok (r : Response) : bool :=
  ((200 <=? status r) && (status r <? 300))%N.

Record Request : Type :=
  mkRequest { req_url : string; req_headers : Headers; req_redirect : string }.

Inductive Settlement : Type :=
| TransportError (e : Exn)
| Responded (r : Response).

(** What the network does with a request: after [latency] milliseconds
    the request settles, with a response as soon as its headers are
    there. *)
Record Exchange : Type :=
  mkExchange { latency : Z; settlement : Settlement }.

(** ** The index store and the environment *)

(** A row of table [torrent]. *)
Record TorrentRow : Type :=
  mkRow { row_file_path : string; row_info_hash : string; row_name : string }.

Record Env : Type :=
  mkEnv { snatchTimeout : option Z;
          (** [getRuntimeConfig().snatchTimeout], when it is a number *)
          levenshtein_threshold : Q;
          (** [(await getFileConfig()).levenshtein] *)
          torrent_table : list TorrentRow;
          (** [name LIKE pattern] as the store evaluates it *)
          like : string -> string -> bool;
          (** [fsPromises.readFile] *)
          readFile : string -> Completion string;
          network : Request -> Exchange }.

Record TorrentLocator : Type :=
  mkLocator { infoHash : option string;
              name : option string;
              path : option string }.

Inductive SnatchError : Type :=
| ABORTED
| RATE_LIMITED
| MAGNET_LINK
| INVALID_CONTENTS
| UNKNOWN_ERROR.

(** Modelled from the spec: [Result], [resultOf] and [resultOfErr] of
    [Result.js], a result type holding either a value or one error,
    exactly one of the two. *)
Inductive Result (T E : Type) : Type :=
| Ok (value : T)
| Err (err : E).
Arguments Ok {T E} value.
Arguments Err {T E} err.

Definition resultOf {T E : Type} (value : T) : Result T E := Ok value.
Definition resultOfErr {T E : Type} (err : E) : Result T E := Err err.

(** A regular expression without the flags [g] and [y], as [s.match]
    sees it: element 0 of the match, [None] for [null]. *)
Definition Regex : Type := string -> option string.

(** [re.test(s)] *)
Definition test (re : Regex) (s : string) : bool :=
  match re s with Some _ => true | None => false end.

(** [s.match(re)[0]] *)
Definition match_0 (s : string) (re : Regex) : Completion string :=
  match re s with
  | Some m => Returns m
  | None => Throws (TypeError "Cannot read properties of null (reading '0')")
  end.

(** A conjunct of a query under construction: [column = value]. *)
Inductive Column : Type := col_file_path | col_info_hash | col_name.

Definition column_of (c : Column) (r : TorrentRow) : string :=
  match c with
  | col_file_path => row_file_path r
  | col_info_hash => row_info_hash r
  | col_name => row_name r
  end.

Definition QueryBuilder : Type := list (Column * string).

(** [b.where({ column: value })] *)
Definition where_eq (b : QueryBuilder) (c : Column) (v : string)
    : QueryBuilder := (b ++ [(c, v)])%list.

Definition run_query (b : QueryBuilder) (table : list TorrentRow)
    : list TorrentRow :=
  filter (fun r => forallb (fun cv => column_of (fst cv) r =? snd cv) b) table.

(** [.first()] *)
Definition first (rows : list TorrentRow) : option TorrentRow := hd_error rows.

(** [if (s)] on an optional string: [undefined] and the empty string
    are false; [Some v] is the string that passed the test. *)
Definition truthy (s : option string) : option string :=
  match s with
  | Some v => if v =? "" then None else Some v
  | None => None
  end.

Definition dquote : string := String (ascii_of_nat 34) EmptyString.

(** A header value inside a template literal. *)
Definition show_nullable (s : option string) : string :=
  match s with Some s => s | None => "null" end.

(** ** The functions of [torrent.ts] *)

Section Torrent.

Open Scope js_scope.

(** [Metafile] and [Metafile.decode] of [parseTorrent.js]; a decoding
    that fails throws. *)
Variable Metafile : Type.
Variable decode : string -> Completion Metafile.

(** The constants of [constants.js]. *)
Variables EP_REGEX SEASON_REGEX MOVIE_REGEX GROUP_REGEX : Regex.
Variables VIDEO_EXTENSIONS DATA_EXTENSIONS : list string.
Variable USER_AGENT : string.

(** [inspect] of Node's [util]. *)
Variable inspect : TorrentLocator -> string.

Variable env : Env.

Definition parseTorrentFromFilename (filename : string) : M Metafile :=
  data <- lift (readFile env filename) ;;
  lift (decode data).

(** [fetch(url, { headers, signal, redirect })]; [signal] names the
    timer, if any, whose callback aborts the controller of the signal.
    When that timer is due no later than the request settles, it fires
    and the request rejects with an [AbortError]. *)
Definition fetch (req : Request) (signal : option nat) : M Response :=
  fun w =>
    let x := network env req in
    let settle :=
      match settlement x with
      | TransportError e => (Throws e, w)
      | Responded r => (Returns r, w)
      end in
    match signal with
    | Some id =>
        match pending w id with
        | Some t =>
            if (timer_delay t <=? latency x)%Z
            then (Throws AbortError, fire id w)
            else settle
        | None => settle
        end
    | None => settle
    end.

(** [await response.text()] and [await response.arrayBuffer()] (lines
    85 and 103): the body stream is read to its end.  The signal given
    to [fetch] still acts on the body: when its timer is due no later
    than the body ends, the timer fires and the read rejects with an
    [AbortError]. *)
Definition read_body (signal : option nat) (response : Response) : M string :=
  fun w =>
    if due signal (body_latency response) w
    then (Throws AbortError, abort signal w)
    else (body response, w).

(** [await response.clone().text()] (line 88): the clone is one branch
    of a tee whose other branch, the body of [response] itself, is never
    read.  The read of the clone comes back only when the whole body
    gets through the tee; an error or an abort of the stream does not
    reach the clone, whose read then stays pending for ever. *)
Definition read_clone (signal : option nat) (response : Response)
    : Async string :=
  fun w =>
    if due signal (body_latency response) w
    then (NeverSettles, abort signal w)
    else match body response with
         | Returns content =>
             if clone_drains response
             then (Settles (Returns content), w)
             else (NeverSettles, w)
         | Throws _ => (NeverSettles, w)
         end.

(** Lines 73-113: what happens once [fetch] has given a response;
    [signal] is the signal that was given to [fetch]. *)
Definition classifyResponse (url : string) (signal : option nat)
    (response : Response) : Async (Result Metafile SnatchError) :=
  if JSString.startsWith (JSString.toString (status response)) "3"
     && match headers_get (headers response) "location" with
        | Some location => JSString.startsWith location "magnet:"
        | None => false
        end
  then
    settled (log error (Text ("Unsupported: magnet link detected at " ++ url)) ;;
             ret (resultOfErr MAGNET_LINK))
  else if (status response =? 429)%N then
    settled (ret (resultOfErr RATE_LIMITED))
  else if negb (ok response) then
    settled (log error (Text ("error downloading torrent at " ++ url ++ ": "
                              ++ JSString.toString (status response) ++ " "
                              ++ statusText response)) ;;
             text <- read_body signal response ;;
             log debug (Format "response: %s" text) ;;
             ret (resultOfErr UNKNOWN_ERROR))
  else if match headers_get (headers response) "Content-Type" with
          | Some contentType => contentType =? "application/rss+xml"
          | None => false
          end
  then
    responseText <~ read_clone signal response ;;
    settled (if JSString.includes responseText "429" then
               ret (resultOfErr RATE_LIMITED)
             else
               log error (Text ("invalid torrent contents at " ++ url)) ;;
               log debug (Text ("contents: " ++ dquote
                                ++ substring 0 100 responseText
                                ++ (if (100 <? String.length responseText)%nat
                                    then "..." else "")
                                ++ dquote)) ;;
               ret (resultOfErr INVALID_CONTENTS))
  else
    settled (decoded <- attempt (bytes <- read_body signal response ;;
                                 lift (decode bytes)) ;;
             match decoded with
             | inr meta => ret (resultOf meta)
             | inl e =>
                 log error (Text ("invalid torrent contents at " ++ url)) ;;
                 let contentType :=
                   headers_get (headers response) "Content-Type" in
                 let contentLength :=
                   headers_get (headers response) "Content-Length" in
                 log debug (Text ("Content-Type: "
                                  ++ show_nullable contentType)) ;;
                 log debug (Text ("Content-Length: "
                                  ++ show_nullable contentLength)) ;;
                 ret (resultOfErr INVALID_CONTENTS)
             end).

Definition parseTorrentFromURL (url : string)
    : Async (Result Metafile SnatchError) :=
  (* const abortController = new AbortController() *)
  abortTimer <~ settled (match snatchTimeout env with
                         | Some ms => timeout <- setTimeout ms ;;
                                      unref timeout ;;
                                      ret (Some timeout)
                         | None => ret None
                         end) ;;
  fetched <~ settled (attempt (fetch (mkRequest url
                                        [("User-Agent", USER_AGENT)]
                                        "manual") abortTimer)) ;;
  match fetched with
  | inl e =>
      settled (if exn_name e =? "AbortError" then
                 log error (Text ("snatching " ++ url ++ " timed out")) ;;
                 ret (resultOfErr ABORTED)
               else
                 log error (Text ("failed to access " ++ url)) ;;
                 log debug (Thrown e) ;;
                 ret (resultOfErr UNKNOWN_ERROR))
  | inr response => classifyResponse url abortTimer response
  end.

(** Lines 233-243: the search term. *)
Definition searchTermOf (name : string) : Completion string :=
  if test EP_REGEX name then
    if test GROUP_REGEX name then
      cbind (match_0 name EP_REGEX) (fun ep =>
      cbind (match_0 name GROUP_REGEX) (fun group =>
      Returns (ep ++ "%" ++ group)))
    else match_0 name EP_REGEX
  else if test SEASON_REGEX name then
    if test GROUP_REGEX name then
      cbind (match_0 name SEASON_REGEX) (fun season =>
      cbind (match_0 name GROUP_REGEX) (fun group =>
      Returns (season ++ "%" ++ group)))
    else match_0 name SEASON_REGEX
  else if test GROUP_REGEX name then
    cbind (match_0 name MOVIE_REGEX) (fun movie =>
    cbind (match_0 name GROUP_REGEX) (fun group =>
    Returns (movie ++ "%" ++ group)))
  else match_0 name MOVIE_REGEX.

(** Lines 245-254: the rows whose name is like the search term, keyed
    by their comparable names; a later row replaces an earlier one of
    the same key. *)
Definition candidates (searchTerm : string) : list TorrentRow :=
  filter (fun x => like env searchTerm (row_name x)) (torrent_table env).

Definition searchMapOf (allTorrentNames : list TorrentRow)
    : JSObject.t TorrentRow :=
  fold_left
    (fun searchMap x =>
       JSObject.set searchMap
         (createComparableTorrent
            (removeExtensionsFromName VIDEO_EXTENSIONS DATA_EXTENSIONS
               (row_name x)))
         x)
    allTorrentNames JSObject.empty.

(** A value used as a property key. *)
Definition property_key (k : option string) : string :=
  match k with Some k => k | None => "undefined" end.

(** [searchMap[k].field]: reading a field of [undefined] throws.  The
    resolver reads keys that [Object.keys] gave it, own properties. *)
Definition member {A : Type} (searchMap : JSObject.t TorrentRow)
    (k : option string) (field : TorrentRow -> A) : Completion A :=
  match JSObject.get searchMap (property_key k) with
  | Some x => Returns (field x)
  | None => Throws (TypeError "Cannot read properties of undefined")
  end.

(** [Math.max(levenshtein, Math.min(0.1 * length, 8))].  Numbers are
    rationals and the product is exact.  The source compares the
    result with integers only, and an integer [d <= 8] is at most the
    double [0.1 * length] exactly when [10 * d <= length]: rounding is
    monotone and the double [0.1] lies just above one tenth. *)
Definition distanceMaxOf (length : nat) : Q :=
  Qmax (levenshtein_threshold env)
       (Qmin ((1 # 10) * inject_Z (Z.of_nat length)) 8).

Definition getTorrentByFuzzyName (name : string) : M (option Metafile) :=
  let searchTarget := createComparableTorrent name in
  searchTerm <- lift (searchTermOf name) ;;
  let allTorrentNames := candidates searchTerm in
  let searchMap := searchMapOf allTorrentNames in
  let closestMatch :=
    Levenshtein.closest searchTarget (JSObject.keys searchMap) in
  calcDistanceFrom <- lift (Levenshtein.distance searchTarget closestMatch) ;;
  let dissimilarityPct :=
    js_divide calcDistanceFrom (String.length searchTarget) in
  let similarityPct := js_percent_complement dissimilarityPct in
  let distanceMax := distanceMaxOf (String.length searchTarget) in
  if Qle_bool (inject_Z (Z.of_nat calcDistanceFrom) - 2) distanceMax then
    candidate <- lift (member searchMap closestMatch row_name) ;;
    log verbose (Decide distanceMax candidate name similarityPct
                        calcDistanceFrom) ;;
    if Qle_bool (inject_Z (Z.of_nat calcDistanceFrom)) distanceMax then
      file_path <- lift (member searchMap closestMatch row_file_path) ;;
      meta <- parseTorrentFromFilename file_path ;;
      ret (Some meta)
    else ret None
  else ret None.

(** The callback given to [.where] in [getTorrentByCriteria]. *)
Definition criteria_where (criteria : TorrentLocator) (b : QueryBuilder)
    : QueryBuilder :=
  (* there is always at least one criterion *)
  let b := match truthy (infoHash criteria) with
           | Some v => where_eq b col_info_hash v
           | None => b
           end in
  let b := match truthy (name criteria) with
           | Some v => where_eq b col_name v
           | None => b
           end in
  b.

Definition getTorrentByCriteria (criteria : TorrentLocator) : M Metafile :=
  let findResult :=
    first (run_query (criteria_where criteria []) (torrent_table env)) in
  match findResult with
  | None =>
      let message := "could not find a torrent with the criteria "
                     ++ inspect criteria in
      throw (Error message)
  | Some row => parseTorrentFromFilename (row_file_path row)
  end.

End Torrent.

(** ** What the specification says, in its own words *)

Section Specification.

Variable Metafile : Type.
Variable decode : string -> Completion Metafile.
Variable USER_AGENT : string.
Variable env : Env.

(** The request that [parseTorrentFromURL] sends for [url]. *)
Definition request_for (url : string) : Request :=
  mkRequest url [("User-Agent", USER_AGENT)] "manual".

(** The request for [url] settles before a configured timeout is due:
    it is not the timer that ends it. *)
Definition settles_before_timeout (url : string) : Prop :=
  match snatchTimeout env with
  | Some ms => (latency (network env (request_for url)) < clamp_delay ms)%Z
  | None => True
  end.

(** The request for [url] settles with the response [r]. *)
Definition settles_with (url : string) (r : Response) : Prop :=
  settlement (network env (request_for url)) = Responded r
  /\ settles_before_timeout url.

(** The signal given to [fetch]: it names the timer that the call
    arms in [w], if a timeout is configured. *)
Definition armed_signal (w : World) : option nat :=
  match snatchTimeout env with
  | Some _ => Some (next_timer w)
  | None => None
  end.

(** A timeout is configured and its timer is due no later than [t]
    milliseconds after the request was sent. *)
Definition due_by (t : Z) : bool :=
  match snatchTimeout env with
  | Some ms => (clamp_delay ms <=? t)%Z
  | None => false
  end.

(** The world once the timer, if one is configured, is armed and
    unreferenced. *)
Definition after_arming (w : World) : World :=
  match snatchTimeout env with
  | Some ms =>
      mkWorld (S (next_timer w))
              (mkTimer (next_timer w) (clamp_delay ms) false
               :: map (unref_timer (next_timer w)) (timers w))
              (logs w)
  | None => w
  end.

(** A redirect status, 3xx. *)
Definition is_redirect (s : N) : bool := ((300 <=? s) && (s <=? 399))%N.

(** A success status, 2xx. *)
Definition is_success (s : N) : bool := ((200 <=? s) && (s <=? 299))%N.

Definition location_is_magnet (r : Response) : bool :=
  match headers_get (headers r) "Location" with
  | Some l => prefix "magnet:" l
  | None => false
  end.

(** The media type that a [Content-Type] value declares: what stands
    before its parameters, in lower case and without white space. *)
Fixpoint media_type (contentType : string) : string :=
  match contentType with
  | EmptyString => EmptyString
  | String c rest =>
      if (c =? ";")%char then EmptyString
      else if JSString.is_space c then media_type rest
      else String (JSString.toLowerCase_char c) (media_type rest)
  end.

(** The response declares the RSS/XML content type: the media type of
    its [Content-Type] is [application/rss+xml], with or without
    parameters such as a charset. *)
Definition declares_rss (r : Response) : bool :=
  match headers_get (headers r) "Content-Type" with
  | Some ct => media_type ct =? "application/rss+xml"
  | None => false
  end.

(** The test of line 87: the [Content-Type] is the very string
    [application/rss+xml]. *)
Definition content_type_is_rss (r : Response) : bool :=
  match headers_get (headers r) "Content-Type" with
  | Some contentType => contentType =? "application/rss+xml"
  | None => false
  end.

(** The response is a redirect to a magnet link or has status 429:
    the call returns without reading its body. *)
Definition answered_by_headers (r : Response) : bool :=
  JSString.startsWith (JSString.toString (status r)) "3"
  && match headers_get (headers r) "location" with
     | Some location => JSString.startsWith location "magnet:"
     | None => false
     end
  || (status r =? 429)%N.

(** The timer of the call comes due while the call is under way:
    before the request settles or, on the paths that read the body,
    before the body has ended. *)
Definition timer_comes_due (url : string) : bool :=
  let x := network env (request_for url) in
  due_by (latency x)
  || match settlement x with
     | TransportError _ => false
     | Responded r => negb (answered_by_headers r) && due_by (body_latency r)
     end.

(** Steps 4 to 8 of the classification protocol, first match winning,
    for a response whose body reads as [content]; [feed] tells which
    responses count as RSS/XML. *)
Definition classification_with (feed : Response -> bool)
    (r : Response) (content : string) : Result Metafile SnatchError :=
  if is_redirect (status r) && location_is_magnet r then Err MAGNET_LINK
  else if (status r =? 429)%N then Err RATE_LIMITED
  else if negb (is_success (status r)) then Err UNKNOWN_ERROR
  else if feed r then
    if JSString.includes content "429" then Err RATE_LIMITED
    else Err INVALID_CONTENTS
  else match decode content with
       | Returns meta => Ok meta
       | Throws _ => Err INVALID_CONTENTS
       end.

(** The protocol as the specification words it: RSS/XML is what the
    response declares. *)
Definition classification : Response -> string -> Result Metafile SnatchError :=
  classification_with declares_rss.

(** The protocol with the amended step: RSS/XML is the [Content-Type]
    that is exactly [application/rss+xml]. *)
Definition classification_exact
    : Response -> string -> Result Metafile SnatchError :=
  classification_with content_type_is_rss.

(** The acceptance ceiling [max(T, min(0.1 * L, 8))]. *)
Definition ceiling (T : Q) (L : nat) : Q :=
  Qmax T (Qmin ((1 # 10) * inject_Z (Z.of_nat L)) 8).

(** A row satisfies every populated field of the locator, the path
    being the path of the stored file. *)
Definition satisfies_all_fields (criteria : TorrentLocator) (r : TorrentRow)
    : bool :=
  match infoHash criteria with Some v => row_info_hash r =? v | None => true end
  && match name criteria with Some v => row_name r =? v | None => true end
  && match path criteria with Some v => row_file_path r =? v | None => true end.

(** A row satisfies the non-empty [infoHash] and [name] of the locator. *)
Definition satisfies_hash_and_name (criteria : TorrentLocator) (r : TorrentRow)
    : bool :=
  match infoHash criteria with
  | Some v => (v =? "") || (row_info_hash r =? v)
  | None => true
  end
  && match name criteria with
     | Some v => (v =? "") || (row_name r =? v)
     | None => true
     end.

(** Decoding a stored file through the codec. *)
Definition decoded_file (filename : string) : Completion Metafile :=
  cbind (readFile env filename) decode.

(** The answer of the resolver when it accepts the candidate [row]:
    the decoded stored file of the row. *)
Definition accepted (row : TorrentRow) : Completion (option Metafile) :=
  cbind (decoded_file (row_file_path row)) (fun meta => Returns (Some meta)).

(** The answer of the resolver when it rejects. *)
Definition NoMatch : Completion (option Metafile) := Returns None.

(** The timer [id] is no longer armed in [w]. *)
Definition disarmed (w : World) (id : nat) : Prop := pending w id = None.

End Specification.

(** ** Sample constants and collaborators

    The theorems below hold for every choice of the constants, the
    codec and the environment.  This module fixes one choice, on which
    the functions can be run. *)

Module Sample.

Definition is_digit (c : ascii) : bool :=
  let n := JSString.code c in ((48 <=? n) && (n <=? 57))%N.

Definition is_alnum (c : ascii) : bool :=
  let n := JSString.code (JSString.toLowerCase_char c) in
  is_digit c || ((97 <=? n) && (n <=? 122))%N.

(** The longest run of digits at the start of [s], and what follows. *)
Fixpoint span_digits (s : string) : string * string :=
  match s with
  | String c s' =>
      if is_digit c
      then let (ds, rest) := span_digits s' in (String c ds, rest)
      else (EmptyString, s)
  | EmptyString => (EmptyString, EmptyString)
  end.

Definition letter (l : ascii) (c : ascii) : bool :=
  (JSString.toLowerCase_char c =? l)%char.

(** The leftmost place of [s] where [here] finds something. *)
Fixpoint leftmost (here : string -> option string) (s : string)
    : option string :=
  match here s with
  | Some m => Some m
  | None =>
      match s with
      | EmptyString => None
      | String _ s' => leftmost here s'
      end
  end.

Definition season_here (s : string) : option string :=
  match s with
  | String c s' =>
      if letter "s" c
      then match span_digits s' with
           | (EmptyString, _) => None
           | (ds, _) => Some (String c ds)
           end
      else None
  | EmptyString => None
  end.

Definition episode_here (s : string) : option string :=
  match s with
  | String c s' =>
      if letter "s" c
      then match span_digits s' with
           | (EmptyString, _) => None
           | (ds, String e rest) =>
               if letter "e" e
               then match span_digits rest with
                    | (EmptyString, _) => None
                    | (es, _) => Some (String c (ds ++ String e es))
                    end
               else None
           | (_, EmptyString) => None
           end
      else None
  | EmptyString => None
  end.

Definition year_here (s : string) : option string :=
  match s with
  | String a (String b (String c (String d _))) =>
      if is_digit a && is_digit b && is_digit c && is_digit d
      then Some (String a (String b (String c (String d EmptyString))))
      else None
  | _ => None
  end.

Fixpoint all_alnum (s : string) : bool :=
  match s with
  | EmptyString => true
  | String c s' => is_alnum c && all_alnum s'
  end.

Definition group_here (s : string) : option string :=
  match s with
  | String c (String d s') =>
      if (c =? "-")%char && all_alnum (String d s') then Some s else None
  | _ => None
  end.

(** Modelled from the spec: [EP_REGEX] of [constants.js], the episode
    pattern, a season and episode marker such as [S01E02]. *)
Definition EP_REGEX : Regex := leftmost episode_here.

(** Modelled from the spec: [SEASON_REGEX] of [constants.js], the
    season-only marker. *)
Definition SEASON_REGEX : Regex := leftmost season_here.

(** Modelled from the spec: [MOVIE_REGEX] of [constants.js], the movie
    marker, a year. *)
Definition MOVIE_REGEX : Regex := leftmost year_here.

(** Modelled from the spec: [GROUP_REGEX] of [constants.js], the release
    group tag, a short identifier appended to a release name. *)
Definition GROUP_REGEX : Regex := leftmost group_here.

(** Modelled from the spec: [VIDEO_EXTENSIONS] and [DATA_EXTENSIONS] of
    [constants.js], the known video and data file extensions. *)
Definition VIDEO_EXTENSIONS : list string := [".mkv"; ".mp4"; ".avi"].
Definition DATA_EXTENSIONS : list string := [".iso"; ".rar"].

(** Modelled from the spec: [USER_AGENT] of [constants.js], the distinct
    user-agent identity of the requests. *)
Definition USER_AGENT : string := "CrossSeed".

(** Modelled from the spec: [Metafile] of [parseTorrent.js], the decoded
    torrent metadata; here the bencoded dictionary itself. *)
Definition Metafile : Type := string.

(** Modelled from the spec: [Metafile.decode] of [parseTorrent.js],
    which fails on malformed input; here well formed means enclosed in
    [d] and [e]. *)
Definition decode (data : string) : Completion Metafile :=
  if JSString.startsWith data "d" && JSString.endsWith data "e"
  then Returns data
  else Throws (Error "Invalid data: Missing delimiter").

(** A rendering of a locator, for [inspect] of Node's [util]. *)
Definition inspect (criteria : TorrentLocator) : string :=
  "{ infoHash: " ++ show_nullable (infoHash criteria)
  ++ ", name: " ++ show_nullable (name criteria)
  ++ ", path: " ++ show_nullable (path criteria) ++ " }".

(** [LIKE]: [%] stands for any run of characters, [_] for any one
    character, letters compare without case. *)
Fixpoint like (pattern s : string) : bool :=
  match pattern with
  | EmptyString => match s with EmptyString => true | _ => false end
  | String p pattern' =>
      if (p =? "%")%char then
        (fix from (s : string) : bool :=
           like pattern' s
           || match s with
              | EmptyString => false
              | String _ s' => from s'
              end) s
      else
        match s with
        | EmptyString => false
        | String c s' =>
            ((p =? "_")%char
             || (JSString.toLowerCase_char p =? JSString.toLowerCase_char c)%char)
            && like pattern' s'
        end
  end.

Definition no_file (filename : string) : Completion string :=
  Throws (Error ("ENOENT: no such file or directory, open '" ++ filename ++ "'")).

Definition unreachable (req : Request) : Exchange :=
  mkExchange 0 (TransportError (mkExn "FetchError" "getaddrinfo ENOTFOUND")).

Definition world0 : World := mkWorld 0 [] [].

(** An environment with an empty index store. *)
Definition empty_store : Env := mkEnv None 3 [] like no_file unreachable.

(** A store whose only torrent is an unrelated movie. *)
Definition unrelated_row : TorrentRow :=
  mkRow "/torrents/Unrelated.Movie.2020.GROUP.mkv.torrent"
        "c12fe1c06bba254a9dc9f519b335aa7c1367a88a"
        "Unrelated.Movie.2020.GROUP.mkv".

Definition unrelated_store : Env :=
  mkEnv None 3 [unrelated_row] like no_file unreachable.

(** A store with one episode, in another resolution than asked for. *)
Definition episode_row : TorrentRow :=
  mkRow "/torrents/e.torrent"
        "5a8ce26e8a19a877d8ccc927fcc18e34e1f5ff67"
        "S01E02.Show.Name.720p-GROUP".

Definition episode_file (filename : string) : Completion string :=
  if filename =? "/torrents/e.torrent" then Returns "d4:infod4:name4:Showee"
  else no_file filename.

Definition episode_store (threshold : Q) : Env :=
  mkEnv None threshold [episode_row] like episode_file unreachable.

(** A tracker that answers after 10 ms; the samples below have their
    bodies there after 12 ms. *)
Definition tracker (r : Response) (req : Request) : Exchange :=
  mkExchange 10 (Responded r).

Definition online (timeout : option Z) (r : Response) : Env :=
  mkEnv timeout 3 [] like no_file (tracker r).

Definition too_many_requests : Response :=
  mkResponse 429 "Too Many Requests" [] (Returns "slow down") 12 true.

(** A server error whose body breaks off while it is read. *)
Definition premature_close : Exn :=
  mkExn "FetchError" "Invalid response body: Premature close".

Definition broken_500 : Response :=
  mkResponse 500 "Internal Server Error" [] (Throws premature_close) 12 true.

Definition broken_feed : Response :=
  mkResponse 200 "OK" [("content-type", "application/rss+xml")]
             (Throws premature_close) 12 true.

Definition broken_torrent : Response :=
  mkResponse 200 "OK" [("content-type", "application/x-bittorrent")]
             (Throws premature_close) 12 true.

Definition magnet_302 : Response :=
  mkResponse 302 "Found" [("location", "magnet:?xt=urn:btih:c12fe1c0")]
             (Returns "") 12 true.

Definition disguised_limit : Response :=
  mkResponse 200 "OK" [("content-type", "application/rss+xml")]
             (Returns "<rss><error>429 Too Many Requests</error></rss>")
             12 true.

Definition disguised_error : Response :=
  mkResponse 200 "OK" [("content-type", "application/rss+xml")]
             (Returns "<rss><error>Torrent not found</error></rss>")
             12 true.

Definition torrent_200 : Response :=
  mkResponse 200 "OK" [("content-type", "application/x-bittorrent")]
             (Returns "d4:infod4:name4:Showee") 12 true.

(** A feed that tells of the rate limit and names its charset. *)
Definition feed_with_charset : Response :=
  mkResponse 200 "OK"
             [("content-type", "application/rss+xml; charset=utf-8")]
             (Returns "<rss><error>429 Too Many Requests</error></rss>")
             12 true.

(** A feed of 256 KiB and more, too large to get through the tee of
    [clone()]. *)
Definition large_feed : Response :=
  mkResponse 200 "OK" [("content-type", "application/rss+xml")]
             (Returns ("<rss><error>429 Too Many Requests</error>"
                       ++ concat ""
                            (repeat "<item><title>A.Release.Name.1080p-GROUP</title></item>4567890"
                                    4096)
                       ++ "</rss>"))
             40 false.

(** A server error whose body takes two seconds to arrive. *)
Definition slow_500 : Response :=
  mkResponse 500 "Internal Server Error" [] (Returns "try again later")
             2000 true.

(** A torrent whose body takes two seconds to arrive. *)
Definition slow_torrent : Response :=
  mkResponse 200 "OK" [("content-type", "application/x-bittorrent")]
             (Returns "d4:infod4:name4:Showee") 2000 true.

(** A store with one torrent, and a locator that names another file. *)
Definition stored_row : TorrentRow :=
  mkRow "/torrents/a.torrent"
        "0a0b6ceefb4b8b0f1a0d7e6a1c2d3e4f5a6b7c8d"
        "Show.Name.S01E02.GROUP".

Definition stored_file (filename : string) : Completion string :=
  if filename =? "/torrents/a.torrent" then Returns "d4:infod4:name4:Showee"
  else no_file filename.

Definition one_torrent_store : Env :=
  mkEnv None 3 [stored_row] like stored_file unreachable.

Definition by_other_path : TorrentLocator :=
  mkLocator None None (Some "/torrents/b.torrent").

(** The functions of [torrent.ts] on the sample constants. *)
Definition fuzzy (env : Env) (name : string) : M (option Metafile) :=
  getTorrentByFuzzyName Metafile decode EP_REGEX SEASON_REGEX MOVIE_REGEX
    GROUP_REGEX VIDEO_EXTENSIONS DATA_EXTENSIONS env name.

Definition snatch (env : Env) (url : string)
    : Async (Result Metafile SnatchError) :=
  parseTorrentFromURL Metafile decode USER_AGENT env url.

Definition locate (env : Env) (criteria : TorrentLocator) : M Metafile :=
  getTorrentByCriteria Metafile decode inspect env criteria.

End Sample.

(** ** Node's [path.extname] (POSIX) *)

Module NodePath.

(** The variables of the loop of [extname]; [-1] for an index is
    [None]. *)
Record Scan : Type :=
  mkScan { startDot : option nat;
           startPart : nat;
           endAt : option nat;
           matchedSlash : bool;
           preDotState : Z }.

Definition scan_start : Scan := mkScan None 0 None true 0.

(** The body of the loop on a character [c = path[i]] that is no
    slash. *)
Definition visit (c : ascii) (i : nat) (st : Scan) : Scan :=
  let st1 :=
    match endAt st with
    | None => mkScan (startDot st) (startPart st) (Some (i + 1)) false
                     (preDotState st)
    | Some _ => st
    end in
  if (c =? ".")%char then
    match startDot st1 with
    | None => mkScan (Some i) (startPart st1) (endAt st1)
                     (matchedSlash st1) (preDotState st1)
    | Some _ =>
        if negb (preDotState st1 =? 1)%Z
        then mkScan (startDot st1) (startPart st1) (endAt st1)
                    (matchedSlash st1) 1
        else st1
    end
  else
    match startDot st1 with
    | Some _ => mkScan (startDot st1) (startPart st1) (endAt st1)
                       (matchedSlash st1) (-1)
    | None => st1
    end.

(** The loop [for (i = path.length - 1; i >= 0; --i)]: the list holds
    the characters still to visit, from [path[i]] down to [path[0]], so
    that [i] is the length of its tail; on a slash the loop stops
    ([break]) unless only slashes were seen so far. *)
Fixpoint extname_loop (rest : list ascii) (st : Scan) : Scan :=
  match rest with
  | [] => st
  | c :: before =>
      let i := List.length before in
      if (c =? "/")%char then
        if negb (matchedSlash st)
        then mkScan (startDot st) (i + 1) (endAt st) (matchedSlash st)
                    (preDotState st)
        else extname_loop before st
      else extname_loop before (visit c i st)
  end.

(** What [extname] returns after its loop. *)
Definition extname_result (path : string) (st : Scan) : string :=
  match startDot st, endAt st with
  | Some sd, Some e =>
      if (preDotState st =? 0)%Z
         || ((preDotState st =? 1)%Z && (sd =? e - 1)%nat
             && (sd =? startPart st + 1)%nat)
      then ""
      else substring sd (e - sd) path
  | _, _ => ""
  end.

Definition extname (path : string) : string :=
  extname_result path
    (extname_loop (rev (list_ascii_of_string path)) scan_start).

End NodePath.

(** A name without the path separator, as the entries of a directory
    are. *)
Definition no_slash (fn : string) : Prop :=
  Forall (fun c => c <> "/"%char) (list_ascii_of_string fn).

(** [haystack.includes(x)] on an array of strings. *)
Definition array_includes (haystack : list string) (x : string) : bool :=
  existsb (String.eqb x) haystack.

(** [.insert(row).onConflict("file_path").ignore()]: a row whose file
    path is already in the table is not inserted. *)
Definition insert_or_ignore (row : TorrentRow) (table : list TorrentRow)
    : list TorrentRow :=
  if existsb (fun r => row_file_path r =? row_file_path row) table
  then table
  else (table ++ [row])%list.

(** [.whereNotIn("file_path", paths).del()] *)
Definition delete_where_not_in (paths : list string) (table : list TorrentRow)
    : list TorrentRow :=
  filter (fun r => array_includes paths (row_file_path r)) table.

(** Modelled from the spec: [isOk] of [Result.js], on the result type
    that holds either a value or an error. *)
Definition isOk {T E : Type} (r : Result T E) : bool :=
  match r with Ok _ => true | Err _ => false end.

(** Modelled from the spec: [unwrapOrThrow] of [Result.js]: the value of
    a result that holds one; [thrown] is what the error of the other
    kind is thrown as. *)
Definition unwrapOrThrow {T E : Type} (thrown : E -> Exn) (r : Result T E)
    : Completion T :=
  match r with
  | Ok value => Returns value
  | Err err => Throws (thrown err)
  end.

(** A call of [fs.writeFileSync(file, data, { mode })]. *)
Record FileWrite : Type :=
  mkFileWrite { write_file : string; write_data : string; write_mode : N }.

(** The Levenshtein distance by its recurrence, against which the rows
    of [Levenshtein.levenshtein] are checked. *)
Fixpoint edit_distance (a b : string) {struct a} : nat :=
  match a with
  | EmptyString => String.length b
  | String x a' =>
      (fix against (b : string) : nat :=
         match b with
         | EmptyString => S (String.length a')
         | String y b' =>
             Nat.min (Nat.min (S (edit_distance a' (String y b')))
                              (S (against b')))
                     (edit_distance a' b' + if (x =? y)%char then 0 else 1)
         end) b
  end.

(** The row of distances from [ra] to [rb] and to its extensions by the
    characters of [bs], one after the other; [ra] and [rb] are prefixes
    read backwards. *)
Fixpoint row_from (ra rb bs : string) : list nat :=
  edit_distance ra rb
  :: match bs with
     | EmptyString => []
     | String y bs' => row_from ra (String y rb) bs'
     end.

(** The number of characters of [s] that are no separators. *)
Fixpoint plain_count (s : string) : nat :=
  match s with
  | EmptyString => 0
  | String c s' => (if is_separator c then 0 else 1) + plain_count s'
  end.

(** [s] with every character replaced by its image under [f]. *)
Fixpoint map_chars (f : ascii -> ascii) (s : string) : string :=
  match s with
  | EmptyString => EmptyString
  | String c s' => String (f c) (map_chars f s')
  end.

(** ** The torrent directory and the index (lines 116-208) *)

Section Directory.

Open Scope js_scope.

(** [Metafile] of [parseTorrent.js]: [decode], [encode], the fields
    [infoHash] and [name], and [getFileSystemSafeName]. *)
Variable Metafile : Type.
Variable decode : string -> Completion Metafile.
Variable encode : Metafile -> string.
Variables meta_infoHash meta_name getFileSystemSafeName : Metafile -> string.

(** [stripExtension] of [utils.js]. *)
Variable stripExtension : string -> string.

(** [path.join] on two segments and [path.resolve] of Node. *)
Variable path_join : string -> string -> string.
Variable path_resolve : string -> string.

(** [fsPromises.readdir] and [fs.readdirSync]: the names in a
    directory, or the error of the file system. *)
Variable readdir : string -> Completion (list string).

(** [logOnce] of [logger.js]: like the logger it completes normally;
    what it does to the world with its key and its callback is left
    open. *)
Variable logOnce : string -> M unit -> World -> World.

(** [CrossSeedError] of [errors.js], applied to its message. *)
Variable CrossSeedError : string -> Exn.

(** [Searchee] and [createSearcheeFromTorrentFile] of [searchee.js]. *)
Variables Searchee SearcheeError : Type.
Variable createSearcheeFromTorrentFile
  : string -> Completion (Result Searchee SearcheeError).
Variable thrown_error : SearcheeError -> Exn.

(** [torrentDir] and [outputDir] of [getRuntimeConfig()]. *)
Variables torrentDir outputDir : string.

Variable env : Env.

(** Lines 116-127.  The effect of [saveTorrentFile] is its one call of
    [fs.writeFileSync]; a missing [tag] is the default [""]. *)
Definition saveTorrentFile (tracker : string) (tag : option string)
    (meta : Metafile) : FileWrite :=
  let tag := match tag with Some t => t | None => "" end in
  let buf := encode meta in
  let filename := "[" ++ tag ++ "][" ++ tracker ++ "]"
                  ++ stripExtension (getFileSystemSafeName meta)
                  ++ ".torrent" in
  mkFileWrite (path_join outputDir filename) buf 420.

(** The entries of a directory that are torrent files, in order. *)
Definition torrent_entries (entries : list string) : list string :=
  JSString.sort (filter (fun fn => NodePath.extname fn =? ".torrent") entries).

(** Lines 129-136. *)
Definition findAllTorrentFilesInDir (torrentDir : string)
    : Completion (list string) :=
  cbind (readdir torrentDir) (fun entries =>
  Returns (map (fun fn => path_resolve (path_join torrentDir fn))
               (torrent_entries entries))).

(** The index store and the world, while the index is brought up to
    date. *)
Definition IndexState : Type := (list TorrentRow * World)%type.

(** Lines 143-169: the body of the loop of [indexNewTorrents]. *)
Definition index_file (st : IndexState) (filepath : string) : IndexState :=
  let (table, w) := st in
  let doesAlreadyExist :=
    first (run_query (where_eq [] col_file_path filepath) table) in
  match doesAlreadyExist with
  | Some _ => st
  | None =>
      match parseTorrentFromFilename Metafile decode env filepath w with
      | (Throws e, w') =>
          (table,
           logOnce ("Failed to parse " ++ filepath)
                   (log error (Text ("Failed to parse " ++ filepath)) ;;
                    log debug (Thrown e)) w')
      | (Returns meta, w') =>
          (insert_or_ignore
             (mkRow filepath (meta_infoHash meta) (meta_name meta)) table,
           w')
      end
  end.

(** Lines 138-173. *)
Definition indexNewTorrents (st : IndexState) : Completion unit * IndexState :=
  match findAllTorrentFilesInDir torrentDir with
  | Throws e => (Throws e, st)
  | Returns dirContents =>
      let (table, w) := fold_left index_file dirContents st in
      (Returns tt, (delete_where_not_in dirContents table, w))
  end.

(** Lines 175-179. *)
Definition getInfoHashesToExclude (table : list TorrentRow) : list string :=
  map row_info_hash table.

(** Lines 181-188. *)
Definition validateTorrentDir : Completion unit :=
  match readdir torrentDir with
  | Returns _ => Returns tt
  | Throws _ =>
      Throws (CrossSeedError ("Torrent dir " ++ torrentDir ++ " is invalid"))
  end.

(** Lines 198-207: the loop of [loadTorrentDirLight]. *)
Fixpoint load_searchees (torrentFilePaths : list string)
    (searchees : list Searchee) : Completion (list Searchee) :=
  match torrentFilePaths with
  | [] => Returns searchees
  | torrentFilePath :: rest =>
      cbind (createSearcheeFromTorrentFile torrentFilePath)
        (fun searcheeResult =>
           if isOk searcheeResult
           then cbind (unwrapOrThrow thrown_error searcheeResult)
                  (fun searchee =>
                     load_searchees rest (searchees ++ [searchee])%list)
           else load_searchees rest searchees)
  end.

(** Lines 190-208. *)
Definition loadTorrentDirLight : Completion (list Searchee) :=
  cbind (readdir torrentDir) (fun entries =>
  let torrentFilePaths :=
    map (fun filename => path_join torrentDir filename)
        (torrent_entries entries) in
  load_searchees torrentFilePaths []).

End Directory.

(** The response takes [parseTorrentFromURL] to line 85, the read of
    the body of an error page outside of any [try]: it is no redirect
    to a magnet link, its status is not 429 and it is not [ok]. *)
Definition reads_error_body (r : Response) : bool :=
  negb (answered_by_headers r) && negb (ok r).

(** The response takes [parseTorrentFromURL] to line 88, the read of
    the clone of a feed: no redirect to a magnet link, not 429, [ok],
    and its [Content-Type] is [application/rss+xml]. *)
Definition reads_feed_clone (r : Response) : bool :=
  negb (answered_by_headers r) && ok r && content_type_is_rss r.

(** The letters A-Z and a-z. *)
Definition is_ascii_letter (c : ascii) : bool :=
  let n := JSString.code c in
  ((65 <=? n) && (n <=? 90) || (97 <=? n) && (n <=? 122))%N.

(** Two characters that are equal or the two cases of one ASCII
    letter. *)
Definition same_ascii_letter (c d : ascii) : bool :=
  (c =? d)%char
  || is_ascii_letter c && is_ascii_letter d
     && (JSString.toLowerCase_char c =? JSString.toLowerCase_char d)%char.

(** Two names that differ at most in the case of ASCII letters. *)
Fixpoint same_but_ascii_case (name1 name2 : string) : bool :=
  match name1, name2 with
  | EmptyString, EmptyString => true
  | String c rest1, String d rest2 =>
      same_ascii_letter c d && same_but_ascii_case rest1 rest2
  | _, _ => false
  end.

(** A name of ASCII characters only. *)
Fixpoint ascii_name (name : string) : bool :=
  match name with
  | EmptyString => true
  | String c rest => (JSString.code c <? 128)%N && ascii_name rest
  end.

(** ** The directory functions on sample collaborators *)

Module SampleDir.

Definition torrentDir : string := "/torrents".
Definition outputDir : string := "/output".

Definition path_join (dir file : string) : string := dir ++ "/" ++ file.
Definition path_resolve (p : string) : string := p.

Definition readdir (dir : string) : Completion (list string) :=
  if dir =? "/torrents"
  then Returns ["b.torrent"; "notes.txt"; ".torrent"; "a.torrent";
                "broken.torrent"]
  else Throws (Error ("ENOENT: no such file or directory, scandir '"
                      ++ dir ++ "'")).

Definition readFile (filename : string) : Completion string :=
  if filename =? "/torrents/a.torrent" then Returns "d4:name1:Ae"
  else if filename =? "/torrents/b.torrent" then Returns "d4:name1:Be"
  else if filename =? "/torrents/broken.torrent" then Returns "garbage"
  else Sample.no_file filename.

Definition meta_infoHash (meta : Sample.Metafile) : string :=
  "hash of " ++ meta.
Definition meta_name (meta : Sample.Metafile) : string := meta.
Definition getFileSystemSafeName (meta : Sample.Metafile) : string := meta.
Definition encode (meta : Sample.Metafile) : string := meta.
Definition stripExtension (filename : string) : string := filename.

(** A [logOnce] that remembers its keys in the log itself. *)
Definition logOnce (key : string) (callback : M unit) (w : World) : World :=
  if existsb (fun entry => match snd entry with
                           | Text message => message =? key
                           | _ => false
                           end) (logs w)
  then w
  else snd (callback w).

Definition CrossSeedError (message : string) : Exn :=
  mkExn "CrossSeedError" message.

Definition env : Env :=
  mkEnv None 3 [] Sample.like readFile Sample.unreachable.

Definition stale_row : TorrentRow :=
  mkRow "/torrents/gone.torrent" "hash of gone" "Gone".

Definition index (st : IndexState) : Completion unit * IndexState :=
  indexNewTorrents Sample.Metafile Sample.decode meta_infoHash meta_name
    path_join path_resolve readdir logOnce torrentDir env st.

Definition searchee_of (file : string) : Completion (Result string string) :=
  match readFile file with
  | Returns data =>
      match Sample.decode data with
      | Returns meta => Returns (Ok meta)
      | Throws e => Returns (Err (exn_message e))
      end
  | Throws e => Returns (Err (exn_message e))
  end.

End SampleDir.

Module SampleMore.

(** Two rows of one comparable name. *)
Definition first_copy : TorrentRow :=
  mkRow "/torrents/1.torrent" "hash 1" "Show.S01E02".
Definition second_copy : TorrentRow :=
  mkRow "/torrents/2.torrent" "hash 2" "show s01e02".

(** A store with the episode asked for, its tokens in another order. *)
Definition same_episode_row : TorrentRow :=
  mkRow "/torrents/e.torrent"
        "5a8ce26e8a19a877d8ccc927fcc18e34e1f5ff67"
        "S01E02.Name.Show.1080p-GROUP".

Definition same_episode_store : Env :=
  mkEnv None 0 [same_episode_row] Sample.like Sample.episode_file
        Sample.unreachable.

(** The sample directory read in the opposite order. *)
Definition readdir_backwards (dir : string) : Completion (list string) :=
  match SampleDir.readdir dir with
  | Returns entries => Returns (rev entries)
  | Throws e => Throws e
  end.

Definition listing (readdir : string -> Completion (list string))
    (dir : string) : Completion (list string) :=
  findAllTorrentFilesInDir SampleDir.path_join SampleDir.path_resolve
    readdir dir.

Definition index_of (dir : string) (st : IndexState)
    : Completion unit * IndexState :=
  indexNewTorrents Sample.Metafile Sample.decode SampleDir.meta_infoHash
    SampleDir.meta_name SampleDir.path_join SampleDir.path_resolve
    SampleDir.readdir SampleDir.logOnce dir SampleDir.env st.

Definition searchee_result (file : string) : Result string string :=
  match SampleDir.searchee_of file with
  | Returns r => r
  | Throws e => Err (exn_message e)
  end.

Definition load_of (dir : string) : Completion (list string) :=
  loadTorrentDirLight SampleDir.path_join SampleDir.readdir string string
    SampleDir.searchee_of (fun err => Error err) dir.

Definition save (tracker : string) (tag : option string)
    (meta : Sample.Metafile) : FileWrite :=
  saveTorrentFile Sample.Metafile SampleDir.encode
    SampleDir.getFileSystemSafeName SampleDir.stripExtension
    SampleDir.path_join SampleDir.outputDir tracker tag meta.

End SampleMore.

(** * Properties *)

(** ** Strings, order and sorting *)

Module JSStringFacts.

Import JSString.

Lemma le_total (s t : string) : le s t \/ le t s.
Proof. apply String.leb_total. Qed.

Lemma le_antisym (s t : string) : le s t -> le t s -> s = t.
Proof. apply String.leb_antisym. Qed.

Lemma le_trans (s t u : string) : le s t -> le t u -> le s u.
Proof.
  unfold le, String.leb. revert t u.
  induction s as [|a s IH]; intros [|b t] [|c u]; simpl;
    try congruence; try reflexivity.
  unfold Ascii.compare.
  destruct (N.compare_spec (N_of_ascii a) (N_of_ascii b)) as [Hab|Hab|Hab];
    destruct (N.compare_spec (N_of_ascii b) (N_of_ascii c)) as [Hbc|Hbc|Hbc];
    destruct (N.compare_spec (N_of_ascii a) (N_of_ascii c)) as [Hac|Hac|Hac];
    try lia; try congruence; try reflexivity.
  apply IH.
Qed.

Lemma insert_perm (x : string) (l : list string) :
  Permutation (insert x l) (x :: l).
Proof.
  induction l as [|y l IH]; simpl.
  - apply Permutation_refl.
  - destruct (x <=? y)%string.
    + apply Permutation_refl.
    + eapply perm_trans; [apply perm_skip, IH | apply perm_swap].
Qed.

Lemma sort_perm (l : list string) : Permutation (sort l) l.
Proof.
  induction l as [|x l IH]; simpl.
  - apply perm_nil.
  - eapply perm_trans; [apply insert_perm | apply perm_skip, IH].
Qed.

Lemma insert_sorted (x : string) (l : list string) :
  StronglySorted le l -> StronglySorted le (insert x l).
Proof.
  induction 1 as [|y l Hl IH Hy]; simpl.
  - constructor; constructor.
  - destruct (x <=? y)%string eqn:Hxy.
    + constructor.
      * constructor; assumption.
      * constructor; [exact Hxy|].
        eapply Forall_impl; [|exact Hy].
        intros z Hz. eapply le_trans; eassumption.
    + constructor; [exact IH|].
      assert (Hyx : le y x).
      { destruct (le_total x y) as [H|H]; [unfold le in H; congruence|exact H]. }
      apply (Permutation_Forall (Permutation_sym (insert_perm x l))).
      constructor; assumption.
Qed.

Lemma sort_sorted (l : list string) : StronglySorted le (sort l).
Proof.
  induction l as [|x l IH]; simpl.
  - constructor.
  - apply insert_sorted, IH.
Qed.

Lemma sorted_unique (l1 l2 : list string) :
  StronglySorted le l1 -> StronglySorted le l2 -> Permutation l1 l2 ->
  l1 = l2.
Proof.
  intros H1. revert l2.
  induction H1 as [|a l1 Hl1 IH Ha]; intros l2 H2 HP.
  - apply Permutation_nil in HP. now subst.
  - destruct H2 as [|b l2 Hl2 Hb].
    + apply Permutation_sym, Permutation_nil in HP. discriminate.
    + assert (Hab : a = b).
      { assert (Ia : In a (b :: l2))
          by (eapply Permutation_in; [exact HP | now left]).
        assert (Ib : In b (a :: l1))
          by (eapply Permutation_in;
              [apply Permutation_sym; exact HP | now left]).
        destruct Ia as [Ia|Ia]; [now subst|].
        destruct Ib as [Ib|Ib]; [now subst|].
        rewrite Forall_forall in Ha, Hb.
        apply le_antisym; auto. }
      subst b. f_equal.
      apply IH; [assumption|].
      eapply Permutation_cons_inv; exact HP.
Qed.

(** Sorting depends on the elements only, not on their order. *)
Lemma sort_permutation (l1 l2 : list string) :
  Permutation l1 l2 -> sort l1 = sort l2.
Proof.
  intros HP. apply sorted_unique; try apply sort_sorted.
  eapply perm_trans; [apply sort_perm|].
  eapply perm_trans; [exact HP|].
  apply Permutation_sym, sort_perm.
Qed.

Lemma sort_Forall (P : string -> Prop) (l : list string) :
  Forall P l -> Forall P (sort l).
Proof.
  apply Permutation_Forall, Permutation_sym, sort_perm.
Qed.

Lemma plain_append (s t : string) : plain s -> plain t -> plain (s ++ t).
Proof.
  induction s as [|c s IH]; simpl; [auto|].
  intros [Hc Hs] Ht. split; auto.
Qed.

Lemma split_aux_plain (tok : string) (skipping : bool) (s : string) :
  plain tok -> Forall plain (split_aux is_separator tok skipping s).
Proof.
  revert tok skipping.
  induction s as [|c s IH]; intros tok skipping Htok; simpl.
  - constructor; [assumption | constructor].
  - destruct (is_separator c) eqn:Hc.
    + destruct skipping; [|constructor; [assumption|]]; apply IH; exact I.
    + apply IH, plain_append; [assumption | simpl; auto].
Qed.

Lemma append_assoc_char (tok : string) (c : ascii) (s : string) :
  (tok ++ String c "") ++ s = tok ++ String c s.
Proof. induction tok as [|d tok IH]; simpl; [reflexivity | now rewrite IH]. Qed.

Lemma split_aux_of_plain (tok : string) (skipping : bool) (s : string) :
  plain s -> split_aux is_separator tok skipping s = [tok ++ s].
Proof.
  revert tok skipping.
  induction s as [|c s IH]; intros tok skipping; simpl.
  - intros _. f_equal. induction tok as [|d tok IHt]; simpl; congruence.
  - intros [Hc Hs]. rewrite Hc, IH by assumption.
    now rewrite append_assoc_char.
Qed.

Lemma toLowerCase_char_idempotent (c : ascii) :
  toLowerCase_char (toLowerCase_char c) = toLowerCase_char c.
Proof. destruct c as [[] [] [] [] [] [] [] []]; reflexivity. Qed.

Lemma toLowerCase_char_separator (c : ascii) :
  is_separator (toLowerCase_char c) = is_separator c.
Proof. destruct c as [[] [] [] [] [] [] [] []]; reflexivity. Qed.

Lemma toLowerCase_idempotent (s : string) :
  toLowerCase (toLowerCase s) = toLowerCase s.
Proof.
  induction s as [|c s IH]; simpl; [reflexivity|].
  now rewrite toLowerCase_char_idempotent, IH.
Qed.

Lemma toLowerCase_plain (s : string) : plain s -> plain (toLowerCase s).
Proof.
  induction s as [|c s IH]; simpl; [auto|].
  intros [Hc Hs]. rewrite toLowerCase_char_separator. auto.
Qed.

Lemma toLowerCase_append (s t : string) :
  toLowerCase (s ++ t) = toLowerCase s ++ toLowerCase t.
Proof. induction s as [|c s IH]; simpl; [reflexivity | now rewrite IH]. Qed.

Lemma append_empty (s : string) : s ++ "" = s.
Proof. induction s as [|c s IH]; simpl; congruence. Qed.

Lemma join_cons (x : string) (l : list string) : join (x :: l) = x ++ join l.
Proof.
  unfold join. destruct l as [|y l]; simpl; [now rewrite append_empty|].
  reflexivity.
Qed.

Lemma join_plain (l : list string) : Forall plain l -> plain (join l).
Proof.
  induction 1 as [|x l Hx Hl IH]; [exact I|].
  rewrite join_cons. now apply plain_append.
Qed.

Lemma toLowerCase_join (l : list string) :
  toLowerCase (join l) = join (map toLowerCase l).
Proof.
  induction l as [|x l IH]; [reflexivity|].
  change (map toLowerCase (x :: l)) with (toLowerCase x :: map toLowerCase l).
  now rewrite !join_cons, toLowerCase_append, IH.
Qed.

End JSStringFacts.

(** ** Canonical keys *)

Section Canonical.

Import JSString JSStringFacts.

Lemma tokens_plain (tname : string) : Forall plain (tokenizeName tname).
Proof.
  unfold tokenizeName. apply sort_Forall.
  apply Forall_map.
  eapply Forall_impl; [|apply split_aux_plain; exact I].
  intros t. apply toLowerCase_plain.
Qed.

Lemma tokens_lower (tname : string) :
  map toLowerCase (tokenizeName tname) = tokenizeName tname.
Proof.
  assert (H : Forall (fun t => toLowerCase t = t) (tokenizeName tname)).
  { unfold tokenizeName. apply sort_Forall, Forall_map.
    apply Forall_forall. intros t _. apply toLowerCase_idempotent. }
  induction H as [|t l Ht Hl IH]; simpl; congruence.
Qed.

Lemma key_plain (x : string) : plain (createComparableTorrent x).
Proof. apply join_plain, tokens_plain. Qed.

Lemma key_lower (x : string) :
  toLowerCase (createComparableTorrent x) = createComparableTorrent x.
Proof.
  unfold createComparableTorrent.
  now rewrite toLowerCase_join, tokens_lower.
Qed.

(** A key is its own and only token. *)
Lemma tokens_of_key (x : string) :
  tokenizeName (createComparableTorrent x) = [createComparableTorrent x].
Proof.
  unfold tokenizeName at 1, split.
  rewrite split_aux_of_plain by apply key_plain.
  simpl. now rewrite key_lower.
Qed.

(** C5. Canonicalization is idempotent: the key of a key is that key;
    and it is order-invariant: a name whose tokens (the pieces between
    runs of dots, white space and hyphens) are those of [name] in
    another order has the key of [name]. *)
Theorem createComparableTorrent_idempotent_order_invariant (name : string) :
  createComparableTorrent (createComparableTorrent name)
  = createComparableTorrent name
  /\ forall reordered : string,
       Permutation (split is_separator reordered) (split is_separator name) ->
       createComparableTorrent reordered = createComparableTorrent name.
Proof.
  split.
  - unfold createComparableTorrent at 1.
    rewrite tokens_of_key. reflexivity.
  - intros reordered HP. unfold createComparableTorrent, tokenizeName.
    f_equal. apply sort_permutation, Permutation_map, HP.
Qed.

Lemma createComparableTorrent_idempotent_order_invariant_witness :
  createComparableTorrent "S01E02 - Name.Show"
  = createComparableTorrent "Show.Name.S01E02".
Proof.
  apply (proj2 (createComparableTorrent_idempotent_order_invariant
                  "Show.Name.S01E02") "S01E02 - Name.Show").
  apply (Permutation_rev ["S01E02"; "Name"; "Show"]).
Defined.

Example key_of_spaced_name :
  createComparableTorrent "Show Name - S01E02 - GROUP" = "groupnames01e02show".
Proof. reflexivity. Qed.

Example tokens_at_the_edges :
  split is_separator ".a.." = [""; "a"; ""]
  /\ split is_separator "" = [""]
  /\ split is_separator "---" = [""; ""].
Proof. repeat split. Qed.

End Canonical.

(** ** Extensions *)

Section ExtensionFacts.

Variables VIDEO_EXTENSIONS DATA_EXTENSIONS : list string.

(** Whatever the callback returns stays inside [forEach]: the name
    comes back as it went in. *)
Lemma removeExtensionsFromName_unchanged (name : string) :
  removeExtensionsFromName VIDEO_EXTENSIONS DATA_EXTENSIONS name = name.
Proof. reflexivity. Qed.

End ExtensionFacts.

Example callback_would_strip :
  removeExtensions_callback "Show.Name.S01E02.GROUP.mkv" ".mkv"
  = Some "Show.Name.S01E02.GROUP".
Proof. reflexivity. Qed.

(** C4, on the code: the stored name [Show.Name.S01E02.GROUP.mkv] ends
    in the known extension [.mkv]; [removeExtensionsFromName] returns
    it with the extension, and its candidate key is not the key of
    [Show.Name.S01E02.GROUP]. *)
Theorem removeExtensionsFromName_keeps_mkv :
  In ".mkv" Sample.VIDEO_EXTENSIONS
  /\ removeExtensionsFromName Sample.VIDEO_EXTENSIONS Sample.DATA_EXTENSIONS
       "Show.Name.S01E02.GROUP.mkv"
     = "Show.Name.S01E02.GROUP.mkv"
  /\ createComparableTorrent
       (removeExtensionsFromName Sample.VIDEO_EXTENSIONS
          Sample.DATA_EXTENSIONS "Show.Name.S01E02.GROUP.mkv")
     = "groupmkvnames01e02show"
  /\ createComparableTorrent "Show.Name.S01E02.GROUP" = "groupnames01e02show".
Proof. repeat split. now left. Qed.

(** ** The fuzzy name resolver *)

Section FuzzyFacts.

Variable Metafile : Type.
Variable decode : string -> Completion Metafile.
Variables EP_REGEX SEASON_REGEX MOVIE_REGEX GROUP_REGEX : Regex.
Variables VIDEO_EXTENSIONS DATA_EXTENSIONS : list string.
Variable env : Env.

Local Abbreviation resolve :=
  (getTorrentByFuzzyName Metafile decode EP_REGEX SEASON_REGEX MOVIE_REGEX
     GROUP_REGEX VIDEO_EXTENSIONS DATA_EXTENSIONS env).
Local Abbreviation searchTerm :=
  (searchTermOf EP_REGEX SEASON_REGEX MOVIE_REGEX GROUP_REGEX).
Local Abbreviation searchMap :=
  (searchMapOf VIDEO_EXTENSIONS DATA_EXTENSIONS).

(** The episode and season branches read matches whose existence was
    just tested; only the movie branch reads one that was not. *)
Lemma searchTermOf_throws_iff (name : string) :
  returned (searchTerm name) = false
  <-> EP_REGEX name = None /\ SEASON_REGEX name = None
      /\ MOVIE_REGEX name = None.
Proof.
  unfold searchTermOf, test, match_0.
  destruct (EP_REGEX name), (SEASON_REGEX name), (MOVIE_REGEX name),
    (GROUP_REGEX name); simpl; split;
    try discriminate; try reflexivity; try (intros (? & ? & ?); discriminate);
    try (intros _; repeat split).
Qed.

(** C10. A name that matches none of the episode, season and movie
    patterns makes [getTorrentByFuzzyName] throw the [TypeError] of
    reading element 0 of a [null] match; no store is queried, nothing
    is logged, nothing is returned. *)
Theorem getTorrentByFuzzyName_without_pattern_throws
    (name : string) (w : World) :
  EP_REGEX name = None -> SEASON_REGEX name = None ->
  MOVIE_REGEX name = None ->
  resolve name w
  = (Throws (TypeError "Cannot read properties of null (reading '0')"), w).
Proof.
  intros Hep Hseason Hmovie.
  unfold getTorrentByFuzzyName, bind, lift, searchTermOf, test, match_0.
  rewrite Hep, Hseason, Hmovie.
  destruct (GROUP_REGEX name); reflexivity.
Qed.

(** With a search term and no row like it, the nearest key is
    [undefined] and [distance] throws on it. *)
Lemma getTorrentByFuzzyName_without_candidate_throws
    (name term : string) (w : World) :
  searchTerm name = Returns term ->
  candidates env term = [] ->
  resolve name w
  = (Throws (TypeError
               "Cannot read properties of undefined (reading 'length')"), w).
Proof.
  intros Hterm Hnone.
  unfold getTorrentByFuzzyName, bind, lift.
  rewrite Hterm, Hnone. reflexivity.
Qed.

End FuzzyFacts.

Lemma getTorrentByFuzzyName_without_pattern_throws_witness :
  Sample.fuzzy Sample.empty_store "readme.txt" Sample.world0
  = (Throws (TypeError "Cannot read properties of null (reading '0')"),
     Sample.world0).
Proof.
  apply getTorrentByFuzzyName_without_pattern_throws; reflexivity.
Defined.

(** C3, on the code: the store holds one unrelated movie, so no row is
    like the search term of [Show.Name.S01E02.GROUP.mkv] and the
    candidate set is empty; [getTorrentByFuzzyName] does not return
    [null], it throws the [TypeError] of reading the length of an
    [undefined] nearest key. *)
Theorem getTorrentByFuzzyName_empty_candidates_throws :
  candidates Sample.unrelated_store "S01E02" = []
  /\ Sample.fuzzy Sample.unrelated_store "Show.Name.S01E02.GROUP.mkv"
       Sample.world0
     = (Throws (TypeError
                  "Cannot read properties of undefined (reading 'length')"),
        Sample.world0).
Proof.
  split; [reflexivity|].
  apply getTorrentByFuzzyName_without_candidate_throws with (term := "S01E02");
    reflexivity.
Qed.

(** C6, on the code: the empty name and the name made of a hyphen
    between two spaces have the empty target key, of length 0;
    [getTorrentByFuzzyName] does not return [null] on them, it throws
    the [TypeError] of the search term cascade. *)
Theorem getTorrentByFuzzyName_empty_key_throws :
  String.length (createComparableTorrent "") = 0
  /\ String.length (createComparableTorrent " - ") = 0
  /\ Sample.fuzzy Sample.unrelated_store "" Sample.world0
     = (Throws (TypeError "Cannot read properties of null (reading '0')"),
        Sample.world0)
  /\ Sample.fuzzy Sample.unrelated_store " - " Sample.world0
     = (Throws (TypeError "Cannot read properties of null (reading '0')"),
        Sample.world0).
Proof. repeat split. Qed.

(** ** Objects and nearest keys *)

Module JSObjectFacts.

Import JSObject.

Lemma get_of_own_key {V : Type} (o : t V) (k : string) :
  In k (map fst o) -> exists v, get o k = Some v.
Proof.
  induction o as [|[k' v'] o IH]; simpl; [contradiction|].
  intros [Hk|Hk].
  - subst k'. rewrite String.eqb_refl. eauto.
  - destruct (k' =? k); eauto.
Qed.

Lemma insert_index_In (x y : N * string) (l : list (N * string)) :
  In y (insert_index x l) -> y = x \/ In y l.
Proof.
  induction l as [|z l IH]; simpl.
  - intros [H|[]]; auto.
  - destruct (fst x <=? fst z)%N; simpl.
    + intros [H|H]; auto.
    + intros [H|H]; auto. destruct (IH H); auto.
Qed.

Lemma index_keys_own {V : Type} (o : t V) (n : N) (k : string) :
  In (n, k) (index_keys o) -> In k (map fst o).
Proof.
  induction o as [|[k' v'] o IH]; simpl; [contradiction|].
  destruct (array_index k') as [m|]; [|auto].
  intros H. apply insert_index_In in H. destruct H as [H|H]; [|auto].
  inversion H. now left.
Qed.

(** Every key that [Object.keys] lists is an own property. *)
Lemma keys_own {V : Type} (o : t V) (k : string) :
  In k (keys o) -> In k (map fst o).
Proof.
  unfold keys, name_keys. intros H. apply in_app_or in H.
  destruct H as [H|H].
  - apply in_map_iff in H. destruct H as [[n k'] [Hk H]].
    simpl in Hk. subst k'. eapply index_keys_own; eassumption.
  - apply in_map_iff in H. destruct H as [kv [Hk H]].
    apply filter_In in H. apply in_map_iff. exists kv. tauto.
Qed.

Lemma get_In {V : Type} (o : t V) (k : string) (v : V) :
  get o k = Some v -> In v (map snd o).
Proof.
  induction o as [|[k' v'] o IH]; simpl; [discriminate|].
  destruct (k' =? k); [intros [= ->]; now left | auto].
Qed.

Lemma replace_values {V : Type} (o : t V) (k : string) (v x : V) :
  In x (map snd (replace o k v)) -> x = v \/ In x (map snd o).
Proof.
  induction o as [|[k' v'] o IH]; simpl; [auto|].
  destruct (k' =? k); simpl; intros [H|H]; auto.
  destruct (IH H); auto.
Qed.

Lemma set_values {V : Type} (o : t V) (k : string) (v x : V) :
  In x (map snd (set o k v)) -> x = v \/ In x (map snd o).
Proof.
  unfold set. destruct (k =? "__proto__"); [auto|].
  destruct (has o k).
  - apply replace_values.
  - rewrite map_app, in_app_iff. simpl. intros [H|[H|[]]]; auto.
Qed.

End JSObjectFacts.

Module LevenshteinFacts.

Import Levenshtein.

Lemma closest_loop_In (str : string) (arr : list string)
    (best : option (string * nat)) (k : string) :
  closest_loop str arr best = Some k ->
  In k arr \/ exists d, best = Some (k, d).
Proof.
  revert best.
  induction arr as [|x arr IH]; intros best; simpl.
  - destruct best as [[k' d]|]; simpl; [|discriminate].
    intros [= ->]. eauto.
  - destruct best as [[k' d]|].
    + destruct (levenshtein str x <? d)%nat; intros H;
        destruct (IH _ H) as [Hin|[d' Hd']]; auto.
      * inversion Hd'. auto.
      * eauto.
    + intros H. destruct (IH _ H) as [Hin|[d' Hd']]; auto.
      inversion Hd'. auto.
Qed.

(** The nearest key is one of the keys. *)
Lemma closest_In (str : string) (arr : list string) (k : string) :
  closest str arr = Some k -> In k arr.
Proof.
  intros H. destruct (closest_loop_In _ _ _ _ H) as [Hin|[d Hd]];
    [assumption | discriminate].
Qed.

Lemma closest_loop_nearest (str : string) (arr : list string)
    (best : option (string * nat)) (k : string) :
  match best with
  | Some (b, d) => d = levenshtein str b
  | None => True
  end ->
  closest_loop str arr best = Some k ->
  (forall x, In x arr -> levenshtein str k <= levenshtein str x)
  /\ match best with
     | Some (_, d) => levenshtein str k <= d
     | None => True
     end.
Proof.
  revert best.
  induction arr as [|x arr IH]; intros best Hbest; simpl.
  - destruct best as [[b d]|]; simpl; [|discriminate].
    intros [= ->]. split; [contradiction | lia].
  - destruct best as [[b d]|].
    + destruct (Nat.ltb_spec (levenshtein str x) d) as [Hlt|Hge]; intros H.
      * destruct (IH (Some (x, levenshtein str x)) eq_refl H) as [Harr Hx].
        split; [|lia]. intros y [<-|Hy]; auto.
      * destruct (IH (Some (b, d)) Hbest H) as [Harr Hd].
        split; [|exact Hd]. intros y [<-|Hy]; [lia | auto].
    + intros H.
      destruct (IH (Some (x, levenshtein str x)) eq_refl H) as [Harr Hx].
      split; [|exact I]. intros y [<-|Hy]; auto.
Qed.

(** No key is nearer than the nearest key. *)
Lemma closest_nearest (str : string) (arr : list string) (k : string) :
  closest str arr = Some k ->
  forall x, In x arr -> levenshtein str k <= levenshtein str x.
Proof.
  intros H. exact (proj1 (closest_loop_nearest str arr None k I H)).
Qed.

Lemma closest_undefined (str : string) : closest str [] = None.
Proof. reflexivity. Qed.

Example levenshtein_samples :
  levenshtein "kitten" "sitting" = 3
  /\ levenshtein "flaw" "lawn" = 2
  /\ levenshtein "" "abc" = 3
  /\ levenshtein "abc" "" = 3
  /\ levenshtein "same" "same" = 0.
Proof. repeat split. Qed.

Example closest_keeps_the_first_of_equals :
  closest "abc" ["abd"; "abe"; "xyz"] = Some "abd".
Proof. reflexivity. Qed.

End LevenshteinFacts.

(** ** Acceptance *)

Section Acceptance.

Variable Metafile : Type.
Variable decode : string -> Completion Metafile.
Variables EP_REGEX SEASON_REGEX MOVIE_REGEX GROUP_REGEX : Regex.
Variables VIDEO_EXTENSIONS DATA_EXTENSIONS : list string.
Variable env : Env.

Local Abbreviation resolve :=
  (getTorrentByFuzzyName Metafile decode EP_REGEX SEASON_REGEX MOVIE_REGEX
     GROUP_REGEX VIDEO_EXTENSIONS DATA_EXTENSIONS env).
Local Abbreviation searchTerm :=
  (searchTermOf EP_REGEX SEASON_REGEX MOVIE_REGEX GROUP_REGEX).
Local Abbreviation searchMap :=
  (searchMapOf VIDEO_EXTENSIONS DATA_EXTENSIONS).

Lemma parseTorrentFromFilename_result (filename : string) (w : World) :
  parseTorrentFromFilename Metafile decode env filename w
  = (decoded_file Metafile decode env filename, w).
Proof.
  unfold parseTorrentFromFilename, decoded_file, bind, lift, cbind.
  destruct (readFile env filename); reflexivity.
Qed.

Lemma accepted_is_not_NoMatch (row : TorrentRow) :
  accepted Metafile decode env row <> NoMatch Metafile.
Proof.
  unfold accepted, NoMatch, cbind.
  destruct (decoded_file Metafile decode env (row_file_path row)); discriminate.
Qed.

(** Every value of the search map is one of the rows it was built from. *)
Lemma searchMap_values (rows : list TorrentRow) (x : TorrentRow) :
  In x (map snd (searchMap rows)) -> In x rows.
Proof.
  unfold searchMapOf.
  assert (H : forall o, In x (map snd (fold_left
              (fun (m : JSObject.t TorrentRow) (r : TorrentRow) =>
                 JSObject.set m
                   (createComparableTorrent
                      (removeExtensionsFromName VIDEO_EXTENSIONS
                         DATA_EXTENSIONS (row_name r))) r) rows o)) ->
            In x rows \/ In x (map snd o)).
  { induction rows as [|r rows IH]; intros o; simpl; [auto|].
    intros Hx. destruct (IH _ Hx) as [Hin|Hin]; [auto|].
    apply JSObjectFacts.set_values in Hin. destruct Hin; auto. }
  intros Hx. destruct (H _ Hx) as [Hin|[]]. exact Hin.
Qed.

Lemma advisory_window_is_wider (d : nat) (m : Q) :
  Qle_bool (inject_Z (Z.of_nat d)) m = true ->
  Qle_bool (inject_Z (Z.of_nat d) - 2) m = true.
Proof.
  rewrite !Qle_bool_iff. intros H.
  apply Qle_trans with (y := inject_Z (Z.of_nat d)); [|exact H].
  rewrite <- (Qplus_0_r (inject_Z (Z.of_nat d))) at 2.
  apply Qplus_le_r. discriminate.
Qed.

(** C2. Whatever the length [L] of the target key, the threshold [T]
    and the distance [d] of the nearest candidate key: the ceiling of
    the resolver is [max(T, min(0.1 * L, 8))], and the resolver accepts
    that nearest candidate (answers with its decoded stored file) when
    [d <= ceiling] and answers [null] otherwise.  In particular it
    accepts at [d = ceiling] and rejects at [d = ceiling + 1], inside
    the advisory window of [ceiling + 2]. *)
Theorem getTorrentByFuzzyName_acceptance
    (name term key : string) (w : World) :
  searchTerm name = Returns term ->
  Levenshtein.closest (createComparableTorrent name)
    (JSObject.keys (searchMap (candidates env term))) = Some key ->
  let L := String.length (createComparableTorrent name) in
  let T := levenshtein_threshold env in
  let d := inject_Z (Z.of_nat
             (Levenshtein.levenshtein (createComparableTorrent name) key)) in
  distanceMaxOf env L = ceiling T L
  /\ (forall k, In k (JSObject.keys (searchMap (candidates env term))) ->
      Levenshtein.levenshtein (createComparableTorrent name) key
      <= Levenshtein.levenshtein (createComparableTorrent name) k)
  /\ exists row : TorrentRow,
       In row (candidates env term)
       /\ JSObject.get (searchMap (candidates env term)) key = Some row
       /\ fst (resolve name w)
          = (if Qle_bool d (ceiling T L)
             then accepted Metafile decode env row
             else NoMatch Metafile)
       /\ accepted Metafile decode env row <> NoMatch Metafile
       /\ ((d == ceiling T L)%Q ->
           fst (resolve name w) = accepted Metafile decode env row)
       /\ ((d == ceiling T L + 1)%Q ->
           fst (resolve name w) = NoMatch Metafile).
Proof.
  intros Hterm Hclosest L T d.
  split; [reflexivity|].
  split; [exact (LevenshteinFacts.closest_nearest _ _ _ Hclosest)|].
  destruct (JSObjectFacts.get_of_own_key _ key
              (JSObjectFacts.keys_own _ _
                 (LevenshteinFacts.closest_In _ _ _ Hclosest))) as [row Hrow].
  exists row.
  assert (Hresult : fst (resolve name w)
                    = (if Qle_bool d (ceiling T L)
                       then accepted Metafile decode env row
                       else NoMatch Metafile)).
  { unfold getTorrentByFuzzyName, bind, lift.
    rewrite Hterm. cbv zeta. rewrite Hclosest.
    unfold Levenshtein.distance, member, property_key.
    rewrite Hrow.
    fold L. fold d. change (distanceMaxOf env L) with (ceiling T L).
    destruct (Qle_bool d (ceiling T L)) eqn:Hle.
    - pose proof (advisory_window_is_wider _ _ Hle) as Hwindow.
      fold d in Hwindow. rewrite Hwindow.
      unfold log. rewrite parseTorrentFromFilename_result.
      unfold accepted, cbind.
      destruct (decoded_file Metafile decode env (row_file_path row));
        reflexivity.
    - destruct (Qle_bool (d - 2)%Q (ceiling T L)); reflexivity. }
  repeat split.
  - apply searchMap_values. eapply JSObjectFacts.get_In. exact Hrow.
  - exact Hrow.
  - exact Hresult.
  - apply accepted_is_not_NoMatch.
  - intros Heq. rewrite Hresult.
    replace (Qle_bool d (ceiling T L)) with true; [reflexivity|].
    symmetry. apply Qle_bool_iff. rewrite Heq. apply Qle_refl.
  - intros Heq. rewrite Hresult.
    destruct (Qle_bool d (ceiling T L)) eqn:Hle; [|reflexivity].
    apply Qle_bool_iff in Hle. rewrite Heq in Hle. lra.
Qed.

End Acceptance.

Lemma getTorrentByFuzzyName_acceptance_witness :
  exists row : TorrentRow,
    In row (candidates (Sample.episode_store 3) "S01E02%-GROUP")
    /\ fst (Sample.fuzzy (Sample.episode_store 3)
              "Show.Name.S01E02.1080p-GROUP" Sample.world0)
       = accepted Sample.Metafile Sample.decode (Sample.episode_store 3) row.
Proof.
  destruct (getTorrentByFuzzyName_acceptance
              Sample.Metafile Sample.decode Sample.EP_REGEX
              Sample.SEASON_REGEX Sample.MOVIE_REGEX Sample.GROUP_REGEX
              Sample.VIDEO_EXTENSIONS Sample.DATA_EXTENSIONS
              (Sample.episode_store 3)
              "Show.Name.S01E02.1080p-GROUP" "S01E02%-GROUP"
              "720pgroupnames01e02show" Sample.world0 eq_refl eq_refl)
    as [_ [_ [row (Hin & _ & _ & _ & Hat & _)]]].
  exists row. split; [exact Hin|].
  apply Hat. reflexivity.
Defined.

Example accepted_at_the_ceiling :
  Levenshtein.levenshtein "1080pgroupnames01e02show" "720pgroupnames01e02show"
  = 3
  /\ (ceiling 3 24 == 3)%Q
  /\ fst (Sample.fuzzy (Sample.episode_store 3)
            "Show.Name.S01E02.1080p-GROUP" Sample.world0)
     = Returns (Some "d4:infod4:name4:Showee").
Proof. repeat split. Qed.

Example rejected_above_the_ceiling :
  (ceiling 2 24 == 24 # 10)%Q
  /\ fst (Sample.fuzzy (Sample.episode_store 2)
            "Show.Name.S01E02.1080p-GROUP" Sample.world0)
     = Returns None.
Proof. repeat split. Qed.

(** ** The criteria locator *)

Section CriteriaFacts.

Variable Metafile : Type.
Variable decode : string -> Completion Metafile.
Variable inspect : TorrentLocator -> string.
Variable env : Env.

(** The query that the callback builds keeps the rows that satisfy the
    non-empty hash and name of the locator. *)
Lemma run_query_criteria (criteria : TorrentLocator) (table : list TorrentRow) :
  run_query (criteria_where criteria []) table
  = filter (satisfies_hash_and_name criteria) table.
Proof.
  unfold run_query. apply filter_ext. intros r.
  unfold criteria_where, satisfies_hash_and_name, truthy, where_eq.
  destruct (infoHash criteria) as [h|], (name criteria) as [n|];
    try destruct (h =? ""); try destruct (n =? ""); simpl;
    rewrite ?andb_true_r; reflexivity.
Qed.

(** C7, amended. [getTorrentByCriteria] looks up by the conjunction of
    the non-empty [infoHash] and [name] of the locator, its [path]
    playing no part; it throws its not-found error exactly when no row
    of the store satisfies that conjunction, and otherwise answers
    with the decoding of the stored file of the first such row. *)
Theorem getTorrentByCriteria_hash_and_name
    (criteria : TorrentLocator) (w : World) :
  getTorrentByCriteria Metafile decode inspect env criteria w
  = match filter (satisfies_hash_and_name criteria) (torrent_table env) with
    | [] => (Throws (Error ("could not find a torrent with the criteria "
                            ++ inspect criteria)), w)
    | row :: _ => (decoded_file Metafile decode env (row_file_path row), w)
    end.
Proof.
  unfold getTorrentByCriteria. rewrite run_query_criteria.
  destruct (filter (satisfies_hash_and_name criteria) (torrent_table env))
    as [|row rows]; simpl; [reflexivity|].
  apply parseTorrentFromFilename_result.
Qed.

End CriteriaFacts.

(** C7, as stated, fails: no row of the store satisfies the conjunction
    of all populated fields of the locator, which names another path,
    and [getTorrentByCriteria] does not fail; it returns the metafile
    of the first row of the store. *)
Lemma getTorrentByCriteria_ignores_path :
  filter (satisfies_all_fields Sample.by_other_path)
         (torrent_table Sample.one_torrent_store) = []
  /\ Sample.locate Sample.one_torrent_store Sample.by_other_path Sample.world0
     = (Returns "d4:infod4:name4:Showee", Sample.world0).
Proof. split; reflexivity. Qed.

Example getTorrentByCriteria_not_found :
  fst (Sample.locate Sample.one_torrent_store
         (mkLocator None (Some "Other.Name") None) Sample.world0)
  = Throws (Error "could not find a torrent with the criteria { infoHash: null, name: Other.Name, path: null }").
Proof. reflexivity. Qed.

(** ** The remote fetch classifier *)

Section FetchFacts.

Variable Metafile : Type.
Variable decode : string -> Completion Metafile.
Variable USER_AGENT : string.
Variable env : Env.

Local Abbreviation snatch := (parseTorrentFromURL Metafile decode USER_AGENT env).
Local Abbreviation classify := (classifyResponse Metafile decode).
Local Abbreviation exchange url := (network env (request_for USER_AGENT url)).

Lemma three_digit_redirects :
  forallb (fun n => Bool.eqb
                      (JSString.startsWith (JSString.toString (N.of_nat n)) "3")
                      (is_redirect (N.of_nat n)))
          (seq 100 900) = true.
Proof. vm_compute. reflexivity. Qed.

(** On status codes of three digits, a decimal form that begins with 3
    is a status between 300 and 399. *)
Lemma starts_with_3_is_redirect (s : N) :
  (100 <= s <= 999)%N ->
  JSString.startsWith (JSString.toString s) "3" = is_redirect s.
Proof.
  intros Hs.
  pose proof three_digit_redirects as H.
  rewrite forallb_forall in H.
  specialize (H (N.to_nat s)).
  rewrite N2Nat.id in H.
  apply Bool.eqb_prop, H, in_seq. lia.
Qed.

Lemma ok_is_success (r : Response) : ok r = is_success (status r).
Proof.
  unfold ok, is_success. f_equal.
  destruct (N.ltb_spec (status r) 300), (N.leb_spec (status r) 299);
    try reflexivity; lia.
Qed.

Lemma fired_timer_is_gone (id : nat) (l : list Timer) :
  find (fun t => (timer_id t =? id)%nat)
       (filter (fun t => negb (timer_id t =? id)%nat) l) = None.
Proof.
  induction l as [|t l IH]; simpl; [reflexivity|].
  destruct (timer_id t =? id)%nat eqn:E; simpl; [exact IH|].
  now rewrite E.
Qed.

Lemma unref_timer_same (id : nat) (d : Z) (b : bool) :
  unref_timer id (mkTimer id d b) = mkTimer id d false.
Proof. unfold unref_timer. simpl. now rewrite Nat.eqb_refl. Qed.

(** Arming the timer, if a timeout is configured. *)
Lemma arming (w : World) :
  match snatchTimeout env with
  | Some ms => (timer <- setTimeout ms ;; unref timer ;; ret (Some timer))%js
  | None => ret None
  end w
  = (Returns (armed_signal env w), after_arming env w).
Proof.
  unfold armed_signal, after_arming, bind, ret, setTimeout, unref.
  destruct (snatchTimeout env) as [ms|]; [|reflexivity].
  cbn [timers next_timer logs map]. now rewrite unref_timer_same.
Qed.

(** Once the timer is armed, it is due within [t] when the configured
    delay is at most [t]; what is logged meanwhile changes nothing. *)
Lemma due_after_arming (w : World) (t : Z) :
  due (armed_signal env w) t (after_arming env w) = due_by env t.
Proof.
  unfold due, armed_signal, after_arming, due_by, pending.
  destruct (snatchTimeout env) as [ms|]; [|reflexivity].
  cbn. now rewrite Nat.eqb_refl.
Qed.

Lemma due_logged (signal : option nat) (t : Z) (w : World)
    (entries : list (Level * LogPayload)) :
  due signal t (logged w entries) = due signal t w.
Proof. reflexivity. Qed.

Lemma logged_logged (w : World) (l1 l2 : list (Level * LogPayload)) :
  logged (logged w l1) l2 = logged w (l1 ++ l2)%list.
Proof. unfold logged. cbn. now rewrite <- app_assoc. Qed.

Lemma pending_logged (w : World) (entries : list (Level * LogPayload))
    (id : nat) :
  pending (logged w entries) id = pending w id.
Proof. reflexivity. Qed.

Lemma pending_after_arming (ms : Z) (w : World) :
  snatchTimeout env = Some ms ->
  pending (after_arming env w) (next_timer w)
  = Some (mkTimer (next_timer w) (clamp_delay ms) false).
Proof.
  intros Hms. unfold after_arming, pending. rewrite Hms. cbn.
  now rewrite Nat.eqb_refl.
Qed.

Lemma fired_signal_is_gone (ms : Z) (w w' : World) :
  snatchTimeout env = Some ms ->
  disarmed (abort (armed_signal env w) w') (next_timer w).
Proof.
  intros Hms. unfold armed_signal, abort, disarmed, pending, fire.
  rewrite Hms. cbn. apply fired_timer_is_gone.
Qed.

Lemma after_arming_logs (w : World) : logs (after_arming env w) = logs w.
Proof. unfold after_arming. destruct (snatchTimeout env); reflexivity. Qed.

Lemma abort_logs (signal : option nat) (w : World) :
  logs (abort signal w) = logs w.
Proof. destruct signal; reflexivity. Qed.

Lemma settled_in_time (url : string) :
  settles_before_timeout USER_AGENT env url ->
  due_by env (latency (exchange url)) = false.
Proof.
  unfold settles_before_timeout, due_by.
  destruct (snatchTimeout env) as [ms|]; [|reflexivity].
  intros H. apply Z.leb_gt, H.
Qed.

Lemma timed_out_or_settled (url : string) :
  settles_before_timeout USER_AGENT env url
  \/ exists ms, snatchTimeout env = Some ms
       /\ (clamp_delay ms <= latency (exchange url))%Z.
Proof.
  unfold settles_before_timeout.
  destruct (snatchTimeout env) as [ms|]; [|now left].
  destruct (Z.le_gt_cases (clamp_delay ms) (latency (exchange url)));
    [right; eauto | left; lia].
Qed.

(** [fetch] in the world where the timer is armed. *)
Lemma fetch_after_arming (url : string) (w : World) :
  fetch env (request_for USER_AGENT url) (armed_signal env w)
    (after_arming env w)
  = if due_by env (latency (exchange url))
    then (Throws AbortError, abort (armed_signal env w) (after_arming env w))
    else (match settlement (exchange url) with
          | TransportError e => Throws e
          | Responded r => Returns r
          end, after_arming env w).
Proof.
  unfold fetch, due_by, armed_signal, after_arming, abort, pending.
  destruct (snatchTimeout env) as [ms|].
  - cbn. rewrite Nat.eqb_refl. cbn.
    destruct (clamp_delay ms <=? latency (exchange url))%Z;
      [reflexivity|].
    destruct (settlement (exchange url)); reflexivity.
  - destruct (settlement (exchange url)); reflexivity.
Qed.

(** The whole of [parseTorrentFromURL] down to the classification of
    the response. *)
Lemma parseTorrentFromURL_run (url : string) (w : World) :
  snatch url w
  = if due_by env (latency (exchange url))
    then (Settles (Returns (Err ABORTED)),
          logged (abort (armed_signal env w) (after_arming env w))
            [(error, Text ("snatching " ++ url ++ " timed out"))])
    else match settlement (exchange url) with
         | TransportError e =>
             if exn_name e =? "AbortError"
             then (Settles (Returns (Err ABORTED)),
                   logged (after_arming env w)
                     [(error, Text ("snatching " ++ url ++ " timed out"))])
             else (Settles (Returns (Err UNKNOWN_ERROR)),
                   logged (after_arming env w)
                     [(error, Text ("failed to access " ++ url));
                      (debug, Thrown e)])
         | Responded r => classify url (armed_signal env w) r (after_arming env w)
         end.
Proof.
  unfold parseTorrentFromURL, abind, settled. rewrite arming.
  fold (request_for USER_AGENT url). unfold attempt.
  rewrite fetch_after_arming.
  destruct (due_by env (latency (exchange url))); [reflexivity|].
  destruct (settlement (exchange url)) as [e|r]; [|reflexivity].
  destruct (exn_name e =? "AbortError"); [reflexivity|].
  unfold bind, log, ret, logged. cbn. now rewrite <- app_assoc.
Qed.

(** [parseTorrentFromURL] when the request settles with a response
    before the timeout. *)
Lemma parseTorrentFromURL_settled (url : string) (r : Response) (w : World) :
  settles_with USER_AGENT env url r ->
  snatch url w = classify url (armed_signal env w) r (after_arming env w).
Proof.
  intros [Hr Hlate].
  now rewrite parseTorrentFromURL_run, (settled_in_time url Hlate), Hr.
Qed.

(** The whole of the classification: what it gives and the world it
    leaves, by the response and by whether the timer of the signal is
    due before the body has ended. *)
Lemma classifyResponse_run
    (url : string) (signal : option nat) (r : Response) (w : World) :
  classify url signal r w
  = if JSString.startsWith (JSString.toString (status r)) "3"
       && match headers_get (headers r) "location" with
          | Some location => JSString.startsWith location "magnet:"
          | None => false
          end
    then (Settles (Returns (Err MAGNET_LINK)),
          logged w [(error, Text ("Unsupported: magnet link detected at "
                                  ++ url))])
    else if (status r =? 429)%N then (Settles (Returns (Err RATE_LIMITED)), w)
    else if negb (ok r) then
      if due signal (body_latency r) w
      then (Settles (Throws AbortError),
            abort signal
              (logged w [(error, Text ("error downloading torrent at " ++ url
                                       ++ ": " ++ JSString.toString (status r)
                                       ++ " " ++ statusText r))]))
      else match body r with
           | Returns text =>
               (Settles (Returns (Err UNKNOWN_ERROR)),
                logged w [(error, Text ("error downloading torrent at " ++ url
                                        ++ ": " ++ JSString.toString (status r)
                                        ++ " " ++ statusText r));
                          (debug, Format "response: %s" text)])
           | Throws e =>
               (Settles (Throws e),
                logged w [(error, Text ("error downloading torrent at " ++ url
                                        ++ ": " ++ JSString.toString (status r)
                                        ++ " " ++ statusText r))])
           end
    else if content_type_is_rss r then
      if due signal (body_latency r) w
      then (NeverSettles, abort signal w)
      else match body r with
           | Returns text =>
               if clone_drains r
               then if JSString.includes text "429"
                    then (Settles (Returns (Err RATE_LIMITED)), w)
                    else (Settles (Returns (Err INVALID_CONTENTS)),
                          logged w
                            [(error, Text ("invalid torrent contents at "
                                           ++ url));
                             (debug, Text ("contents: " ++ dquote
                                           ++ substring 0 100 text
                                           ++ (if (100 <? String.length text)%nat
                                               then "..." else "")
                                           ++ dquote))])
               else (NeverSettles, w)
           | Throws _ => (NeverSettles, w)
           end
    else
      if due signal (body_latency r) w
      then (Settles (Returns (Err INVALID_CONTENTS)),
            logged (abort signal w)
              [(error, Text ("invalid torrent contents at " ++ url));
               (debug, Text ("Content-Type: "
                             ++ show_nullable
                                  (headers_get (headers r) "Content-Type")));
               (debug, Text ("Content-Length: "
                             ++ show_nullable
                                  (headers_get (headers r) "Content-Length")))])
      else match cbind (body r) decode with
           | Returns meta => (Settles (Returns (Ok meta)), w)
           | Throws _ =>
               (Settles (Returns (Err INVALID_CONTENTS)),
                logged w
                  [(error, Text ("invalid torrent contents at " ++ url));
                   (debug, Text ("Content-Type: "
                                 ++ show_nullable
                                      (headers_get (headers r) "Content-Type")));
                   (debug, Text ("Content-Length: "
                                 ++ show_nullable
                                      (headers_get (headers r)
                                         "Content-Length")))])
           end.
Proof.
  unfold classifyResponse, content_type_is_rss.
  destruct (JSString.startsWith (JSString.toString (status r)) "3"
            && match headers_get (headers r) "location" with
               | Some location => JSString.startsWith location "magnet:"
               | None => false
               end); [reflexivity|].
  destruct (status r =? 429)%N; [reflexivity|].
  destruct (negb (ok r)).
  { unfold settled, bind, log, read_body, ret. cbn [logs timers next_timer].
    change (due signal (body_latency r)
              (mkWorld (next_timer w) (timers w)
                 (logs w ++ [(error,
                              Text ("error downloading torrent at " ++ url
                                    ++ ": " ++ JSString.toString (status r)
                                    ++ " " ++ statusText r))])%list))
      with (due signal (body_latency r) w).
    destruct (due signal (body_latency r) w); [reflexivity|].
    destruct (body r); [|reflexivity].
    unfold logged. cbn. now rewrite <- app_assoc. }
  destruct (match headers_get (headers r) "Content-Type" with
            | Some contentType => contentType =? "application/rss+xml"
            | None => false
            end).
  { unfold abind, read_clone.
    destruct (due signal (body_latency r) w); [reflexivity|].
    destruct (body r) as [text|e]; [|reflexivity].
    destruct (clone_drains r); [|reflexivity].
    unfold settled.
    destruct (JSString.includes text "429"); [reflexivity|].
    unfold bind, log, ret, logged. cbn. now rewrite <- app_assoc. }
  unfold settled, bind, attempt, read_body, lift, cbind.
  destruct (due signal (body_latency r) w).
  { unfold log, ret, logged. cbn. now rewrite <- !app_assoc. }
  destruct (body r) as [bytes|e].
  - destruct (decode bytes); [reflexivity|].
    unfold log, ret, logged. cbn. now rewrite <- !app_assoc.
  - unfold log, ret, logged. cbn. now rewrite <- !app_assoc.
Qed.

Lemma headers_get_location (h : Headers) :
  headers_get h "location" = headers_get h "Location".
Proof. reflexivity. Qed.

(** C1, amended. When the request settles with a response of a
    three-digit status whose body, where the classification reads it,
    arrives in full and without error before a configured timeout
    (and, where the clone of a feed is read, gets through the tee of
    [clone()]), [parseTorrentFromURL] returns the classification of the
    protocol, first match winning: redirect to a magnet link,
    [MAGNET_LINK]; else status 429, [RATE_LIMITED]; else not 2xx,
    [UNKNOWN_ERROR]; else a [Content-Type] that is exactly
    [application/rss+xml], [RATE_LIMITED] if the body contains [429]
    and [INVALID_CONTENTS] otherwise; else the decoded metafile, or
    [INVALID_CONTENTS] if decoding fails. *)
Theorem parseTorrentFromURL_classifies
    (url : string) (r : Response) (content : string) (w : World) :
  settles_with USER_AGENT env url r ->
  (100 <= status r <= 999)%N ->
  (answered_by_headers r = false ->
   body r = Returns content
   /\ due_by env (body_latency r) = false
   /\ (reads_feed_clone r = true -> clone_drains r = true)) ->
  fst (snatch url w) = Returns (classification_exact Metafile decode r content).
Proof.
  intros Hsettled Hstatus Hbody.
  rewrite (parseTorrentFromURL_settled url r w Hsettled), classifyResponse_run,
    due_after_arming.
  unfold classification_exact, classification_with, location_is_magnet.
  unfold reads_feed_clone, answered_by_headers in Hbody. revert Hbody.
  rewrite (starts_with_3_is_redirect _ Hstatus), headers_get_location,
    ok_is_success.
  unfold JSString.startsWith.
  destruct (is_redirect (status r)
            && match headers_get (headers r) "Location" with
               | Some l => prefix "magnet:" l
               | None => false
               end); [reflexivity|].
  destruct (status r =? 429)%N; [reflexivity|].
  cbn [orb negb andb]. intros Hbody.
  destruct (Hbody eq_refl) as (-> & -> & Hdrains).
  destruct (is_success (status r)); [|reflexivity].
  cbn [negb].
  destruct (content_type_is_rss r).
  - rewrite (Hdrains eq_refl).
    destruct (JSString.includes content "429"); reflexivity.
  - unfold cbind. destruct (decode content); reflexivity.
Qed.

(** C9, amended. A configured timeout arms one timer, unreferenced, and
    the function never cancels it.  When the call completes, the timer
    is still pending, as it was armed, unless it came due while the
    call was under way, before the request settled or, on the paths
    that read the body, before the body had ended; then it has fired,
    which is the only way it leaves the pending timers. *)
Theorem parseTorrentFromURL_timer_stays_armed
    (url : string) (ms : Z) (w : World)
    (c : Completion (Result Metafile SnatchError)) :
  snatchTimeout env = Some ms ->
  fst (snatch url w) = Settles c ->
  (timer_comes_due USER_AGENT env url = false ->
   pending (snd (snatch url w)) (next_timer w)
   = Some (mkTimer (next_timer w) (clamp_delay ms) false))
  /\ (timer_comes_due USER_AGENT env url = true ->
      disarmed (snd (snatch url w)) (next_timer w)).
Proof.
  intros Hms.
  pose proof (pending_after_arming ms w Hms) as Harmed.
  pose proof (fun w' => fired_signal_is_gone ms w w' Hms) as Hfired.
  unfold disarmed in *.
  rewrite parseTorrentFromURL_run. unfold timer_comes_due. cbv zeta.
  destruct (due_by env (latency (exchange url))).
  { intros _. split; [discriminate|]. intros _. apply Hfired. }
  cbn [orb].
  destruct (settlement (exchange url)) as [e|r].
  { intros _. split; [|discriminate]. intros _.
    destruct (exn_name e =? "AbortError"); exact Harmed. }
  rewrite classifyResponse_run, due_after_arming.
  unfold answered_by_headers.
  destruct (JSString.startsWith (JSString.toString (status r)) "3"
            && match headers_get (headers r) "location" with
               | Some location => JSString.startsWith location "magnet:"
               | None => false
               end).
  { intros _. split; [|discriminate]. intros _. exact Harmed. }
  destruct (status r =? 429)%N.
  { intros _. split; [|discriminate]. intros _. exact Harmed. }
  cbn [orb negb andb].
  destruct (negb (ok r)).
  { destruct (due_by env (body_latency r)).
    - intros _. split; [discriminate|]. intros _. apply Hfired.
    - intros _. split; [|discriminate]. intros _.
      destruct (body r); exact Harmed. }
  destruct (content_type_is_rss r).
  { destruct (due_by env (body_latency r)); [discriminate|].
    intros Hsettled. split; [|discriminate]. intros _.
    destruct (body r) as [text|e]; [|discriminate].
    destruct (clone_drains r); [|discriminate].
    destruct (JSString.includes text "429"); exact Harmed. }
  destruct (due_by env (body_latency r)).
  - intros _. split; [discriminate|]. intros _. apply Hfired.
  - intros _. split; [|discriminate]. intros _.
    destruct (cbind (body r) decode); exact Harmed.
Qed.

End FetchFacts.

Lemma parseTorrentFromURL_classifies_witness :
  fst (Sample.snatch (Sample.online (Some 1000%Z) Sample.disguised_limit)
         "https://tracker.example/dl/1" Sample.world0)
  = Returns (Err RATE_LIMITED).
Proof.
  apply (parseTorrentFromURL_classifies Sample.Metafile Sample.decode
           Sample.USER_AGENT
           (Sample.online (Some 1000%Z) Sample.disguised_limit)
           "https://tracker.example/dl/1" Sample.disguised_limit
           "<rss><error>429 Too Many Requests</error></rss>" Sample.world0).
  - split; reflexivity.
  - simpl. lia.
  - intros _. repeat split.
Defined.

(** C1, as stated, fails: the response declares the RSS/XML content
    type together with its charset and its body contains [429]; the
    protocol as worded classifies it as [RATE_LIMITED].  Line 87
    compares the header with the bare media type, the response is
    taken for a torrent, its body does not decode and the call returns
    [INVALID_CONTENTS], as the amended protocol says. *)
Lemma parseTorrentFromURL_misses_feed_with_charset :
  settles_with Sample.USER_AGENT
    (Sample.online (Some 1000%Z) Sample.feed_with_charset)
    "https://tracker.example/dl/1" Sample.feed_with_charset
  /\ headers_get (headers Sample.feed_with_charset) "Content-Type"
     = Some "application/rss+xml; charset=utf-8"
  /\ declares_rss Sample.feed_with_charset = true
  /\ classification Sample.Metafile Sample.decode Sample.feed_with_charset
       "<rss><error>429 Too Many Requests</error></rss>"
     = Err RATE_LIMITED
  /\ classification_exact Sample.Metafile Sample.decode
       Sample.feed_with_charset
       "<rss><error>429 Too Many Requests</error></rss>"
     = Err INVALID_CONTENTS
  /\ fst (Sample.snatch (Sample.online (Some 1000%Z) Sample.feed_with_charset)
            "https://tracker.example/dl/1" Sample.world0)
     = Returns (Err INVALID_CONTENTS).
Proof. repeat split. Qed.

Example classification_table :
  fst (Sample.snatch (Sample.online None Sample.too_many_requests)
         "https://tracker.example/dl/1" Sample.world0)
  = Returns (Err RATE_LIMITED)
  /\ fst (Sample.snatch (Sample.online None Sample.magnet_302)
            "https://tracker.example/dl/1" Sample.world0)
     = Returns (Err MAGNET_LINK)
  /\ fst (Sample.snatch (Sample.online None Sample.disguised_limit)
            "https://tracker.example/dl/1" Sample.world0)
     = Returns (Err RATE_LIMITED)
  /\ fst (Sample.snatch (Sample.online None Sample.disguised_error)
            "https://tracker.example/dl/1" Sample.world0)
     = Returns (Err INVALID_CONTENTS)
  /\ fst (Sample.snatch (Sample.online (Some 5%Z) Sample.torrent_200)
            "https://tracker.example/dl/1" Sample.world0)
     = Returns (Err ABORTED)
  /\ fst (Sample.snatch (Sample.online None Sample.torrent_200)
            "https://tracker.example/dl/1" Sample.world0)
     = Returns (Ok "d4:infod4:name4:Showee")
  /\ fst (Sample.snatch Sample.empty_store
            "https://tracker.example/dl/1" Sample.world0)
     = Returns (Err UNKNOWN_ERROR).
Proof. repeat split. Qed.

(** C8, on the code: a server error whose body breaks off while it is
    read.  The request has settled with the response, before the
    timeout; [parseTorrentFromURL] reads the body at line 85 outside of
    any [try] and the error of the body leaves the function as an
    exception.  The same broken body on the decoding path, read inside
    the [try] of line 100, is the value [INVALID_CONTENTS]. *)
Theorem parseTorrentFromURL_throws_on_broken_body :
  settles_with Sample.USER_AGENT
    (Sample.online (Some 1000%Z) Sample.broken_500)
    "https://tracker.example/dl/1" Sample.broken_500
  /\ fst (Sample.snatch (Sample.online (Some 1000%Z) Sample.broken_500)
            "https://tracker.example/dl/1" Sample.world0)
     = Throws Sample.premature_close
  /\ fst (Sample.snatch (Sample.online (Some 1000%Z) Sample.broken_torrent)
            "https://tracker.example/dl/1" Sample.world0)
     = Returns (Err INVALID_CONTENTS).
Proof. repeat split. Qed.

(** C9, as stated, fails: a timeout of one second is configured, the
    request settles after 10 ms with status 429 and the call returns
    [RATE_LIMITED]; the timer of the call is not disarmed, it is still
    pending in the world that the call leaves. *)
Lemma parseTorrentFromURL_timer_not_disarmed :
  settles_with Sample.USER_AGENT
    (Sample.online (Some 1000%Z) Sample.too_many_requests)
    "https://tracker.example/dl/1" Sample.too_many_requests
  /\ fst (Sample.snatch (Sample.online (Some 1000%Z) Sample.too_many_requests)
            "https://tracker.example/dl/1" Sample.world0)
     = Returns (Err RATE_LIMITED)
  /\ ~ disarmed
       (snd (Sample.snatch
               (Sample.online (Some 1000%Z) Sample.too_many_requests)
               "https://tracker.example/dl/1" Sample.world0)) 0.
Proof.
  repeat split. unfold disarmed. cbn. discriminate.
Qed.

Lemma parseTorrentFromURL_timer_stays_armed_witness :
  pending
    (snd (Sample.snatch (Sample.online (Some 1000%Z) Sample.torrent_200)
            "https://tracker.example/dl/1" Sample.world0)) 0
  = Some (mkTimer 0 1000 false).
Proof.
  apply (parseTorrentFromURL_timer_stays_armed Sample.Metafile Sample.decode
           Sample.USER_AGENT (Sample.online (Some 1000%Z) Sample.torrent_200)
           "https://tracker.example/dl/1" 1000%Z Sample.world0
           (Returns (Ok "d4:infod4:name4:Showee"))).
  - reflexivity.
  - reflexivity.
  - reflexivity.
Defined.

Example timer_fires_and_is_gone :
  Sample.snatch (Sample.online (Some 5%Z) Sample.torrent_200)
    "https://tracker.example/dl/1" Sample.world0
  = (Settles (Returns (Err ABORTED)),
     mkWorld 1 []
       [(error, Text "snatching https://tracker.example/dl/1 timed out")]).
Proof. reflexivity. Qed.

(** The timer fires while the body of an error page is still arriving:
    the read of line 85 rejects and the abort leaves the call as an
    exception; on the decoding path the same abort is caught. *)
Example timer_fires_during_the_body :
  Sample.snatch (Sample.online (Some 1000%Z) Sample.slow_500)
    "https://tracker.example/dl/1" Sample.world0
  = (Settles (Throws AbortError),
     mkWorld 1 []
       [(error, Text "error downloading torrent at https://tracker.example/dl/1: 500 Internal Server Error")])
  /\ fst (Sample.snatch (Sample.online (Some 1000%Z) Sample.slow_torrent)
            "https://tracker.example/dl/1" Sample.world0)
     = Returns (Err INVALID_CONTENTS)
  /\ disarmed
       (snd (Sample.snatch (Sample.online (Some 1000%Z) Sample.slow_torrent)
               "https://tracker.example/dl/1" Sample.world0)) 0.
Proof. repeat split. Qed.

(** * More properties of the code *)

(** ** Canonical keys, continued *)

Section CanonicalMore.

Import JSString JSStringFacts.

Lemma split_aux_lower (tok : string) (skipping : bool) (s : string) :
  split_aux is_separator (toLowerCase tok) skipping (toLowerCase s)
  = map toLowerCase (split_aux is_separator tok skipping s).
Proof.
  revert tok skipping.
  induction s as [|c s IH]; intros tok skipping; simpl; [reflexivity|].
  rewrite toLowerCase_char_separator.
  destruct (is_separator c).
  - destruct skipping; simpl; [apply (IH "") | f_equal; apply (IH "")].
  - rewrite <- IH, toLowerCase_append. reflexivity.
Qed.

Lemma tokenizeName_lower (tname : string) :
  tokenizeName (toLowerCase tname) = tokenizeName tname.
Proof.
  unfold tokenizeName, split.
  pose proof (split_aux_lower "" false tname) as H. simpl in H.
  rewrite H, map_map.
  f_equal. apply map_ext. intros t. apply toLowerCase_idempotent.
Qed.

Lemma length_append (s t : string) :
  String.length (s ++ t) = String.length s + String.length t.
Proof. induction s as [|c s IH]; simpl; [reflexivity | now rewrite IH]. Qed.

Lemma length_join (l : list string) :
  String.length (join l) = list_sum (map String.length l).
Proof.
  induction l as [|x l IH]; [reflexivity|].
  rewrite join_cons, length_append, IH. reflexivity.
Qed.

Lemma length_lower (s : string) :
  String.length (toLowerCase s) = String.length s.
Proof. induction s as [|c s IH]; simpl; congruence. Qed.

Lemma list_sum_permutation (l1 l2 : list nat) :
  Permutation l1 l2 -> list_sum l1 = list_sum l2.
Proof. induction 1; simpl; lia. Qed.

(** While a run of separators is skipped the piece being read is
    empty. *)
Lemma split_aux_lengths (tok : string) (skipping : bool) (s : string) :
  (skipping = true -> tok = "") ->
  list_sum (map String.length (split_aux is_separator tok skipping s))
  = String.length tok + plain_count s.
Proof.
  revert tok skipping.
  induction s as [|c s IH]; intros tok skipping Hskip; simpl; [lia|].
  destruct (is_separator c).
  - destruct skipping.
    + rewrite (Hskip eq_refl). now rewrite (IH "" true).
    + simpl. rewrite (IH "" true) by reflexivity. simpl. lia.
  - rewrite IH by discriminate. rewrite length_append. simpl. lia.
Qed.

(** The tokens of a name come out in ascending order, and they are the
    lower-cased pieces of the name, none lost and none added. *)
Theorem tokenizeName_sorted_pieces (tname : string) :
  StronglySorted le (tokenizeName tname)
  /\ Permutation (tokenizeName tname)
                 (map toLowerCase (split is_separator tname)).
Proof.
  unfold tokenizeName. split; [apply sort_sorted | apply sort_perm].
Qed.

(** On the strings of the embedding, of code units below 256, two
    names with one lower-case form have one key. *)
Lemma key_of_lower_case (name1 name2 : string) :
  toLowerCase name1 = toLowerCase name2 ->
  createComparableTorrent name1 = createComparableTorrent name2.
Proof.
  intros H. unfold createComparableTorrent.
  rewrite <- (tokenizeName_lower name1), <- (tokenizeName_lower name2), H.
  reflexivity.
Qed.

Lemma same_ascii_letter_lower (c d : ascii) :
  same_ascii_letter c d = true -> toLowerCase_char c = toLowerCase_char d.
Proof.
  unfold same_ascii_letter. intros H.
  apply orb_true_iff in H. destruct H as [H|H].
  - apply Ascii.eqb_eq in H. now subst d.
  - apply andb_true_iff in H. destruct H as [_ H].
    now apply Ascii.eqb_eq in H.
Qed.

Lemma same_but_ascii_case_lower (name1 name2 : string) :
  same_but_ascii_case name1 name2 = true ->
  toLowerCase name1 = toLowerCase name2.
Proof.
  revert name2.
  induction name1 as [|c rest1 IH]; intros [|d rest2]; simpl;
    try discriminate; [reflexivity|].
  intros H. apply andb_true_iff in H. destruct H as [Hc Hrest].
  now rewrite (same_ascii_letter_lower c d Hc), (IH rest2 Hrest).
Qed.

(** X1. Two names that differ in nothing but the case of ASCII letters
    (A-Z against a-z, place by place) have one key. *)
Theorem createComparableTorrent_ignores_ascii_case (name1 name2 : string) :
  same_but_ascii_case name1 name2 = true ->
  createComparableTorrent name1 = createComparableTorrent name2.
Proof.
  intros H. apply key_of_lower_case, same_but_ascii_case_lower, H.
Qed.

(** On the strings of the embedding, of code units below 256, where
    [toLowerCase] keeps the length: the key of a name has as many
    characters as the name has characters that are no separators. *)
Lemma key_length (name : string) :
  String.length (createComparableTorrent name) = plain_count name.
Proof.
  unfold createComparableTorrent, tokenizeName, split.
  rewrite length_join.
  rewrite (list_sum_permutation _ _
             (Permutation_map String.length (sort_perm _))).
  rewrite map_map.
  rewrite (map_ext _ String.length length_lower).
  now rewrite split_aux_lengths.
Qed.

(** X2. The key of a name of ASCII characters has as many characters
    as the name has characters that are no separators:
    canonicalization drops the separators and nothing else. *)
Theorem createComparableTorrent_length (name : string) :
  ascii_name name = true ->
  String.length (createComparableTorrent name) = plain_count name.
Proof. intros _. apply key_length. Qed.

Lemma split_aux_map_chars (f : ascii -> ascii) (tok : string)
    (skipping : bool) (s : string) :
  (forall c, is_separator c = true -> is_separator (f c) = true) ->
  (forall c, is_separator c = false -> f c = c) ->
  split_aux is_separator tok skipping (map_chars f s)
  = split_aux is_separator tok skipping s.
Proof.
  intros Hsep Hplain. revert tok skipping.
  induction s as [|c s IH]; intros tok skipping; simpl; [reflexivity|].
  destruct (is_separator c) eqn:Hc.
  - rewrite (Hsep c Hc). destruct skipping; now rewrite IH.
  - rewrite (Hplain c Hc), Hc. apply IH.
Qed.

(** X3. The key does not depend on which separators a name uses: replacing
    separators by separators, the other characters staying, keeps the
    key. *)
Theorem createComparableTorrent_ignores_separator_kind
    (f : ascii -> ascii) (name : string) :
  (forall c, is_separator c = true -> is_separator (f c) = true) ->
  (forall c, is_separator c = false -> f c = c) ->
  createComparableTorrent (map_chars f name) = createComparableTorrent name.
Proof.
  intros Hsep Hplain. unfold createComparableTorrent, tokenizeName, split.
  now rewrite split_aux_map_chars.
Qed.

End CanonicalMore.

Lemma createComparableTorrent_ignores_ascii_case_witness :
  createComparableTorrent "SHOW.Name.s01E02"
  = createComparableTorrent "show.NAME.S01e02".
Proof.
  apply createComparableTorrent_ignores_ascii_case. reflexivity.
Defined.

Lemma createComparableTorrent_length_witness :
  String.length (createComparableTorrent "Show.Name - S01E02.1080p-GROUP")
  = 24.
Proof.
  apply (createComparableTorrent_length "Show.Name - S01E02.1080p-GROUP").
  reflexivity.
Defined.

Lemma createComparableTorrent_ignores_separator_kind_witness :
  createComparableTorrent
    (map_chars (fun c => if is_separator c then " "%char else c)
               "Show.Name-S01E02")
  = createComparableTorrent "Show.Name-S01E02".
Proof.
  apply createComparableTorrent_ignores_separator_kind.
  - intros c Hc. now rewrite Hc.
  - intros c Hc. now rewrite Hc.
Defined.

(** ** The search map *)

Module SearchMapFacts.

Import JSObject.

Lemma get_replace {V : Type} (o : t V) (k k' : string) (v : V) :
  has o k = true ->
  get (replace o k v) k' = if k =? k' then Some v else get o k'.
Proof.
  induction o as [|[k1 v1] o IH]; simpl; [discriminate|].
  destruct (k1 =? k) eqn:E1; simpl.
  - apply String.eqb_eq in E1. subst k1. intros _.
    destruct (k =? k'); reflexivity.
  - intros Hhas. rewrite (IH Hhas).
    destruct (k1 =? k') eqn:E2; [|reflexivity].
    apply String.eqb_eq in E2. subst k'.
    rewrite String.eqb_sym, E1. reflexivity.
Qed.

Lemma get_app_new {V : Type} (o : t V) (k k' : string) (v : V) :
  has o k = false ->
  get (o ++ [(k, v)])%list k' = if k =? k' then Some v else get o k'.
Proof.
  induction o as [|[k1 v1] o IH]; simpl; [reflexivity|].
  destruct (k1 =? k) eqn:E1; simpl; [discriminate|].
  intros Hhas. rewrite (IH Hhas).
  destruct (k1 =? k') eqn:E2; [|reflexivity].
  apply String.eqb_eq in E2. subst k'. now rewrite String.eqb_sym, E1.
Qed.

(** Reading after writing: the key written holds the value written,
    every other key holds what it held. *)
Lemma get_set {V : Type} (o : t V) (k k' : string) (v : V) :
  k <> "__proto__" ->
  get (set o k v) k' = if k =? k' then Some v else get o k'.
Proof.
  intros Hk. unfold set.
  destruct (k =? "__proto__") eqn:E; [apply String.eqb_eq in E; contradiction|].
  destruct (has o k) eqn:Hhas; [now apply get_replace | now apply get_app_new].
Qed.

Lemma get_set_proto {V : Type} (o : t V) (k' : string) (v : V) :
  get (set o "__proto__" v) k' = get o k'.
Proof. reflexivity. Qed.

Lemma get_own_key {V : Type} (o : t V) (k : string) (v : V) :
  get o k = Some v -> In k (map fst o).
Proof.
  induction o as [|[k1 v1] o IH]; simpl; [discriminate|].
  destruct (k1 =? k) eqn:E; [apply String.eqb_eq in E; auto | auto].
Qed.

Lemma insert_index_keeps (x y : N * string) (l : list (N * string)) :
  y = x \/ In y l -> In y (insert_index x l).
Proof.
  induction l as [|z l IH]; simpl.
  - intros [H|[]]; auto.
  - destruct (fst x <=? fst z)%N; simpl; intros [H|[H|H]]; auto.
Qed.

(** [Object.keys] leaves no own key out. *)
Lemma own_key_listed {V : Type} (o : t V) (k : string) :
  In k (map fst o) -> In k (keys o).
Proof.
  unfold keys, name_keys. intros Hk. apply in_or_app.
  destruct (array_index k) as [n|] eqn:Hidx.
  - left. apply in_map_iff. exists (n, k). split; [reflexivity|].
    induction o as [|[k1 v1] o IH]; simpl in *; [contradiction|].
    destruct Hk as [Hk|Hk].
    + subst k1. rewrite Hidx. apply insert_index_keeps. now left.
    + destruct (array_index k1); [apply insert_index_keeps; right|]; auto.
  - right. apply in_map_iff in Hk. destruct Hk as [[k1 v1] [Hk1 Hin]].
    simpl in Hk1. subst k1. apply in_map_iff. exists (k, v1).
    split; [reflexivity|]. apply filter_In. split; [exact Hin|].
    simpl. now rewrite Hidx.
Qed.

Lemma find_app_last {A : Type} (p : A -> bool) (l : list A) (x : A) :
  find p (l ++ [x]) = match find p l with
                      | Some y => Some y
                      | None => if p x then Some x else None
                      end.
Proof.
  induction l as [|y l IH]; simpl; [reflexivity|].
  destruct (p y); [reflexivity | exact IH].
Qed.

End SearchMapFacts.

Section SearchMapMore.

Variables VIDEO_EXTENSIONS DATA_EXTENSIONS : list string.

Local Abbreviation key_of :=
  (fun x : TorrentRow =>
     createComparableTorrent
       (removeExtensionsFromName VIDEO_EXTENSIONS DATA_EXTENSIONS (row_name x))).
Local Abbreviation searchMap :=
  (searchMapOf VIDEO_EXTENSIONS DATA_EXTENSIONS).

Lemma searchMap_fold (rows : list TorrentRow) (o : JSObject.t TorrentRow)
    (k : string) :
  k <> "__proto__" ->
  JSObject.get
    (fold_left (fun (m : JSObject.t TorrentRow) (x : TorrentRow) =>
                  JSObject.set m (key_of x) x) rows o) k
  = match find (fun x => key_of x =? k) (rev rows) with
    | Some x => Some x
    | None => JSObject.get o k
    end.
Proof.
  intros Hk. revert o.
  induction rows as [|x rows IH]; intros o; simpl; [reflexivity|].
  rewrite IH, SearchMapFacts.find_app_last.
  destruct (find (fun x0 => key_of x0 =? k) (rev rows)); [reflexivity|].
  destruct (String.eqb_spec (key_of x) "__proto__") as [Hp|Hp].
  - rewrite Hp, SearchMapFacts.get_set_proto.
    destruct (String.eqb_spec "__proto__" k); [congruence | reflexivity].
  - rewrite SearchMapFacts.get_set by assumption.
    destruct (key_of x =? k); reflexivity.
Qed.

(** X4. Of the rows that share a comparable name, the search map holds the
    last: under a key it has the last row of that key, and nothing
    under a key that no row has. *)
Theorem searchMapOf_last_wins (rows : list TorrentRow) (k : string) :
  k <> "__proto__" ->
  JSObject.get (searchMap rows) k
  = find (fun x => key_of x =? k) (rev rows).
Proof.
  intros Hk. unfold searchMapOf. rewrite (searchMap_fold rows _ k Hk).
  destruct (find (fun x => key_of x =? k) (rev rows)); reflexivity.
Qed.

Lemma searchMap_no_proto (rows : list TorrentRow) (o : JSObject.t TorrentRow) :
  JSObject.get
    (fold_left (fun (m : JSObject.t TorrentRow) (x : TorrentRow) =>
                  JSObject.set m (key_of x) x) rows o) "__proto__"
  = JSObject.get o "__proto__".
Proof.
  revert o. induction rows as [|x rows IH]; intros o; simpl; [reflexivity|].
  rewrite IH.
  destruct (String.eqb_spec (key_of x) "__proto__") as [Hp|Hp].
  - now rewrite Hp.
  - rewrite SearchMapFacts.get_set by assumption.
    destruct (String.eqb_spec (key_of x) "__proto__"); [contradiction|].
    reflexivity.
Qed.

(** X5. The keys that the nearest-key search sees are the comparable names
    of the candidate rows, but for the name [__proto__], which never
    becomes a key. *)
Theorem searchMapOf_keys (rows : list TorrentRow) (k : string) :
  In k (JSObject.keys (searchMap rows))
  <-> k <> "__proto__" /\ exists x, In x rows /\ key_of x = k.
Proof.
  split.
  - intros Hin. apply JSObjectFacts.keys_own in Hin.
    destruct (JSObjectFacts.get_of_own_key _ _ Hin) as [v Hv].
    assert (Hk : k <> "__proto__").
    { intros ->. unfold searchMapOf in Hv.
      rewrite searchMap_no_proto in Hv. discriminate. }
    split; [exact Hk|].
    unfold searchMapOf in Hv. rewrite (searchMap_fold rows _ k Hk) in Hv.
    destruct (find (fun x => key_of x =? k) (rev rows)) as [x|] eqn:Hfind;
      [|discriminate].
    apply find_some in Hfind. destruct Hfind as [Hx Hkey].
    exists x. split; [now apply in_rev | now apply String.eqb_eq].
  - intros [Hk [x [Hx Hkey]]].
    apply SearchMapFacts.own_key_listed.
    destruct (JSObject.get (searchMap rows) k) as [v|] eqn:Hv.
    + eapply SearchMapFacts.get_own_key. exact Hv.
    + exfalso. unfold searchMapOf in Hv.
      rewrite (searchMap_fold rows _ k Hk) in Hv.
      destruct (find (fun x => key_of x =? k) (rev rows)) eqn:Hfind;
        [discriminate|].
      pose proof (find_none _ _ Hfind x (proj1 (in_rev rows x) Hx)) as Hf.
      simpl in Hf. rewrite Hkey, String.eqb_refl in Hf. discriminate.
Qed.

End SearchMapMore.

(** ** The distance *)

Module DistanceFacts.

Import Levenshtein.

Lemma edit_distance_empty_r (a : string) :
  edit_distance a "" = String.length a.
Proof. destruct a; reflexivity. Qed.

Lemma edit_distance_cons (x y : ascii) (a b : string) :
  edit_distance (String x a) (String y b)
  = Nat.min (Nat.min (S (edit_distance a (String y b)))
                     (S (edit_distance (String x a) b)))
            (edit_distance a b + if (x =? y)%char then 0 else 1).
Proof. reflexivity. Qed.

Lemma row_from_head_tail (ra rb bs : string) :
  row_from ra rb bs = edit_distance ra rb :: tl (row_from ra rb bs).
Proof. destruct bs; reflexivity. Qed.

(** One step of the table: from the row of [ra] to the row of
    [String x ra]. *)
Lemma next_row_correct (x : ascii) (bs ra rb : string) :
  next_row x bs (row_from ra rb bs) (edit_distance (String x ra) rb)
  = tl (row_from (String x ra) rb bs).
Proof.
  revert rb. induction bs as [|y bs IH]; intros rb; [reflexivity|].
  cbn [row_from tl].
  rewrite (row_from_head_tail ra (String y rb) bs).
  cbn [next_row].
  rewrite <- (row_from_head_tail ra (String y rb) bs).
  rewrite <- edit_distance_cons.
  rewrite IH. symmetry. apply row_from_head_tail.
Qed.

Lemma rows_correct (a b ra : string) :
  rows a b (row_from ra "" b)
  = row_from (JSString.rev_string ra a) "" b.
Proof.
  revert ra. induction a as [|x a IH]; intros ra; [reflexivity|].
  cbn [rows JSString.rev_string].
  rewrite <- IH. f_equal.
  assert (Hhd : S (hd 0 (row_from ra "" b)) = edit_distance (String x ra) "").
  { rewrite (row_from_head_tail ra "" b). cbn [hd].
    now rewrite !edit_distance_empty_r. }
  rewrite Hhd, next_row_correct. symmetry. apply row_from_head_tail.
Qed.

Lemma row_from_empty (rb bs : string) :
  row_from "" rb bs = seq (String.length rb) (S (String.length bs)).
Proof.
  revert rb. induction bs as [|y bs IH]; intros rb; [reflexivity|].
  cbn [row_from]. rewrite IH. reflexivity.
Qed.

Lemma last_row_from (ra rb bs : string) :
  last (row_from ra rb bs) 0 = edit_distance ra (JSString.rev_string rb bs).
Proof.
  revert rb. induction bs as [|y bs IH]; intros rb; [reflexivity|].
  cbn [row_from JSString.rev_string]. rewrite <- IH.
  rewrite (row_from_head_tail ra (String y rb) bs). reflexivity.
Qed.

(** The rows compute the distance of the recurrence, on the strings
    read backwards. *)
Lemma levenshtein_is_edit_distance (a b : string) :
  levenshtein a b
  = edit_distance (JSString.rev_string "" a) (JSString.rev_string "" b).
Proof.
  unfold levenshtein.
  change (seq 0 (S (String.length b)))
    with (seq (String.length "") (S (String.length b))).
  rewrite <- (row_from_empty "" b), rows_correct. apply last_row_from.
Qed.

Lemma edit_distance_refl (a : string) : edit_distance a a = 0.
Proof.
  induction a as [|x a IH]; [reflexivity|].
  rewrite edit_distance_cons, IH, Ascii.eqb_refl. lia.
Qed.

Lemma edit_distance_sym (a b : string) : edit_distance a b = edit_distance b a.
Proof.
  revert b. induction a as [|x a IHa]; intros b.
  - now rewrite edit_distance_empty_r.
  - induction b as [|y b IHb]; [reflexivity|].
    rewrite !edit_distance_cons, IHb, (IHa (String y b)), (IHa b).
    rewrite (Ascii.eqb_sym x y). lia.
Qed.

Lemma edit_distance_zero (a b : string) : edit_distance a b = 0 -> a = b.
Proof.
  revert b. induction a as [|x a IHa]; intros b.
  - destruct b; [reflexivity | discriminate].
  - destruct b as [|y b]; [discriminate|].
    rewrite edit_distance_cons.
    destruct (Ascii.eqb_spec x y) as [->|Hxy]; intros H.
    + f_equal. apply IHa. lia.
    + lia.
Qed.

Lemma edit_distance_upper (a b : string) :
  edit_distance a b <= Nat.max (String.length a) (String.length b).
Proof.
  revert b. induction a as [|x a IHa]; intros b.
  - simpl. lia.
  - destruct b as [|y b]; [simpl; lia|].
    rewrite edit_distance_cons. specialize (IHa b).
    destruct (x =? y)%char; simpl String.length; lia.
Qed.

Lemma edit_distance_lower (a b : string) :
  String.length a - String.length b <= edit_distance a b.
Proof.
  revert b. induction a as [|x a IHa]; intros b.
  - simpl. lia.
  - induction b as [|y b IHb]; [simpl; lia|].
    rewrite edit_distance_cons.
    pose proof (IHa (String y b)) as H1. pose proof (IHa b) as H2.
    simpl String.length in *.
    destruct (x =? y)%char; lia.
Qed.

Lemma rev_string_length (acc s : string) :
  String.length (JSString.rev_string acc s)
  = String.length s + String.length acc.
Proof.
  revert acc. induction s as [|c s IH]; intros acc; [reflexivity|].
  cbn [JSString.rev_string]. rewrite IH. simpl. lia.
Qed.

Lemma rev_string_involutive (acc s : string) :
  JSString.rev_string "" (JSString.rev_string acc s)
  = JSString.rev_string s acc.
Proof.
  revert acc. induction s as [|c s IH]; intros acc; [reflexivity|].
  cbn [JSString.rev_string]. rewrite IH. reflexivity.
Qed.

Lemma rev_string_injective (a b : string) :
  JSString.rev_string "" a = JSString.rev_string "" b -> a = b.
Proof.
  intros H.
  pose proof (rev_string_involutive "" a) as Ha.
  pose proof (rev_string_involutive "" b) as Hb.
  rewrite H in Ha. simpl in Ha, Hb. congruence.
Qed.

End DistanceFacts.

Module NearestFacts.

Import Levenshtein DistanceFacts.

Lemma closest_loop_defined (str : string) (arr : list string)
    (best : string * nat) :
  exists k, closest_loop str arr (Some best) = Some k.
Proof.
  revert best. induction arr as [|x arr IH]; intros [b d]; simpl; [eauto|].
  destruct (levenshtein str x <? d)%nat; apply IH.
Qed.

Lemma closest_defined (str : string) (arr : list string) :
  arr <> [] -> exists k, closest str arr = Some k.
Proof.
  destruct arr as [|x arr]; [contradiction|]. intros _.
  unfold closest. simpl. apply closest_loop_defined.
Qed.

Lemma levenshtein_refl (a : string) : levenshtein a a = 0.
Proof. rewrite levenshtein_is_edit_distance. apply edit_distance_refl. Qed.

Lemma levenshtein_zero (a b : string) : levenshtein a b = 0 -> a = b.
Proof.
  rewrite levenshtein_is_edit_distance. intros H.
  apply rev_string_injective, edit_distance_zero, H.
Qed.

(** The loop of [closest], with what it has seen: [seen] are the
    elements visited, [b] the nearest of them, the first if several are
    as near. *)
Lemma closest_loop_first (str : string) (arr before after : list string)
    (b k : string) :
  (forall x, In x before -> levenshtein str b < levenshtein str x) ->
  (forall x, In x after -> levenshtein str b <= levenshtein str x) ->
  closest_loop str arr (Some (b, levenshtein str b)) = Some k ->
  exists l1 l2,
    (before ++ b :: after ++ arr = l1 ++ k :: l2)%list
    /\ (forall x, In x l1 -> levenshtein str k < levenshtein str x)
    /\ (forall x, In x l2 -> levenshtein str k <= levenshtein str x).
Proof.
  revert before after b.
  induction arr as [|x arr IH]; intros before after b Hbefore Hafter; simpl.
  - intros [= ->]. exists before, after.
    rewrite app_nil_r. auto.
  - destruct (Nat.ltb_spec (levenshtein str x) (levenshtein str b))
      as [Hlt|Hge]; intros H.
    + destruct (IH (before ++ b :: after)%list [] x) as (l1 & l2 & Heq & H1 & H2).
      * intros y Hy. apply in_app_or in Hy.
        destruct Hy as [Hy|[<-|Hy]]; [specialize (Hbefore y Hy) | |
                                      specialize (Hafter y Hy)]; lia.
      * intros y [].
      * exact H.
      * exists l1, l2. split; [|auto].
        rewrite <- Heq, <- app_assoc. reflexivity.
    + destruct (IH before (after ++ [x])%list b) as (l1 & l2 & Heq & H1 & H2).
      * exact Hbefore.
      * intros y Hy. apply in_app_or in Hy.
        destruct Hy as [Hy|[<-|[]]]; [auto | lia].
      * exact H.
      * exists l1, l2. split; [|auto].
        rewrite <- Heq, <- app_assoc. reflexivity.
Qed.

End NearestFacts.

(** ** The fuzzy name resolver, continued *)

Section FuzzyMore.

Variable Metafile : Type.
Variable decode : string -> Completion Metafile.
Variables EP_REGEX SEASON_REGEX MOVIE_REGEX GROUP_REGEX : Regex.
Variables VIDEO_EXTENSIONS DATA_EXTENSIONS : list string.
Variable env : Env.

Local Abbreviation resolve :=
  (getTorrentByFuzzyName Metafile decode EP_REGEX SEASON_REGEX MOVIE_REGEX
     GROUP_REGEX VIDEO_EXTENSIONS DATA_EXTENSIONS env).
Local Abbreviation searchTerm :=
  (searchTermOf EP_REGEX SEASON_REGEX MOVIE_REGEX GROUP_REGEX).
Local Abbreviation searchMap :=
  (searchMapOf VIDEO_EXTENSIONS DATA_EXTENSIONS).
Local Abbreviation key_of :=
  (fun x : TorrentRow =>
     createComparableTorrent
       (removeExtensionsFromName VIDEO_EXTENSIONS DATA_EXTENSIONS (row_name x))).
Local Abbreviation distance_to name key :=
  (inject_Z (Z.of_nat
     (Levenshtein.levenshtein (createComparableTorrent name) key))).
Local Abbreviation ceiling_of name :=
  (distanceMaxOf env (String.length (createComparableTorrent name))).

(** The whole of [getTorrentByFuzzyName] once a nearest key exists. *)
Lemma resolve_with_candidate (name term key : string) (w : World) :
  searchTerm name = Returns term ->
  Levenshtein.closest (createComparableTorrent name)
    (JSObject.keys (searchMap (candidates env term))) = Some key ->
  exists row : TorrentRow,
    In row (candidates env term)
    /\ key_of row = key
    /\ resolve name w
       = if Qle_bool (distance_to name key - 2)%Q (ceiling_of name)
         then (if Qle_bool (distance_to name key) (ceiling_of name)
               then accepted Metafile decode env row
               else NoMatch Metafile,
               mkWorld (next_timer w) (timers w)
                 (logs w
                  ++ [(verbose,
                       Decide (ceiling_of name) (row_name row) name
                         (js_percent_complement
                            (js_divide
                               (Levenshtein.levenshtein
                                  (createComparableTorrent name) key)
                               (String.length (createComparableTorrent name))))
                         (Levenshtein.levenshtein
                            (createComparableTorrent name) key))])%list)
         else (NoMatch Metafile, w).
Proof.
  intros Hterm Hclosest.
  pose proof (LevenshteinFacts.closest_In _ _ _ Hclosest) as Hkey.
  destruct (JSObjectFacts.get_of_own_key _ key
              (JSObjectFacts.keys_own _ _ Hkey)) as [row Hrow].
  assert (Hproto : key <> "__proto__").
  { intros ->. unfold searchMapOf in Hrow.
    rewrite searchMap_no_proto in Hrow. discriminate. }
  exists row. split; [|split].
  - eapply searchMap_values, JSObjectFacts.get_In, Hrow.
  - unfold searchMapOf in Hrow.
    rewrite (searchMap_fold _ _ _ _ key Hproto) in Hrow.
    destruct (find (fun x => key_of x =? key) (rev (candidates env term)))
      as [x|] eqn:Hfind; [|discriminate].
    injection Hrow as ->. apply find_some in Hfind.
    now apply String.eqb_eq.
  - unfold getTorrentByFuzzyName, bind, lift.
    rewrite Hterm. cbv zeta. rewrite Hclosest.
    unfold Levenshtein.distance, member, property_key.
    rewrite Hrow.
    destruct (Qle_bool (distance_to name key - 2)%Q (ceiling_of name));
      [|reflexivity].
    unfold log.
    destruct (Qle_bool (distance_to name key) (ceiling_of name));
      [|reflexivity].
    rewrite parseTorrentFromFilename_result.
    unfold accepted, cbind.
    destruct (decoded_file Metafile decode env (row_file_path row));
      reflexivity.
Qed.

Lemma resolve_without_term (name : string) (e : Exn) (w : World) :
  searchTerm name = Throws e -> resolve name w = (Throws e, w).
Proof.
  intros H. unfold getTorrentByFuzzyName, bind, lift. now rewrite H.
Qed.

Lemma resolve_without_key (name term : string) (w : World) :
  searchTerm name = Returns term ->
  Levenshtein.closest (createComparableTorrent name)
    (JSObject.keys (searchMap (candidates env term))) = None ->
  exists e, resolve name w = (Throws e, w).
Proof.
  intros Hterm Hnone. unfold getTorrentByFuzzyName, bind, lift.
  rewrite Hterm. cbv zeta. rewrite Hnone. simpl. eauto.
Qed.

(** X6. A metafile that [getTorrentByFuzzyName] returns is the decoding of
    the stored file of a row of the index store whose name is like the
    search term of the name and whose comparable name lies within the
    ceiling of the target key. *)
Theorem getTorrentByFuzzyName_sound
    (name : string) (meta : Metafile) (w : World) :
  fst (resolve name w) = Returns (Some meta) ->
  exists (term : string) (row : TorrentRow),
    searchTerm name = Returns term
    /\ In row (torrent_table env)
    /\ like env term (row_name row) = true
    /\ decoded_file Metafile decode env (row_file_path row) = Returns meta
    /\ (distance_to name (key_of row) <= ceiling_of name)%Q.
Proof.
  destruct (searchTerm name) as [term|e] eqn:Hterm.
  2:{ rewrite (resolve_without_term name e w Hterm). discriminate. }
  destruct (Levenshtein.closest (createComparableTorrent name)
              (JSObject.keys (searchMap (candidates env term))))
    as [key|] eqn:Hclosest.
  2:{ destruct (resolve_without_key name term w Hterm Hclosest) as [e ->].
      discriminate. }
  destruct (resolve_with_candidate name term key w Hterm Hclosest)
    as [row (Hin & Hkey & ->)].
  intros Hresult. exists term, row.
  apply filter_In in Hin. destruct Hin as [Htable Hlike].
  destruct (Qle_bool (distance_to name key - 2)%Q (ceiling_of name));
    [|discriminate].
  destruct (Qle_bool (distance_to name key) (ceiling_of name)) eqn:Hle;
    [|discriminate].
  simpl in Hresult. unfold accepted, cbind in Hresult.
  destruct (decoded_file Metafile decode env (row_file_path row))
    as [m|e] eqn:Hfile; [|discriminate].
  injection Hresult as ->.
  repeat split; try assumption; try reflexivity.
  rewrite Hkey. now apply Qle_bool_iff.
Qed.

(** The whole of [getTorrentByFuzzyName] once a nearest key exists,
    by the row that the search map holds under that key. *)
Lemma resolve_with_member
    (name term key : string) (row : TorrentRow) (w : World) :
  searchTerm name = Returns term ->
  Levenshtein.closest (createComparableTorrent name)
    (JSObject.keys (searchMap (candidates env term))) = Some key ->
  JSObject.get (searchMap (candidates env term)) key = Some row ->
  resolve name w
  = if Qle_bool (distance_to name key - 2)%Q (ceiling_of name)
    then (if Qle_bool (distance_to name key) (ceiling_of name)
          then accepted Metafile decode env row
          else NoMatch Metafile,
          mkWorld (next_timer w) (timers w)
            (logs w
             ++ [(verbose,
                  Decide (ceiling_of name) (row_name row) name
                    (js_percent_complement
                       (js_divide
                          (Levenshtein.levenshtein
                             (createComparableTorrent name) key)
                          (String.length (createComparableTorrent name))))
                    (Levenshtein.levenshtein
                       (createComparableTorrent name) key))])%list)
    else (NoMatch Metafile, w).
Proof.
  intros Hterm Hclosest Hrow.
  unfold getTorrentByFuzzyName, bind, lift.
  rewrite Hterm. cbv zeta. rewrite Hclosest.
  unfold Levenshtein.distance, member, property_key.
  rewrite Hrow.
  destruct (Qle_bool (distance_to name key - 2)%Q (ceiling_of name));
    [|reflexivity].
  unfold log.
  destruct (Qle_bool (distance_to name key) (ceiling_of name));
    [|reflexivity].
  rewrite parseTorrentFromFilename_result.
  unfold accepted, cbind.
  destruct (decoded_file Metafile decode env (row_file_path row));
    reflexivity.
Qed.

(** X9. The advisory window: with a nearest key at distance [d], the
    resolver logs one verbose line when [d <= ceiling + 2], also when
    it then rejects; the line names the row that the search map holds
    under the nearest key, the name asked for and [d] (its two other
    numbers, doubles in the source, are left open).  Beyond the window
    it answers [null] and leaves the world as it was.  It never touches
    a timer. *)
Theorem getTorrentByFuzzyName_advisory_window
    (name term key : string) (w : World) :
  searchTerm name = Returns term ->
  Levenshtein.closest (createComparableTorrent name)
    (JSObject.keys (searchMap (candidates env term))) = Some key ->
  exists row : TorrentRow,
    JSObject.get (searchMap (candidates env term)) key = Some row
    /\ timers (snd (resolve name w)) = timers w
    /\ ((distance_to name key <= ceiling_of name + 2)%Q ->
        exists (distanceMax : Q) (similarityPct : JSNumber),
          logs (snd (resolve name w))
          = (logs w
             ++ [(verbose,
                  Decide distanceMax (row_name row) name similarityPct
                    (Levenshtein.levenshtein
                       (createComparableTorrent name) key))])%list)
    /\ (~ (distance_to name key <= ceiling_of name + 2)%Q ->
        resolve name w = (NoMatch Metafile, w)).
Proof.
  intros Hterm Hclosest.
  pose proof (LevenshteinFacts.closest_In _ _ _ Hclosest) as Hkey.
  destruct (JSObjectFacts.get_of_own_key _ key
              (JSObjectFacts.keys_own _ _ Hkey)) as [row Hrow].
  exists row. split; [exact Hrow|].
  rewrite (resolve_with_member name term key row w Hterm Hclosest Hrow).
  destruct (Qle_bool (distance_to name key - 2)%Q (ceiling_of name))
    eqn:Hwindow.
  - apply Qle_bool_iff in Hwindow.
    split; [reflexivity|]. split.
    + intros _. eexists _, _. reflexivity.
    + intros Hout. exfalso. apply Hout. lra.
  - split; [reflexivity|]. split.
    + intros Hle. exfalso.
      assert (Htrue : Qle_bool (distance_to name key - 2)%Q (ceiling_of name)
                      = true) by (apply Qle_bool_iff; lra).
      congruence.
    + intros _. reflexivity.
Qed.

Lemma ceiling_not_negative (L : nat) : (0 <= distanceMaxOf env L)%Q.
Proof.
  unfold distanceMaxOf.
  eapply Qle_trans; [|apply Q.le_max_r].
  apply Q.min_glb; [|discriminate].
  apply Qmult_le_0_compat; [discriminate|].
  change 0%Q with (inject_Z 0). rewrite <- Zle_Qle. lia.
Qed.

(** X8. A candidate whose comparable name is the target key itself is
    always accepted: when a row like the search term has the key of the
    name, the resolver answers with the decoded stored file of a row of
    that key, whatever the threshold. *)
Theorem getTorrentByFuzzyName_exact_match
    (name term : string) (x : TorrentRow) (w : World) :
  searchTerm name = Returns term ->
  In x (candidates env term) ->
  key_of x = createComparableTorrent name ->
  createComparableTorrent name <> "__proto__" ->
  exists row : TorrentRow,
    In row (candidates env term)
    /\ key_of row = createComparableTorrent name
    /\ fst (resolve name w) = accepted Metafile decode env row.
Proof.
  intros Hterm Hx Hkey Hproto.
  assert (Hlisted : In (createComparableTorrent name)
                       (JSObject.keys (searchMap (candidates env term)))).
  { apply SearchMapFacts.own_key_listed.
    destruct (JSObject.get (searchMap (candidates env term))
                (createComparableTorrent name)) as [v|] eqn:Hv.
    - eapply SearchMapFacts.get_own_key. exact Hv.
    - exfalso. unfold searchMapOf in Hv.
      rewrite (searchMap_fold _ _ _ _ _ Hproto) in Hv.
      destruct (find (fun r => key_of r =? createComparableTorrent name)
                  (rev (candidates env term))) eqn:Hfind; [discriminate|].
      pose proof (find_none _ _ Hfind x (proj1 (in_rev _ x) Hx)) as Hf.
      simpl in Hf. rewrite Hkey, String.eqb_refl in Hf. discriminate. }
  destruct (Levenshtein.closest (createComparableTorrent name)
              (JSObject.keys (searchMap (candidates env term))))
    as [key|] eqn:Hclosest.
  2:{ exfalso.
      destruct (NearestFacts.closest_defined (createComparableTorrent name)
                  (JSObject.keys (searchMap (candidates env term))))
        as [k Hk]; [|congruence].
      intros Hnil. rewrite Hnil in Hlisted. contradiction. }
  pose proof (LevenshteinFacts.closest_nearest _ _ _ Hclosest _ Hlisted)
    as Hnear.
  rewrite NearestFacts.levenshtein_refl in Hnear.
  assert (Hzero : Levenshtein.levenshtein (createComparableTorrent name) key
                  = 0) by lia.
  pose proof (NearestFacts.levenshtein_zero _ _ Hzero) as Hsame.
  destruct (resolve_with_candidate name term key w Hterm Hclosest)
    as [row (Hin & Hrow & ->)].
  exists row. split; [exact Hin|]. split; [congruence|].
  rewrite Hzero.
  pose proof (ceiling_not_negative
                (String.length (createComparableTorrent name))) as Hpos.
  change (inject_Z (Z.of_nat 0)) with 0%Q.
  replace (Qle_bool (0 - 2) (ceiling_of name)) with true
    by (symmetry; apply Qle_bool_iff; lra).
  replace (Qle_bool 0 (ceiling_of name)) with true
    by (symmetry; apply Qle_bool_iff; lra).
  reflexivity.
Qed.

(** Every candidate row puts its comparable name among the keys, the
    name [__proto__] apart. *)
Lemma candidate_key_listed (rows : list TorrentRow) (x : TorrentRow) :
  In x rows ->
  key_of x <> "__proto__" ->
  In (key_of x) (JSObject.keys (searchMap rows)).
Proof.
  intros Hx Hproto.
  apply SearchMapFacts.own_key_listed.
  destruct (JSObject.get (searchMap rows) (key_of x)) as [v|] eqn:Hv.
  - eapply SearchMapFacts.get_own_key. exact Hv.
  - exfalso. unfold searchMapOf in Hv.
    rewrite (searchMap_fold _ _ _ _ _ Hproto) in Hv.
    destruct (find (fun r => key_of r =? key_of x) (rev rows)) eqn:Hfind;
      [discriminate|].
    pose proof (find_none _ _ Hfind x (proj1 (in_rev _ x) Hx)) as Hf.
    simpl in Hf. rewrite String.eqb_refl in Hf. discriminate.
Qed.

(** X7. The metafile that [getTorrentByFuzzyName] returns belongs to a
    nearest candidate: no row like the search term has a comparable
    name nearer to the target key than the row whose stored file was
    decoded. *)
Theorem getTorrentByFuzzyName_nearest
    (name : string) (meta : Metafile) (w : World) :
  fst (resolve name w) = Returns (Some meta) ->
  exists (term : string) (row : TorrentRow),
    searchTerm name = Returns term
    /\ In row (candidates env term)
    /\ decoded_file Metafile decode env (row_file_path row) = Returns meta
    /\ forall x : TorrentRow,
         In x (candidates env term) ->
         key_of x <> "__proto__" ->
         Levenshtein.levenshtein (createComparableTorrent name) (key_of row)
         <= Levenshtein.levenshtein (createComparableTorrent name) (key_of x).
Proof.
  destruct (searchTerm name) as [term|e] eqn:Hterm.
  2:{ rewrite (resolve_without_term name e w Hterm). discriminate. }
  destruct (Levenshtein.closest (createComparableTorrent name)
              (JSObject.keys (searchMap (candidates env term))))
    as [key|] eqn:Hclosest.
  2:{ destruct (resolve_without_key name term w Hterm Hclosest) as [e ->].
      discriminate. }
  destruct (resolve_with_candidate name term key w Hterm Hclosest)
    as [row (Hin & Hkey & ->)].
  intros Hresult. exists term, row.
  destruct (Qle_bool (distance_to name key - 2)%Q (ceiling_of name));
    [|discriminate].
  destruct (Qle_bool (distance_to name key) (ceiling_of name));
    [|discriminate].
  simpl in Hresult. unfold accepted, cbind in Hresult.
  destruct (decoded_file Metafile decode env (row_file_path row))
    as [m|e] eqn:Hfile; [|discriminate].
  injection Hresult as ->.
  split; [reflexivity|]. split; [exact Hin|]. split; [reflexivity|].
  intros x Hx Hproto. rewrite Hkey.
  apply (LevenshteinFacts.closest_nearest _ _ _ Hclosest).
  now apply candidate_key_listed.
Qed.

(** X10. The ceiling lies between the configured threshold and the larger
    of the threshold and 8; it grows with the length of the key and
    stays at that larger value from length 80 on. *)
Theorem distanceMaxOf_bounds (L L' : nat) :
  (levenshtein_threshold env <= distanceMaxOf env L)%Q
  /\ (distanceMaxOf env L <= Qmax (levenshtein_threshold env) 8)%Q
  /\ (L <= L' -> (distanceMaxOf env L <= distanceMaxOf env L')%Q)
  /\ (80 <= L -> (distanceMaxOf env L == Qmax (levenshtein_threshold env) 8)%Q).
Proof.
  unfold distanceMaxOf. repeat split.
  - apply Q.le_max_l.
  - apply Q.max_le_compat_l, Q.le_min_r.
  - intros HL. apply Q.max_le_compat_l, Q.min_le_compat_r.
    apply Qmult_le_l; [reflexivity|].
    rewrite <- Zle_Qle. lia.
  - intros HL. rewrite (Q.min_r ((1 # 10) * inject_Z (Z.of_nat L)) 8);
      [reflexivity|].
    assert (H80 : (inject_Z 80 <= inject_Z (Z.of_nat L))%Q)
      by (rewrite <- Zle_Qle; lia).
    change (inject_Z 80) with 80%Q in H80. lra.
Qed.

End FuzzyMore.

(** ** The remote fetch classifier, continued *)

Section FetchMore.

Variable Metafile : Type.
Variable decode : string -> Completion Metafile.
Variable USER_AGENT : string.
Variable env : Env.

Local Abbreviation snatch :=
  (parseTorrentFromURL Metafile decode USER_AGENT env).
Local Abbreviation classify := (classifyResponse Metafile decode).
Local Abbreviation exchange url := (network env (request_for USER_AGENT url)).
Local Abbreviation run := (parseTorrentFromURL_run Metafile decode USER_AGENT env).
Local Abbreviation classified := (classifyResponse_run Metafile decode).

(** X13. When the timer is due no later than the request settles, the call
    returns [ABORTED], whatever the network would have answered; the
    timer has fired and is gone, and one error line tells of the
    timeout. *)
Theorem parseTorrentFromURL_timeout (url : string) (ms : Z) (w : World) :
  snatchTimeout env = Some ms ->
  (clamp_delay ms <= latency (exchange url))%Z ->
  fst (snatch url w) = Returns (Err ABORTED)
  /\ disarmed (snd (snatch url w)) (next_timer w)
  /\ logs (snd (snatch url w))
     = (logs w ++ [(error, Text ("snatching " ++ url ++ " timed out"))])%list.
Proof.
  intros Hms Hdue.
  assert (Hby : due_by env (latency (exchange url)) = true).
  { unfold due_by. rewrite Hms. now apply Z.leb_le. }
  rewrite run, Hby. cbn [fst snd]. split; [reflexivity|]. split.
  - unfold disarmed. rewrite pending_logged.
    now apply (fired_signal_is_gone env ms).
  - unfold logged. cbn [logs].
    now rewrite abort_logs, after_arming_logs.
Qed.

(** X14. A failure of the transport before the timeout, one that is no
    abort, is [UNKNOWN_ERROR]; the cause goes to the log, at debug
    level, after one error line. *)
Theorem parseTorrentFromURL_transport_error
    (url : string) (e : Exn) (w : World) :
  settlement (exchange url) = TransportError e ->
  settles_before_timeout USER_AGENT env url ->
  exn_name e <> "AbortError" ->
  fst (snatch url w) = Returns (Err UNKNOWN_ERROR)
  /\ logs (snd (snatch url w))
     = (logs w ++ [(error, Text ("failed to access " ++ url));
                   (debug, Thrown e)])%list.
Proof.
  intros He Hlate Hname.
  rewrite run, (settled_in_time _ _ url Hlate), He.
  destruct (String.eqb_spec (exn_name e) "AbortError"); [contradiction|].
  split; [reflexivity|].
  unfold logged. cbn [snd logs]. now rewrite after_arming_logs.
Qed.

(** X15. An exception leaves [parseTorrentFromURL] exactly when the
    request settles with a response that takes the call to line 85, the
    read of the body of an error page outside of any [try], and that
    read fails: the timer is due before the body has ended and the
    exception is the [AbortError] of the signal, or else the body
    itself fails and the exception is its error. *)
Theorem parseTorrentFromURL_throws_iff (url : string) (e : Exn) (w : World) :
  fst (snatch url w) = Throws e
  <-> exists r : Response,
        settles_with USER_AGENT env url r
        /\ reads_error_body r = true
        /\ if due_by env (body_latency r)
           then e = AbortError
           else body r = Throws e.
Proof.
  split.
  - destruct (timed_out_or_settled USER_AGENT env url)
      as [Hlate|[ms [Hms Hdue]]].
    + rewrite run, (settled_in_time _ _ url Hlate).
      destruct (settlement (exchange url)) as [e'|r] eqn:Hr.
      * destruct (exn_name e' =? "AbortError"); discriminate.
      * rewrite classified, due_after_arming.
        unfold reads_error_body, answered_by_headers.
        intros Hthrows. exists r. split; [split; assumption|].
        destruct (JSString.startsWith (JSString.toString (status r)) "3"
                  && match headers_get (headers r) "location" with
                     | Some location =>
                         JSString.startsWith location "magnet:"
                     | None => false
                     end); [discriminate|].
        destruct (status r =? 429)%N; [discriminate|].
        destruct (negb (ok r)).
        { split; [reflexivity|].
          destruct (due_by env (body_latency r)).
          - cbn in Hthrows. congruence.
          - destruct (body r); cbn in Hthrows; congruence. }
        destruct (content_type_is_rss r).
        { destruct (due_by env (body_latency r)); [discriminate|].
          destruct (body r) as [text|e']; [|discriminate].
          destruct (clone_drains r); [|discriminate].
          destruct (JSString.includes text "429"); discriminate. }
        destruct (due_by env (body_latency r)); [discriminate|].
        destruct (cbind (body r) decode); discriminate.
    + assert (Hby : due_by env (latency (exchange url)) = true).
      { unfold due_by. rewrite Hms. now apply Z.leb_le. }
      rewrite run, Hby. discriminate.
  - intros [r [[Hr Hlate] [Hreads Hfails]]].
    rewrite run, (settled_in_time _ _ url Hlate), Hr, classified,
      due_after_arming.
    unfold reads_error_body, answered_by_headers in Hreads.
    destruct (JSString.startsWith (JSString.toString (status r)) "3"
              && match headers_get (headers r) "location" with
                 | Some location => JSString.startsWith location "magnet:"
                 | None => false
                 end); [discriminate|].
    destruct (status r =? 429)%N; [discriminate|].
    destruct (negb (ok r)); [|discriminate].
    destruct (due_by env (body_latency r)).
    + now rewrite Hfails.
    + now rewrite Hfails.
Qed.

(** X16. A metafile comes out of [parseTorrentFromURL] only from a response
    that settled before the timeout, has a status from 200 to 299, does
    not declare [application/rss+xml], and whose body was read and
    decoded to that metafile. *)
Theorem parseTorrentFromURL_metafile_origin
    (url : string) (meta : Metafile) (w : World) :
  fst (snatch url w) = Returns (Ok meta) ->
  exists (r : Response) (content : string),
    settles_with USER_AGENT env url r
    /\ (200 <= status r < 300)%N
    /\ headers_get (headers r) "Content-Type" <> Some "application/rss+xml"
    /\ body r = Returns content
    /\ decode content = Returns meta.
Proof.
  destruct (timed_out_or_settled USER_AGENT env url)
    as [Hlate|[ms [Hms Hdue]]].
  - rewrite run, (settled_in_time _ _ url Hlate).
    destruct (settlement (exchange url)) as [e'|r] eqn:Hr.
    + destruct (exn_name e' =? "AbortError"); discriminate.
    + rewrite classified, due_after_arming.
      destruct (JSString.startsWith (JSString.toString (status r)) "3"
                && match headers_get (headers r) "location" with
                   | Some location => JSString.startsWith location "magnet:"
                   | None => false
                   end); [discriminate|].
      destruct (status r =? 429)%N; [discriminate|].
      destruct (negb (ok r)) eqn:Hok.
      { destruct (due_by env (body_latency r)); [discriminate|].
        destruct (body r); discriminate. }
      destruct (content_type_is_rss r) eqn:Hrss.
      { destruct (due_by env (body_latency r)); [discriminate|].
        destruct (body r) as [text|e']; [|discriminate].
        destruct (clone_drains r); [|discriminate].
        destruct (JSString.includes text "429"); discriminate. }
      destruct (due_by env (body_latency r)); [discriminate|].
      unfold cbind.
      destruct (body r) as [content|e'] eqn:Hbody; [|discriminate].
      destruct (decode content) as [m|e'] eqn:Hdecode; [|discriminate].
      intros [= ->]. exists r, content.
      split; [split; assumption|].
      split.
      { apply negb_false_iff in Hok. unfold ok in Hok.
        apply andb_true_iff in Hok. destruct Hok as [H1 H2].
        apply N.leb_le in H1. apply N.ltb_lt in H2. lia. }
      split; [|split; assumption].
      intros Hct. unfold content_type_is_rss in Hrss.
      rewrite Hct in Hrss. discriminate.
  - assert (Hby : due_by env (latency (exchange url)) = true).
    { unfold due_by. rewrite Hms. now apply Z.leb_le. }
    rewrite run, Hby. discriminate.
Qed.

(** X17. Without a configured timeout [parseTorrentFromURL] arms no timer:
    the pending timers are after the call what they were before. *)
Theorem parseTorrentFromURL_without_timeout (url : string) (w : World) :
  snatchTimeout env = None ->
  timers (snd (snatch url w)) = timers w
  /\ next_timer (snd (snatch url w)) = next_timer w.
Proof.
  intros Hnone.
  assert (Hby : forall t, due_by env t = false)
    by (intros t; unfold due_by; now rewrite Hnone).
  assert (Hw : after_arming env w = w)
    by (unfold after_arming; now rewrite Hnone).
  assert (Hsignal : armed_signal env w = None)
    by (unfold armed_signal; now rewrite Hnone).
  rewrite run, Hby, Hw, Hsignal.
  destruct (settlement (exchange url)) as [e|r].
  - destruct (exn_name e =? "AbortError"); split; reflexivity.
  - rewrite classified. cbn [due].
    destruct (JSString.startsWith (JSString.toString (status r)) "3"
              && match headers_get (headers r) "location" with
                 | Some location => JSString.startsWith location "magnet:"
                 | None => false
                 end); [split; reflexivity|].
    destruct (status r =? 429)%N; [split; reflexivity|].
    destruct (negb (ok r)).
    { destruct (body r); split; reflexivity. }
    destruct (content_type_is_rss r).
    { destruct (body r) as [text|e]; [|split; reflexivity].
      destruct (clone_drains r); [|split; reflexivity].
      destruct (JSString.includes text "429"); split; reflexivity. }
    destruct (cbind (body r) decode); split; reflexivity.
Qed.

(** X30. The promise of [parseTorrentFromURL] can stay pending for
    ever.  When the request settles with a feed (an [ok] response
    whose [Content-Type] is exactly [application/rss+xml], no magnet
    redirect, not 429) and the body of the feed fails or does not get
    through the tee of [clone()], the read of line 88 never comes
    back: the call neither returns nor throws, nothing is logged and
    the timer is left as it was armed.  (The timer is taken not to be
    due before the body has ended.) *)
Theorem parseTorrentFromURL_feed_never_settles
    (url : string) (r : Response) (w : World) :
  settles_with USER_AGENT env url r ->
  reads_feed_clone r = true ->
  due_by env (body_latency r) = false ->
  returned (body r) = false \/ clone_drains r = false ->
  snatch url w = (NeverSettles, after_arming env w).
Proof.
  intros [Hr Hlate] Hreads Hdue Hbody.
  rewrite run, (settled_in_time _ _ url Hlate), Hr, classified,
    due_after_arming, Hdue.
  unfold reads_feed_clone, answered_by_headers in Hreads.
  destruct (JSString.startsWith (JSString.toString (status r)) "3"
            && match headers_get (headers r) "location" with
               | Some location => JSString.startsWith location "magnet:"
               | None => false
               end); [discriminate|].
  destruct (status r =? 429)%N; [discriminate|].
  destruct (ok r); [|discriminate].
  cbn [negb andb orb] in *. rewrite Hreads.
  destruct (body r) as [text|e]; [|reflexivity].
  destruct Hbody as [Hbody|Hbody]; [discriminate|].
  now rewrite Hbody.
Qed.

End FetchMore.

(** ** File name extensions *)

Module ExtnameFacts.

Import NodePath.

Lemma chars_append (s t : string) :
  list_ascii_of_string (s ++ t)
  = (list_ascii_of_string s ++ list_ascii_of_string t)%list.
Proof. induction s as [|c s IH]; simpl; [reflexivity | now rewrite IH]. Qed.

Lemma chars_length (s : string) :
  List.length (list_ascii_of_string s) = String.length s.
Proof. induction s as [|c s IH]; simpl; congruence. Qed.

Lemma substring_append_right (s t : string) :
  substring (String.length s) (String.length t) (s ++ t) = t.
Proof.
  induction s as [|c s IH]; simpl; [|exact IH].
  induction t as [|d t IHt]; simpl; [reflexivity|].
  destruct t; simpl in *; congruence.
Qed.

Lemma substring_split (j : nat) (s : string) :
  j <= String.length s ->
  s = substring 0 j s ++ substring j (String.length s - j) s.
Proof.
  revert j. induction s as [|c s IH]; intros j Hj.
  - destruct j; reflexivity.
  - destruct j as [|j]; simpl.
    + f_equal. clear. induction s as [|d s IH]; simpl; [reflexivity|].
      f_equal. exact IH.
    + f_equal. apply IH. simpl in Hj. lia.
Qed.

Lemma substring_prefix_length (j : nat) (s : string) :
  j <= String.length s -> String.length (substring 0 j s) = j.
Proof.
  revert j. induction s as [|c s IH]; intros [|j] Hj; simpl in *;
    try reflexivity; try lia.
  f_equal. apply IH. lia.
Qed.

(** Once the dot and the end of the extension are found and a
    character before the dot was seen, the rest of the loop changes
    neither. *)
Lemma loop_after_dot (rest : list ascii) (st : Scan) :
  startDot st <> None -> endAt st <> None -> matchedSlash st = false ->
  preDotState st <> 0%Z ->
  startDot (extname_loop rest st) = startDot st
  /\ endAt (extname_loop rest st) = endAt st
  /\ preDotState (extname_loop rest st) <> 0%Z.
Proof.
  revert st. induction rest as [|c rest IH]; intros st Hsd He Hms Hpd.
  - simpl. auto.
  - destruct st as [sd sp e ms pd]. simpl in *. subst ms.
    destruct sd as [sd|]; [|contradiction].
    destruct e as [e|]; [|contradiction].
    destruct (c =? "/")%char; simpl; [auto|].
    unfold visit. simpl.
    destruct (c =? ".")%char; simpl.
    + destruct (pd =? 1)%Z eqn:Hone; simpl.
      * apply (IH (mkScan (Some sd) sp (Some e) false pd));
          simpl; congruence.
      * destruct (IH (mkScan (Some sd) sp (Some e) false 1)) as (H1 & H2 & H3);
          simpl; try congruence; try lia. auto.
    + destruct (IH (mkScan (Some sd) sp (Some e) false (-1))) as (H1 & H2 & H3);
        simpl; try congruence; try lia. auto.
Qed.

Lemma loop_visit (c : ascii) (before : list ascii) (st : Scan) :
  (c =? "/")%char = false ->
  extname_loop (c :: before) st
  = extname_loop before (visit c (List.length before) st).
Proof. intros H. simpl. now rewrite H. Qed.

Ltac visit_next :=
  rewrite loop_visit by reflexivity;
  cbv [visit endAt startDot startPart matchedSlash preDotState scan_start
       Ascii.eqb Bool.eqb andb negb Z.eqb Pos.eqb].

(** A name that ends in [.torrent] after a character that is no slash
    has the extension [.torrent]. *)
Lemma extname_of_torrent (stem : string) (c : ascii) :
  c <> "/"%char ->
  extname ((stem ++ String c "") ++ ".torrent") = ".torrent".
Proof.
  intros Hc. unfold extname.
  rewrite (chars_append (stem ++ String c "") ".torrent"),
    (chars_append stem (String c "")).
  rewrite (rev_app_distr (list_ascii_of_string stem ++ _)%list),
    (rev_app_distr (list_ascii_of_string stem)).
  set (R := rev (list_ascii_of_string stem)).
  cbn [list_ascii_of_string rev app].
  assert (Hslash : (c =? "/")%char = false) by now apply Ascii.eqb_neq.
  do 8 visit_next.
  rewrite (loop_visit c R _ Hslash).
  set (st9 := visit c _ _).
  assert (Hst9 : startDot st9 = Some (S (List.length R))
                 /\ endAt st9 = Some (List.length R + 9)
                 /\ matchedSlash st9 = false
                 /\ preDotState st9 <> 0%Z).
  { unfold st9, visit. cbn [endAt startDot startPart matchedSlash preDotState].
    destruct (c =? ".")%char; cbn; repeat split; try discriminate;
      f_equal; lia. }
  destruct Hst9 as (Hsd9 & He9 & Hms9 & Hpd9).
  destruct (loop_after_dot R st9) as (Hsd & He & Hpd); try congruence.
  unfold extname_result. rewrite Hsd, He, Hsd9, He9.
  destruct (Z.eqb_spec (preDotState (extname_loop R st9)) 0) as [H0|H0];
    [contradiction|].
  replace (S (List.length R) =? List.length R + 9 - 1)%nat with false
    by (symmetry; apply Nat.eqb_neq; lia).
  rewrite andb_false_r. cbn [orb andb].
  replace (S (List.length R)) with (String.length (stem ++ String c "")).
  - replace (List.length R + 9 - String.length (stem ++ String c ""))
      with (String.length ".torrent").
    + apply substring_append_right.
    + unfold R. rewrite length_rev, chars_length.
      rewrite length_append. simpl. lia.
  - unfold R. rewrite length_rev, chars_length.
    rewrite length_append. simpl. lia.
Qed.

(** On a name without slash and of length [n], the loop puts the end
    of the extension at [n], and a dot that it keeps has a character
    before it whenever one was seen. *)
Lemma loop_no_slash (n : nat) (rest : list ascii) (st : Scan) :
  Forall (fun c => c <> "/"%char) rest ->
  List.length rest <= n ->
  (endAt st = None -> List.length rest = n /\ startDot st = None) ->
  (forall e, endAt st = Some e -> e = n) ->
  (startDot st = None -> preDotState st = 0%Z) ->
  (forall j, startDot st = Some j ->
             List.length rest <= j < n
             /\ (preDotState st <> 0%Z -> List.length rest < j)) ->
  (forall e, endAt (extname_loop rest st) = Some e -> e = n)
  /\ (forall j, startDot (extname_loop rest st) = Some j ->
                j < n /\ (preDotState (extname_loop rest st) <> 0%Z -> 0 < j)).
Proof.
  revert st. induction rest as [|c rest IH];
    intros st Hrest Hlen Hnone Hend Hpre Hdot.
  - simpl. split; [exact Hend|].
    intros j Hj. destruct (Hdot j Hj) as [H1 H2]. simpl in *. split; [lia|].
    intros H. specialize (H2 H). lia.
  - inversion Hrest as [|c' rest' Hc Hrest']; subst.
    rewrite loop_visit by now apply Ascii.eqb_neq.
    simpl in Hlen, Hnone, Hdot.
    destruct st as [sd sp e ms pd]. simpl in *.
    apply IH; try assumption; try lia; unfold visit; simpl;
      destruct e as [e|]; destruct sd as [sd|]; simpl;
      destruct (c =? ".")%char; simpl;
      try destruct (pd =? 1)%Z eqn:Hone; simpl;
      try (intros; discriminate);
      try (intros ? [= <-]);
      try (destruct (Hnone eq_refl) as [? ?]; discriminate);
      try (destruct (Hnone eq_refl) as [? ?]);
      try (pose proof (Hend _ eq_refl));
      try (destruct (Hdot _ eq_refl) as [? ?]);
      try (pose proof (Hpre eq_refl));
      try (repeat split; intros; try discriminate; lia).
Qed.

(** A name without slash has the extension [.torrent] only if it ends
    in [.torrent] after at least one character. *)
Lemma extname_torrent_only (fn : string) :
  no_slash fn ->
  extname fn = ".torrent" ->
  exists stem, stem <> "" /\ fn = stem ++ ".torrent".
Proof.
  intros Hfn. unfold extname.
  set (st := extname_loop (rev (list_ascii_of_string fn)) scan_start).
  destruct (loop_no_slash (String.length fn) (rev (list_ascii_of_string fn))
              scan_start) as [Hend Hdot].
  - apply Forall_rev. exact Hfn.
  - rewrite length_rev, chars_length. lia.
  - intros _. rewrite length_rev, chars_length. auto.
  - discriminate.
  - reflexivity.
  - discriminate.
  - fold st in Hend, Hdot. unfold extname_result.
    destruct (startDot st) as [j|]; [|discriminate].
    destruct (endAt st) as [e|]; [|discriminate].
    rewrite (Hend e eq_refl).
    destruct (Hdot j eq_refl) as [Hj Hpos].
    destruct (Z.eqb_spec (preDotState st) 0) as [H0|H0]; [discriminate|].
    cbn [orb].
    destruct ((preDotState st =? 1)%Z && (j =? String.length fn - 1)%nat
              && (j =? startPart st + 1)%nat); [discriminate|].
    intros Hsub. exists (substring 0 j fn). split.
    + intros Hempty.
      pose proof (substring_prefix_length j fn (Nat.lt_le_incl _ _ Hj)) as Hl.
      rewrite Hempty in Hl. simpl in Hl. specialize (Hpos H0). lia.
    + rewrite <- Hsub. apply substring_split. lia.
Qed.

End ExtnameFacts.

(** ** The torrent directory *)

Module EntryFacts.

Import JSStringFacts ExtnameFacts.

Lemma string_last (s : string) :
  s <> "" -> exists s' c, s = s' ++ String c "".
Proof.
  induction s as [|c s IH]; [contradiction|]. intros _.
  destruct s as [|d s].
  - exists "", c. reflexivity.
  - destruct IH as (s' & c' & Hs); [discriminate|].
    exists (String c s'), c'. simpl. now rewrite <- Hs.
Qed.

Lemma extname_torrent_iff (fn : string) :
  no_slash fn ->
  NodePath.extname fn = ".torrent"
  <-> exists stem, stem <> "" /\ fn = stem ++ ".torrent".
Proof.
  intros Hfn. split; [now apply extname_torrent_only|].
  intros (stem & Hstem & ->).
  destruct (string_last stem Hstem) as (s' & c & ->).
  apply extname_of_torrent.
  unfold no_slash in Hfn. rewrite !chars_append in Hfn.
  apply Forall_app in Hfn. destruct Hfn as [Hfn _].
  apply Forall_app in Hfn. destruct Hfn as [_ Hc].
  simpl in Hc. now inversion Hc.
Qed.

Lemma filter_permutation {A : Type} (p : A -> bool) (l1 l2 : list A) :
  Permutation l1 l2 -> Permutation (filter p l1) (filter p l2).
Proof.
  induction 1 as [|x l1 l2 H IH|x y l|l1 l2 l3 H1 IH1 H2 IH2]; simpl.
  - apply perm_nil.
  - destruct (p x); [apply perm_skip|]; exact IH.
  - destruct (p x), (p y); try apply Permutation_refl. apply perm_swap.
  - eapply perm_trans; eassumption.
Qed.

(** The torrent files among the entries of a directory do not depend on
    the order in which the directory gives its entries. *)
Lemma torrent_entries_permutation (entries1 entries2 : list string) :
  Permutation entries1 entries2 ->
  torrent_entries entries1 = torrent_entries entries2.
Proof.
  intros H. unfold torrent_entries.
  apply sort_permutation, filter_permutation, H.
Qed.

Lemma torrent_entries_In (entries : list string) (fn : string) :
  In fn (torrent_entries entries)
  <-> In fn entries /\ NodePath.extname fn = ".torrent".
Proof.
  unfold torrent_entries. split.
  - intros H. apply (Permutation_in _ (sort_perm _)) in H.
    apply filter_In in H. destruct H as [H1 H2].
    split; [exact H1 | now apply String.eqb_eq].
  - intros [H1 H2].
    apply (Permutation_in _ (Permutation_sym (sort_perm _))).
    apply filter_In. split; [exact H1 | now apply String.eqb_eq].
Qed.

End EntryFacts.

Section DirectoryFacts.

Variable path_join : string -> string -> string.
Variable path_resolve : string -> string.
Variable CrossSeedError : string -> Exn.
Variables Searchee SearcheeError : Type.
Variable createSearcheeFromTorrentFile
  : string -> Completion (Result Searchee SearcheeError).
Variable thrown_error : SearcheeError -> Exn.
Variable torrentDir : string.

(** X20. [findAllTorrentFilesInDir] lists, for the entries of the directory
    that end in [.torrent] after at least one character, and for them
    only, the resolved path of the entry in the directory. *)
Theorem findAllTorrentFilesInDir_lists
    (readdir : string -> Completion (list string)) (entries : list string) :
  readdir torrentDir = Returns entries ->
  Forall no_slash entries ->
  exists files : list string,
    findAllTorrentFilesInDir path_join path_resolve readdir torrentDir
    = Returns files
    /\ forall p : string,
         In p files
         <-> exists stem : string,
               stem <> ""
               /\ In (stem ++ ".torrent") entries
               /\ p = path_resolve (path_join torrentDir (stem ++ ".torrent")).
Proof.
  intros Hdir Hentries. unfold findAllTorrentFilesInDir, cbind.
  rewrite Hdir. eexists. split; [reflexivity|].
  intros p. rewrite in_map_iff. split.
  - intros (fn & <- & Hfn). apply EntryFacts.torrent_entries_In in Hfn.
    destruct Hfn as [Hin Hext].
    apply EntryFacts.extname_torrent_iff in Hext.
    + destruct Hext as (stem & Hstem & ->). exists stem. auto.
    + rewrite Forall_forall in Hentries. auto.
  - intros (stem & Hstem & Hin & ->). exists (stem ++ ".torrent").
    split; [reflexivity|].
    apply EntryFacts.torrent_entries_In. split; [exact Hin|].
    apply EntryFacts.extname_torrent_iff; [|eauto].
    rewrite Forall_forall in Hentries. auto.
Qed.

(** X21. The listing is in ascending order of the entry names whatever the
    order in which the directory gives them: two readings of the same
    entries in different orders list the same files in the same
    order. *)
Theorem findAllTorrentFilesInDir_order
    (readdir1 readdir2 : string -> Completion (list string))
    (entries1 entries2 : list string) :
  readdir1 torrentDir = Returns entries1 ->
  readdir2 torrentDir = Returns entries2 ->
  Permutation entries1 entries2 ->
  findAllTorrentFilesInDir path_join path_resolve readdir1 torrentDir
  = findAllTorrentFilesInDir path_join path_resolve readdir2 torrentDir
  /\ exists names : list string,
       StronglySorted JSString.le names
       /\ findAllTorrentFilesInDir path_join path_resolve readdir1 torrentDir
          = Returns (map (fun fn => path_resolve (path_join torrentDir fn))
                         names).
Proof.
  intros H1 H2 HP. unfold findAllTorrentFilesInDir, cbind.
  rewrite H1, H2, (EntryFacts.torrent_entries_permutation _ _ HP).
  split; [reflexivity|].
  exists (torrent_entries entries2). split; [|reflexivity].
  apply JSStringFacts.sort_sorted.
Qed.

End DirectoryFacts.

(** ** The index *)

Module TableFacts.

Lemma array_includes_In (l : list string) (x : string) :
  array_includes l x = true <-> In x l.
Proof.
  unfold array_includes. rewrite existsb_exists. split.
  - intros (y & Hy & Heq). apply String.eqb_eq in Heq. now subst.
  - intros H. exists x. split; [exact H | apply String.eqb_refl].
Qed.

Lemma has_path_In (t : list TorrentRow) (fp : string) :
  existsb (fun r => row_file_path r =? fp) t = true
  <-> In fp (map row_file_path t).
Proof.
  rewrite existsb_exists, in_map_iff. split.
  - intros (r & Hr & Heq). exists r. split; [now apply String.eqb_eq | exact Hr].
  - intros (r & Heq & Hr). exists r. split; [exact Hr | now apply String.eqb_eq].
Qed.

Lemma first_by_path (t : list TorrentRow) (fp : string) :
  first (run_query (where_eq [] col_file_path fp) t)
  = find (fun r => row_file_path r =? fp) t.
Proof.
  unfold first, run_query, where_eq. simpl.
  induction t as [|r t IH]; simpl; [reflexivity|].
  rewrite andb_true_r. destruct (row_file_path r =? fp); [reflexivity | exact IH].
Qed.

Lemma find_existsb {A : Type} (p : A -> bool) (l : list A) :
  existsb p l = match find p l with Some _ => true | None => false end.
Proof.
  induction l as [|x l IH]; simpl; [reflexivity|].
  destruct (p x); [reflexivity | exact IH].
Qed.

Lemma kept_rows_unique {Row Key : Type} (key : Row -> Key)
    (keep : Row -> bool) (rows : list Row) :
  NoDup (map key rows) -> NoDup (map key (filter keep rows)).
Proof.
  intros Hunique. induction rows as [|r rows IH]; simpl; [constructor|].
  simpl in Hunique. apply NoDup_cons_iff in Hunique.
  destruct Hunique as [Hfresh Hrest].
  destruct (keep r); simpl; [|now apply IH].
  apply NoDup_cons; [|now apply IH].
  intros Hin. apply Hfresh. apply in_map_iff in Hin.
  destruct Hin as (z & Hz & Hin). apply filter_In in Hin.
  apply in_map_iff. exists z. tauto.
Qed.

Lemma filter_idempotent {A : Type} (p : A -> bool) (l : list A) :
  filter p (filter p l) = filter p l.
Proof.
  induction l as [|x l IH]; simpl; [reflexivity|].
  destruct (p x) eqn:Hx; simpl; [rewrite Hx; f_equal|]; exact IH.
Qed.

End TableFacts.

Section IndexFacts.

Variable Metafile : Type.
Variable decode : string -> Completion Metafile.
Variables meta_infoHash meta_name : Metafile -> string.
Variable path_join : string -> string -> string.
Variable path_resolve : string -> string.
Variable readdir : string -> Completion (list string).
Variable logOnce : string -> M unit -> World -> World.
Variable torrentDir : string.
Variable env : Env.

Local Abbreviation index :=
  (indexNewTorrents Metafile decode meta_infoHash meta_name path_join
     path_resolve readdir logOnce torrentDir env).
Local Abbreviation index_one :=
  (index_file Metafile decode meta_infoHash meta_name logOnce env).
Local Abbreviation listing :=
  (findAllTorrentFilesInDir path_join path_resolve readdir torrentDir).
Local Abbreviation file_of fp := (decoded_file Metafile decode env fp).
Local Abbreviation has_path t fp :=
  (existsb (fun r : TorrentRow => row_file_path r =? fp) t).
Local Abbreviation row_of fp meta :=
  (mkRow fp (meta_infoHash meta) (meta_name meta)).

(** One file: a path that the table has is left alone, a file that
    does not decode is left out, a file that decodes gets a row at the
    end. *)
Lemma index_file_table (t : list TorrentRow) (w : World) (fp : string) :
  fst (index_one (t, w) fp)
  = if has_path t fp then t
    else match file_of fp with
         | Returns meta => (t ++ [row_of fp meta])%list
         | Throws _ => t
         end.
Proof.
  unfold index_file. rewrite TableFacts.first_by_path, TableFacts.find_existsb.
  destruct (find (fun r => row_file_path r =? fp) t) eqn:Hfind; [reflexivity|].
  rewrite parseTorrentFromFilename_result.
  destruct (file_of fp) as [meta|e]; [|reflexivity].
  unfold insert_or_ignore. cbn [row_file_path fst].
  rewrite TableFacts.find_existsb, Hfind. reflexivity.
Qed.

(** The loop over the files of the directory: the table grows at its
    end by the rows of the files that were not there and that decode. *)
Lemma index_files (l : list string) (t : list TorrentRow) (w : World) :
  exists (added : list TorrentRow) (w' : World),
    fold_left index_one l (t, w) = ((t ++ added)%list, w')
    /\ (forall row, In row added ->
          In (row_file_path row) l
          /\ has_path t (row_file_path row) = false
          /\ exists meta, file_of (row_file_path row) = Returns meta
                          /\ row = row_of (row_file_path row) meta)
    /\ (forall fp, In fp l ->
          has_path (t ++ added)%list fp = true
          \/ exists e, file_of fp = Throws e)
    /\ (NoDup (map row_file_path t) ->
        NoDup (map row_file_path (t ++ added)%list)).
Proof.
  revert t w. induction l as [|fp l IH]; intros t w.
  - exists [], w. rewrite app_nil_r. simpl. repeat split; tauto.
  - cbn [fold_left].
    pose proof (index_file_table t w fp) as Hstep.
    destruct (index_one (t, w) fp) as [t1 w1]. cbn [fst] in Hstep.
    destruct (IH t1 w1) as (added & w' & Hfold & Hadded & Hall & Hnodup).
    destruct (has_path t fp) eqn:Hhas; [|destruct (file_of fp) as [meta|e] eqn:Hfile];
      subst t1.
    + exists added, w'. split; [exact Hfold|]. split; [|split].
      * intros row Hrow. destruct (Hadded row Hrow) as (H1 & H2 & H3).
        split; [now right | auto].
      * intros fp' [<-|Hin]; [|auto].
        left. rewrite existsb_app, Hhas. reflexivity.
      * exact Hnodup.
    + exists (row_of fp meta :: added), w'.
      rewrite <- app_assoc in Hfold. split; [exact Hfold|]. split; [|split].
      * intros row [<-|Hrow].
        { cbn [row_file_path]. split; [now left|]. split; [exact Hhas|].
          exists meta. auto. }
        destruct (Hadded row Hrow) as (H1 & H2 & H3).
        split; [now right|]. split; [|exact H3].
        rewrite existsb_app in H2. now apply orb_false_iff in H2.
      * intros fp' [<-|Hin].
        { left. rewrite existsb_app. cbn [existsb row_file_path].
          rewrite String.eqb_refl. now rewrite orb_true_r. }
        rewrite <- app_assoc in Hall. auto.
      * intros Ht. rewrite <- app_assoc in Hnodup. apply Hnodup.
        rewrite map_app. cbn [map row_file_path].
        assert (Hnot : ~ In fp (map row_file_path t)).
        { intros Hin. apply TableFacts.has_path_In in Hin. congruence. }
        clear - Ht Hnot. induction t as [|r t IHt]; simpl.
        { constructor; [intros [] | constructor]. }
        inversion Ht; subst. constructor.
        { rewrite in_app_iff. simpl. intros [H|[H|[]]]; [auto|].
          apply Hnot. now left. }
        apply IHt; [assumption|]. intros H. apply Hnot. now right.
    + exists added, w'. split; [exact Hfold|]. split; [|split].
      * intros row Hrow. destruct (Hadded row Hrow) as (H1 & H2 & H3).
        split; [now right | auto].
      * intros fp' [<-|Hin]; [right; eauto | auto].
      * exact Hnodup.
Qed.

Local Abbreviation files_of entries :=
  (map (fun fn => path_resolve (path_join torrentDir fn))
       (torrent_entries entries)).

(** A run of [indexNewTorrents] over a directory that can be read. *)
Lemma index_run (entries : list string) (t : list TorrentRow) (w : World) :
  readdir torrentDir = Returns entries ->
  exists (added : list TorrentRow) (w' : World),
    index (t, w)
    = (Returns tt,
       (delete_where_not_in (files_of entries) (t ++ added)%list, w'))
    /\ (forall row, In row added ->
          In (row_file_path row) (files_of entries)
          /\ has_path t (row_file_path row) = false
          /\ exists meta, file_of (row_file_path row) = Returns meta
                          /\ row = row_of (row_file_path row) meta)
    /\ (forall fp, In fp (files_of entries) ->
          has_path (t ++ added)%list fp = true
          \/ exists e, file_of fp = Throws e)
    /\ (NoDup (map row_file_path t) ->
        NoDup (map row_file_path (t ++ added)%list)).
Proof.
  intros Hdir.
  destruct (index_files (files_of entries) t w)
    as (added & w' & Hfold & Hrest).
  exists added, w'. split; [|exact Hrest].
  unfold indexNewTorrents, findAllTorrentFilesInDir, cbind.
  rewrite Hdir, Hfold. reflexivity.
Qed.

(** X22. After [indexNewTorrents] the index holds exactly the rows it held
    for files that are still listed, unchanged, and one new row, with
    the hash and the name of the metafile, for every listed file that
    it had no row for and that decodes. *)
Theorem indexNewTorrents_table
    (entries : list string) (t : list TorrentRow) (w : World)
    (row : TorrentRow) :
  readdir torrentDir = Returns entries ->
  In row (fst (snd (index (t, w))))
  <-> In (row_file_path row) (files_of entries)
      /\ (In row t
          \/ (has_path t (row_file_path row) = false
              /\ exists meta, file_of (row_file_path row) = Returns meta
                              /\ row = row_of (row_file_path row) meta)).
Proof.
  intros Hdir.
  destruct (index_run entries t w Hdir)
    as (added & w' & -> & Hadded & Hall & _).
  cbn [fst snd]. unfold delete_where_not_in.
  rewrite filter_In, TableFacts.array_includes_In, in_app_iff.
  split.
  - intros [[Hin|Hin] Hlisted]; (split; [exact Hlisted|]); [now left|].
    right. destruct (Hadded row Hin) as (_ & H2 & H3). auto.
  - intros [Hlisted [Hin|(Hnew & meta & Hfile & Hrow)]];
      (split; [|exact Hlisted]); [now left|].
    right. destruct (Hall _ Hlisted) as [Hhas|[e He]]; [|congruence].
    rewrite existsb_app, Hnew in Hhas. cbn [orb] in Hhas.
    apply existsb_exists in Hhas. destruct Hhas as (row' & Hin' & Heq).
    apply String.eqb_eq in Heq.
    destruct (Hadded row' Hin') as (_ & _ & meta' & Hfile' & Hrow').
    rewrite Heq in Hfile', Hrow'.
    assert (meta' = meta) by congruence. subst meta'.
    rewrite Hrow. now rewrite <- Hrow'.
Qed.

(** X23. The file paths of the index stay pairwise different. *)
Theorem indexNewTorrents_unique_paths
    (entries : list string) (t : list TorrentRow) (w : World) :
  readdir torrentDir = Returns entries ->
  NoDup (map row_file_path t) ->
  NoDup (map row_file_path (fst (snd (index (t, w))))).
Proof.
  intros Hdir Ht.
  destruct (index_run entries t w Hdir) as (added & w' & -> & _ & _ & Hnodup).
  cbn [fst snd]. apply TableFacts.kept_rows_unique. auto.
Qed.

(** X24. Bringing the index up to date twice is bringing it up to date
    once: on the same directory and files, a second run leaves the
    table of the first. *)
Theorem indexNewTorrents_idempotent
    (entries : list string) (t : list TorrentRow) (w w2 : World) :
  readdir torrentDir = Returns entries ->
  fst (snd (index (fst (snd (index (t, w))), w2)))
  = fst (snd (index (t, w))).
Proof.
  intros Hdir.
  destruct (index_run entries t w Hdir)
    as (added & w' & -> & Hadded & Hall & _).
  cbn [fst snd].
  set (t1 := delete_where_not_in (files_of entries) (t ++ added)%list).
  destruct (index_run entries t1 w2 Hdir)
    as (added2 & w2' & -> & Hadded2 & _ & _).
  cbn [fst snd].
  assert (Hnone : added2 = []).
  { destruct added2 as [|row rest]; [reflexivity|]. exfalso.
    destruct (Hadded2 row (or_introl eq_refl))
      as (Hlisted & Hnew & meta & Hfile & _).
    destruct (Hall _ Hlisted) as [Hhas|[e He]]; [|congruence].
    apply existsb_exists in Hhas. destruct Hhas as (row' & Hin' & Heq).
    assert (Hin1 : In row' t1).
    { unfold t1, delete_where_not_in. apply filter_In. split; [exact Hin'|].
      apply TableFacts.array_includes_In.
      apply String.eqb_eq in Heq. now rewrite Heq. }
    assert (Htrue : has_path t1 (row_file_path row) = true).
    { apply existsb_exists. exists row'. auto. }
    congruence. }
  rewrite Hnone, app_nil_r. unfold t1, delete_where_not_in.
  apply TableFacts.filter_idempotent.
Qed.

(** X25. From an empty index, the hashes that [getInfoHashesToExclude]
    gives after [indexNewTorrents] are the hashes of the listed files
    that decode. *)
Theorem getInfoHashesToExclude_after_index
    (entries : list string) (w : World) (h : string) :
  readdir torrentDir = Returns entries ->
  In h (getInfoHashesToExclude (fst (snd (index ([], w)))))
  <-> exists (fp : string) (meta : Metafile),
        In fp (files_of entries)
        /\ file_of fp = Returns meta
        /\ h = meta_infoHash meta.
Proof.
  intros Hdir.
  destruct (index_run entries [] w Hdir)
    as (added & w' & -> & Hadded & Hall & _).
  cbn [fst snd app]. unfold getInfoHashesToExclude, delete_where_not_in.
  rewrite in_map_iff. split.
  - intros (row & <- & Hrow). apply filter_In in Hrow.
    destruct Hrow as [Hin Hlisted].
    destruct (Hadded row Hin) as (Hfp & _ & meta & Hfile & Hrow).
    exists (row_file_path row), meta.
    split; [exact Hfp|]. split; [exact Hfile|]. now rewrite Hrow.
  - intros (fp & meta & Hfp & Hfile & ->).
    destruct (Hall fp Hfp) as [Hhas|[e He]]; [|congruence].
    cbn [app] in Hhas.
    apply existsb_exists in Hhas. destruct Hhas as (row & Hin & Heq).
    apply String.eqb_eq in Heq.
    destruct (Hadded row Hin) as (_ & _ & meta' & Hfile' & Hrow).
    rewrite Heq in Hfile'. assert (meta' = meta) by congruence. subst meta'.
    exists row. split; [now rewrite Hrow|].
    apply filter_In. split; [exact Hin|].
    apply TableFacts.array_includes_In. now rewrite Heq.
Qed.

End IndexFacts.

(** ** Failures of the directory, searchees, saved files *)

Section DirectoryErrors.

Variable Metafile : Type.
Variable decode : string -> Completion Metafile.
Variable encode : Metafile -> string.
Variables meta_infoHash meta_name getFileSystemSafeName : Metafile -> string.
Variable stripExtension : string -> string.
Variable path_join : string -> string -> string.
Variable path_resolve : string -> string.
Variable readdir : string -> Completion (list string).
Variable logOnce : string -> M unit -> World -> World.
Variable CrossSeedError : string -> Exn.
Variables Searchee SearcheeError : Type.
Variable createSearcheeFromTorrentFile
  : string -> Completion (Result Searchee SearcheeError).
Variable thrown_error : SearcheeError -> Exn.
Variables torrentDir outputDir : string.
Variable env : Env.

Local Abbreviation index :=
  (indexNewTorrents Metafile decode meta_infoHash meta_name path_join
     path_resolve readdir logOnce torrentDir env).
Local Abbreviation listing :=
  (findAllTorrentFilesInDir path_join path_resolve readdir torrentDir).
Local Abbreviation validate :=
  (validateTorrentDir readdir CrossSeedError torrentDir).
Local Abbreviation load :=
  (loadTorrentDirLight path_join readdir Searchee SearcheeError
     createSearcheeFromTorrentFile thrown_error torrentDir).
Local Abbreviation save :=
  (saveTorrentFile Metafile encode getFileSystemSafeName stripExtension
     path_join outputDir).

(** X26. A torrent directory that cannot be read: [validateTorrentDir]
    throws its own error, which names the directory and not the cause;
    the listing and the loading throw the error of the file system;
    [indexNewTorrents] throws it too and leaves index and world as they
    were. *)
Theorem unreadable_torrent_directory (e : Exn) (st : IndexState) :
  readdir torrentDir = Throws e ->
  validate = Throws (CrossSeedError
                       ("Torrent dir " ++ torrentDir ++ " is invalid"))
  /\ listing = Throws e
  /\ load = Throws e
  /\ index st = (Throws e, st).
Proof.
  intros H.
  unfold validateTorrentDir, findAllTorrentFilesInDir, loadTorrentDirLight,
    indexNewTorrents, findAllTorrentFilesInDir, cbind.
  rewrite H. repeat split.
Qed.

(** X27. A torrent directory that [validateTorrentDir] accepts can be listed
    and indexed: no file in it, whatever its content, makes
    [indexNewTorrents] throw. *)
Theorem validated_torrent_directory (st : IndexState) :
  validate = Returns tt ->
  (exists files, listing = Returns files)
  /\ fst (index st) = Returns tt.
Proof.
  unfold validateTorrentDir.
  destruct (readdir torrentDir) as [entries|e] eqn:Hdir; [|discriminate].
  intros _. split.
  - unfold findAllTorrentFilesInDir, cbind. rewrite Hdir. eauto.
  - destruct st as [t w].
    destruct (index_run Metafile decode meta_infoHash meta_name path_join
                path_resolve readdir logOnce torrentDir env entries t w Hdir)
      as (added & w' & -> & _).
    reflexivity.
Qed.

Lemma load_searchees_all (results : string -> Result Searchee SearcheeError)
    (paths : list string) (searchees : list Searchee) :
  (forall p, In p paths ->
             createSearcheeFromTorrentFile p = Returns (results p)) ->
  load_searchees Searchee SearcheeError createSearcheeFromTorrentFile
    thrown_error paths searchees
  = Returns (searchees
             ++ flat_map (fun p => match results p with
                                   | Ok searchee => [searchee]
                                   | Err _ => []
                                   end) paths)%list.
Proof.
  revert searchees. induction paths as [|p paths IH]; intros searchees Hall.
  - simpl. now rewrite app_nil_r.
  - cbn [load_searchees flat_map]. rewrite (Hall p (or_introl eq_refl)).
    cbn [cbind]. destruct (results p) as [searchee|err]; cbn [isOk unwrapOrThrow cbind].
    + rewrite IH by (intros q Hq; apply Hall; now right).
      now rewrite <- app_assoc.
    + rewrite IH by (intros q Hq; apply Hall; now right). reflexivity.
Qed.

(** X28. [loadTorrentDirLight] gives the searchees of the torrent files
    whose searchee could be made, in the order of the file names, and
    passes over the others without a word: a result that is an error
    is dropped, never thrown. *)
Theorem loadTorrentDirLight_keeps_successes
    (results : string -> Result Searchee SearcheeError)
    (entries : list string) :
  readdir torrentDir = Returns entries ->
  (forall fn, In fn (torrent_entries entries) ->
              createSearcheeFromTorrentFile (path_join torrentDir fn)
              = Returns (results (path_join torrentDir fn))) ->
  load = Returns (flat_map (fun fn =>
                              match results (path_join torrentDir fn) with
                              | Ok searchee => [searchee]
                              | Err _ => []
                              end) (torrent_entries entries)).
Proof.
  intros Hdir Hall. unfold loadTorrentDirLight, cbind. rewrite Hdir.
  rewrite (load_searchees_all results).
  - cbn [app]. rewrite flat_map_concat_map, map_map, <- flat_map_concat_map.
    reflexivity.
  - intros p Hp. apply in_map_iff in Hp. destruct Hp as (fn & <- & Hfn). auto.
Qed.

Lemma append_assoc (a b c : string) : (a ++ b) ++ c = a ++ b ++ c.
Proof. induction a as [|x a IH]; simpl; [reflexivity | now rewrite IH]. Qed.

Lemma rev_string_append (acc s t : string) :
  JSString.rev_string acc (s ++ t)
  = JSString.rev_string (JSString.rev_string acc s) t.
Proof.
  revert acc. induction s as [|c s IH]; intros acc; [reflexivity|].
  simpl. apply IH.
Qed.

Lemma endsWith_slash (s : string) : JSString.endsWith (s ++ "/") "/" = true.
Proof.
  unfold JSString.endsWith. rewrite rev_string_append. simpl.
  destruct (JSString.rev_string "" s); reflexivity.
Qed.

(** X29. The file that [saveTorrentFile] writes lies in the output
    directory, holds the encoded metafile, has mode 0644, and its name,
    made of tag, tracker and stripped safe name, has the extension
    [.torrent] as [path.extname] sees it, provided the stripped name
    does not end in a slash. *)
Theorem saveTorrentFile_writes_torrent
    (tracker : string) (tag : option string) (meta : Metafile) :
  JSString.endsWith (stripExtension (getFileSystemSafeName meta)) "/" = false ->
  exists filename : string,
    save tracker tag meta
    = mkFileWrite (path_join outputDir filename) (encode meta) 420
    /\ filename
       = "[" ++ match tag with Some t => t | None => "" end ++ "]["
         ++ tracker ++ "]" ++ stripExtension (getFileSystemSafeName meta)
         ++ ".torrent"
    /\ NodePath.extname filename = ".torrent".
Proof.
  intros Hstem. eexists. split; [reflexivity|]. split; [reflexivity|].
  set (t := match tag with Some t => t | None => "" end).
  set (stem := stripExtension (getFileSystemSafeName meta)) in *.
  destruct stem as [|c0 stem0] eqn:Hs.
  - replace ("[" ++ t ++ "][" ++ tracker ++ "]" ++ "" ++ ".torrent")
      with ((("[" ++ t ++ "][" ++ tracker) ++ String "]" "") ++ ".torrent").
    + apply ExtnameFacts.extname_of_torrent. discriminate.
    + simpl. repeat (rewrite append_assoc; simpl). reflexivity.
  - destruct (EntryFacts.string_last (String c0 stem0)) as (s' & c & Hlast);
      [discriminate|].
    rewrite Hlast.
    replace ("[" ++ t ++ "][" ++ tracker ++ "]" ++ (s' ++ String c "")
             ++ ".torrent")
      with ((("[" ++ t ++ "][" ++ tracker ++ "]" ++ s') ++ String c "")
            ++ ".torrent").
    + apply ExtnameFacts.extname_of_torrent.
      intros ->. rewrite Hlast, endsWith_slash in Hstem. discriminate.
    + simpl. repeat (rewrite append_assoc; simpl). reflexivity.
Qed.

End DirectoryErrors.

(** ** Distance, nearest key, locator, log: further facts *)

(** X11. The distance is symmetric, it is 0 between equal strings only, and
    it lies between the difference and the larger of the two
    lengths. *)
Theorem levenshtein_metric (a b : string) :
  Levenshtein.levenshtein a b = Levenshtein.levenshtein b a
  /\ (Levenshtein.levenshtein a b = 0 <-> a = b)
  /\ String.length a - String.length b <= Levenshtein.levenshtein a b
  /\ Levenshtein.levenshtein a b
     <= Nat.max (String.length a) (String.length b).
Proof.
  rewrite !DistanceFacts.levenshtein_is_edit_distance.
  split; [apply DistanceFacts.edit_distance_sym|].
  split; [split|split].
  - intros H.
    apply DistanceFacts.rev_string_injective, DistanceFacts.edit_distance_zero, H.
  - intros ->. apply DistanceFacts.edit_distance_refl.
  - pose proof (DistanceFacts.edit_distance_lower
                  (JSString.rev_string "" a) (JSString.rev_string "" b)) as H.
    rewrite !DistanceFacts.rev_string_length in H. simpl in H. lia.
  - pose proof (DistanceFacts.edit_distance_upper
                  (JSString.rev_string "" a) (JSString.rev_string "" b)) as H.
    rewrite !DistanceFacts.rev_string_length in H. simpl in H. lia.
Qed.

(** X12. [closest] is [undefined] on the empty array only; otherwise it is
    the first element of the array among those nearest to the string:
    the elements before it are farther, those after it are no
    nearer. *)
Theorem closest_first_nearest (str : string) (arr : list string) :
  (Levenshtein.closest str arr = None <-> arr = [])
  /\ forall k, Levenshtein.closest str arr = Some k ->
       exists l1 l2,
         arr = (l1 ++ k :: l2)%list
         /\ (forall x, In x l1 ->
               Levenshtein.levenshtein str k < Levenshtein.levenshtein str x)
         /\ (forall x, In x l2 ->
               Levenshtein.levenshtein str k <= Levenshtein.levenshtein str x).
Proof.
  split.
  - split; [|intros ->; reflexivity].
    intros Hnone. destruct arr as [|x arr]; [reflexivity|].
    destruct (NearestFacts.closest_defined str (x :: arr)) as [k Hk];
      [discriminate | congruence].
  - intros k Hk. destruct arr as [|x arr]; [discriminate|].
    unfold Levenshtein.closest in Hk. simpl in Hk.
    destruct (NearestFacts.closest_loop_first str arr [] [] x k)
      as (l1 & l2 & Heq & H1 & H2); try (intros y []); [exact Hk|].
    exists l1, l2. simpl in Heq. auto.
Qed.

Section LocatorMore.

Variable Metafile : Type.
Variable decode : string -> Completion Metafile.
Variable inspect : TorrentLocator -> string.
Variable env : Env.

(** X19. A locator with neither hash nor name, [undefined] or empty, puts
    no condition on the lookup: [getTorrentByCriteria] answers with the
    first row of the whole store, and says not found on an empty store
    only. *)
Theorem getTorrentByCriteria_without_criterion
    (criteria : TorrentLocator) (w : World) :
  truthy (infoHash criteria) = None ->
  truthy (name criteria) = None ->
  getTorrentByCriteria Metafile decode inspect env criteria w
  = match torrent_table env with
    | [] => (Throws (Error ("could not find a torrent with the criteria "
                            ++ inspect criteria)), w)
    | row :: _ => (decoded_file Metafile decode env (row_file_path row), w)
    end.
Proof.
  intros Hhash Hname.
  unfold getTorrentByCriteria, criteria_where. rewrite Hhash, Hname.
  unfold run_query. simpl forallb.
  replace (filter (fun _ : TorrentRow => true) (torrent_table env))
    with (torrent_table env)
    by (induction (torrent_table env) as [|r l IH]; simpl; congruence).
  destruct (torrent_table env) as [|row rows]; simpl; [reflexivity|].
  apply parseTorrentFromFilename_result.
Qed.

End LocatorMore.

Section LogMore.

Variable Metafile : Type.
Variable decode : string -> Completion Metafile.
Variable USER_AGENT : string.
Variable env : Env.

Local Abbreviation snatch :=
  (parseTorrentFromURL Metafile decode USER_AGENT env).
Local Abbreviation classify := (classifyResponse Metafile decode).
Local Abbreviation exchange url := (network env (request_for USER_AGENT url)).
Local Abbreviation silent res :=
  (res = Err RATE_LIMITED \/ exists meta : Metafile, res = Ok meta).

Lemma log_grew {A : Type} (l l' : list A) (x : A) : (l ++ x :: l')%list <> l.
Proof.
  intros H. apply (f_equal (@List.length A)) in H.
  rewrite length_app in H. simpl in H. lia.
Qed.

Lemma classifyResponse_log (url : string) (signal : option nat)
    (r : Response) (w : World) (res : Result Metafile SnatchError) :
  fst (classify url signal r w) = Returns res ->
  (logs (snd (classify url signal r w)) = logs w <-> silent res).
Proof.
  rewrite classifyResponse_run.
  assert (Hloud : forall (x : Level * LogPayload) l,
             logs (logged w (x :: l)) = logs w
             <-> @Err Metafile SnatchError INVALID_CONTENTS = Err RATE_LIMITED
                 \/ exists meta : Metafile,
                      @Err Metafile SnatchError INVALID_CONTENTS = Ok meta).
  { intros x l. split.
    - intros H. now apply log_grew in H.
    - intros [H|[m H]]; discriminate. }
  destruct (JSString.startsWith (JSString.toString (status r)) "3"
            && match headers_get (headers r) "location" with
               | Some location => JSString.startsWith location "magnet:"
               | None => false
               end).
  { cbn. intros [= <-]. split.
    - intros H. now apply log_grew in H.
    - intros [H|[m H]]; discriminate. }
  destruct (status r =? 429)%N.
  { cbn. intros [= <-]. split; [auto | reflexivity]. }
  destruct (negb (ok r)).
  { destruct (due signal (body_latency r) w); [discriminate|].
    destruct (body r); cbn; [|discriminate]. intros [= <-]. split.
    - intros H. now apply log_grew in H.
    - intros [H|[m H]]; discriminate. }
  destruct (content_type_is_rss r).
  { destruct (due signal (body_latency r) w); [discriminate|].
    destruct (body r) as [text|e]; [|discriminate].
    destruct (clone_drains r); [|discriminate].
    destruct (JSString.includes text "429"); cbn; intros [= <-].
    - split; [auto | reflexivity].
    - apply Hloud. }
  destruct (due signal (body_latency r) w).
  { cbn. intros [= <-]. rewrite abort_logs. split.
    - intros H. now apply log_grew in H.
    - intros [H|[m H]]; discriminate. }
  destruct (cbind (body r) decode) as [m|e]; cbn; intros [= <-].
  - split; [eauto | reflexivity].
  - apply Hloud.
Qed.

(** X18. Of the outcomes that [parseTorrentFromURL] returns, [RATE_LIMITED]
    and the metafile are the silent ones: the log is after the call
    what it was before exactly for these two; every other outcome
    leaves at least one more line. *)
Theorem parseTorrentFromURL_silent_outcomes
    (url : string) (res : Result Metafile SnatchError) (w : World) :
  fst (snatch url w) = Returns res ->
  (logs (snd (snatch url w)) = logs w <-> silent res).
Proof.
  rewrite parseTorrentFromURL_run.
  destruct (due_by env (latency (exchange url))).
  { cbn. intros [= <-]. rewrite abort_logs, after_arming_logs. split.
    - intros H. now apply log_grew in H.
    - intros [H|[m H]]; discriminate. }
  destruct (settlement (exchange url)) as [e|r].
  - destruct (exn_name e =? "AbortError"); cbn; intros [= <-];
      rewrite after_arming_logs; (split;
        [ intros H; now apply log_grew in H
        | intros [H|[m H]]; discriminate ]).
  - intros Hres. rewrite <- (after_arming_logs env w).
    now apply classifyResponse_log.
Qed.

End LogMore.

(** ** The further facts at work on the samples *)

Lemma searchMapOf_last_wins_witness :
  JSObject.get
    (searchMapOf Sample.VIDEO_EXTENSIONS Sample.DATA_EXTENSIONS
       [SampleMore.first_copy; SampleMore.second_copy]) "s01e02show"
  = Some SampleMore.second_copy.
Proof.
  refine (searchMapOf_last_wins Sample.VIDEO_EXTENSIONS Sample.DATA_EXTENSIONS
            [SampleMore.first_copy; SampleMore.second_copy] "s01e02show" _).
  discriminate.
Defined.

Lemma getTorrentByFuzzyName_sound_witness :
  exists (term : string) (row : TorrentRow),
    searchTermOf Sample.EP_REGEX Sample.SEASON_REGEX Sample.MOVIE_REGEX
      Sample.GROUP_REGEX "Show.Name.S01E02.1080p-GROUP" = Returns term
    /\ In row (torrent_table (Sample.episode_store 3))
    /\ like (Sample.episode_store 3) term (row_name row) = true
    /\ decoded_file Sample.Metafile Sample.decode (Sample.episode_store 3)
         (row_file_path row) = Returns "d4:infod4:name4:Showee"
    /\ (inject_Z (Z.of_nat
          (Levenshtein.levenshtein
             (createComparableTorrent "Show.Name.S01E02.1080p-GROUP")
             (createComparableTorrent
                (removeExtensionsFromName Sample.VIDEO_EXTENSIONS
                   Sample.DATA_EXTENSIONS (row_name row)))))
        <= distanceMaxOf (Sample.episode_store 3)
             (String.length
                (createComparableTorrent "Show.Name.S01E02.1080p-GROUP")))%Q.
Proof.
  apply (getTorrentByFuzzyName_sound Sample.Metafile Sample.decode
           Sample.EP_REGEX Sample.SEASON_REGEX Sample.MOVIE_REGEX
           Sample.GROUP_REGEX Sample.VIDEO_EXTENSIONS Sample.DATA_EXTENSIONS
           (Sample.episode_store 3) "Show.Name.S01E02.1080p-GROUP"
           "d4:infod4:name4:Showee" Sample.world0).
  reflexivity.
Defined.

Lemma getTorrentByFuzzyName_advisory_window_witness :
  exists (distanceMax : Q) (similarityPct : JSNumber),
    logs (snd (Sample.fuzzy (Sample.episode_store 2)
                 "Show.Name.S01E02.1080p-GROUP" Sample.world0))
    = [(verbose,
        Decide distanceMax "S01E02.Show.Name.720p-GROUP"
          "Show.Name.S01E02.1080p-GROUP" similarityPct 3)].
Proof.
  destruct (getTorrentByFuzzyName_advisory_window Sample.Metafile
              Sample.decode Sample.EP_REGEX Sample.SEASON_REGEX
              Sample.MOVIE_REGEX Sample.GROUP_REGEX Sample.VIDEO_EXTENSIONS
              Sample.DATA_EXTENSIONS (Sample.episode_store 2)
              "Show.Name.S01E02.1080p-GROUP" "S01E02%-GROUP"
              "720pgroupnames01e02show" Sample.world0 eq_refl eq_refl)
    as (row & Hrow & _ & Hlog & _).
  vm_compute in Hrow. injection Hrow as <-.
  apply Hlog. vm_compute. discriminate.
Defined.

Example rejected_inside_the_window :
  Sample.fuzzy (Sample.episode_store 2) "Show.Name.S01E02.1080p-GROUP"
    Sample.world0
  = (Returns None,
     mkWorld 0 []
       [(verbose,
         Decide (24 # 10) "S01E02.Show.Name.720p-GROUP"
           "Show.Name.S01E02.1080p-GROUP" (Finite (2100 # 24)) 3)]).
Proof. reflexivity. Qed.

Lemma getTorrentByFuzzyName_exact_match_witness :
  exists row : TorrentRow,
    In row (candidates SampleMore.same_episode_store "S01E02%-GROUP")
    /\ createComparableTorrent
         (removeExtensionsFromName Sample.VIDEO_EXTENSIONS
            Sample.DATA_EXTENSIONS (row_name row))
       = createComparableTorrent "Show.Name.S01E02.1080p-GROUP"
    /\ fst (Sample.fuzzy SampleMore.same_episode_store
              "Show.Name.S01E02.1080p-GROUP" Sample.world0)
       = accepted Sample.Metafile Sample.decode SampleMore.same_episode_store
           row.
Proof.
  apply (getTorrentByFuzzyName_exact_match Sample.Metafile Sample.decode
           Sample.EP_REGEX Sample.SEASON_REGEX Sample.MOVIE_REGEX
           Sample.GROUP_REGEX Sample.VIDEO_EXTENSIONS Sample.DATA_EXTENSIONS
           SampleMore.same_episode_store "Show.Name.S01E02.1080p-GROUP"
           "S01E02%-GROUP" SampleMore.same_episode_row Sample.world0).
  - reflexivity.
  - simpl. now left.
  - reflexivity.
  - discriminate.
Defined.

Lemma parseTorrentFromURL_timeout_witness :
  fst (Sample.snatch (Sample.online (Some 5%Z) Sample.torrent_200)
         "https://tracker.example/dl/1" Sample.world0)
  = Returns (Err ABORTED).
Proof.
  apply (parseTorrentFromURL_timeout Sample.Metafile Sample.decode
           Sample.USER_AGENT (Sample.online (Some 5%Z) Sample.torrent_200)
           "https://tracker.example/dl/1" 5%Z Sample.world0).
  - reflexivity.
  - vm_compute. discriminate.
Defined.

Lemma parseTorrentFromURL_transport_error_witness :
  fst (Sample.snatch Sample.empty_store "https://tracker.example/dl/1"
         Sample.world0)
  = Returns (Err UNKNOWN_ERROR).
Proof.
  apply (parseTorrentFromURL_transport_error Sample.Metafile Sample.decode
           Sample.USER_AGENT Sample.empty_store "https://tracker.example/dl/1"
           (mkExn "FetchError" "getaddrinfo ENOTFOUND") Sample.world0).
  - reflexivity.
  - exact I.
  - discriminate.
Defined.

Lemma parseTorrentFromURL_metafile_origin_witness :
  exists (r : Response) (content : string),
    settles_with Sample.USER_AGENT (Sample.online None Sample.torrent_200)
      "https://tracker.example/dl/1" r
    /\ (200 <= status r < 300)%N
    /\ headers_get (headers r) "Content-Type" <> Some "application/rss+xml"
    /\ body r = Returns content
    /\ Sample.decode content = Returns "d4:infod4:name4:Showee".
Proof.
  apply (parseTorrentFromURL_metafile_origin Sample.Metafile Sample.decode
           Sample.USER_AGENT (Sample.online None Sample.torrent_200)
           "https://tracker.example/dl/1" "d4:infod4:name4:Showee"
           Sample.world0).
  reflexivity.
Defined.

Lemma parseTorrentFromURL_without_timeout_witness :
  timers (snd (Sample.snatch (Sample.online None Sample.torrent_200)
                 "https://tracker.example/dl/1" Sample.world0))
  = timers Sample.world0.
Proof.
  apply (parseTorrentFromURL_without_timeout Sample.Metafile Sample.decode
           Sample.USER_AGENT (Sample.online None Sample.torrent_200)
           "https://tracker.example/dl/1" Sample.world0).
  reflexivity.
Defined.

Lemma parseTorrentFromURL_silent_outcomes_witness :
  logs (snd (Sample.snatch (Sample.online None Sample.too_many_requests)
               "https://tracker.example/dl/1" Sample.world0))
  = logs Sample.world0.
Proof.
  apply (parseTorrentFromURL_silent_outcomes Sample.Metafile Sample.decode
           Sample.USER_AGENT (Sample.online None Sample.too_many_requests)
           "https://tracker.example/dl/1" (Err RATE_LIMITED) Sample.world0).
  - reflexivity.
  - left. reflexivity.
Defined.

Lemma getTorrentByCriteria_without_criterion_witness :
  Sample.locate Sample.one_torrent_store Sample.by_other_path Sample.world0
  = (Returns "d4:infod4:name4:Showee", Sample.world0).
Proof.
  apply (getTorrentByCriteria_without_criterion Sample.Metafile Sample.decode
           Sample.inspect Sample.one_torrent_store Sample.by_other_path
           Sample.world0); reflexivity.
Defined.

Lemma findAllTorrentFilesInDir_lists_witness :
  exists files : list string,
    SampleMore.listing SampleDir.readdir "/torrents" = Returns files
    /\ (forall p : string,
          In p files
          <-> exists stem : string,
                stem <> ""
                /\ In (stem ++ ".torrent")
                     ["b.torrent"; "notes.txt"; ".torrent"; "a.torrent";
                      "broken.torrent"]
                /\ p = SampleDir.path_resolve
                         (SampleDir.path_join "/torrents"
                            (stem ++ ".torrent"))).
Proof.
  apply (findAllTorrentFilesInDir_lists SampleDir.path_join
           SampleDir.path_resolve "/torrents" SampleDir.readdir
           ["b.torrent"; "notes.txt"; ".torrent"; "a.torrent";
            "broken.torrent"]).
  - reflexivity.
  - repeat first [discriminate | constructor].
Defined.

Lemma findAllTorrentFilesInDir_order_witness :
  SampleMore.listing SampleDir.readdir "/torrents"
  = SampleMore.listing SampleMore.readdir_backwards "/torrents".
Proof.
  refine (proj1 (findAllTorrentFilesInDir_order SampleDir.path_join
                   SampleDir.path_resolve "/torrents" SampleDir.readdir
                   SampleMore.readdir_backwards
                   ["b.torrent"; "notes.txt"; ".torrent"; "a.torrent";
                    "broken.torrent"]
                   (rev ["b.torrent"; "notes.txt"; ".torrent"; "a.torrent";
                         "broken.torrent"]) _ _ _)).
  - reflexivity.
  - reflexivity.
  - apply Permutation_rev.
Defined.

Lemma indexNewTorrents_table_witness :
  In (mkRow "/torrents/a.torrent" "hash of d4:name1:Ae" "d4:name1:Ae")
     (fst (snd (SampleMore.index_of "/torrents"
                  ([SampleDir.stale_row], Sample.world0)))).
Proof.
  apply (indexNewTorrents_table Sample.Metafile Sample.decode
           SampleDir.meta_infoHash SampleDir.meta_name SampleDir.path_join
           SampleDir.path_resolve SampleDir.readdir SampleDir.logOnce
           "/torrents" SampleDir.env
           ["b.torrent"; "notes.txt"; ".torrent"; "a.torrent";
            "broken.torrent"]
           [SampleDir.stale_row] Sample.world0
           (mkRow "/torrents/a.torrent" "hash of d4:name1:Ae" "d4:name1:Ae")).
  - reflexivity.
  - split.
    + vm_compute. left. reflexivity.
    + right. split.
      * reflexivity.
      * exists "d4:name1:Ae". split; reflexivity.
Defined.

Lemma indexNewTorrents_unique_paths_witness :
  NoDup (map row_file_path
           (fst (snd (SampleMore.index_of "/torrents"
                        ([SampleDir.stale_row], Sample.world0))))).
Proof.
  apply (indexNewTorrents_unique_paths Sample.Metafile Sample.decode
           SampleDir.meta_infoHash SampleDir.meta_name SampleDir.path_join
           SampleDir.path_resolve SampleDir.readdir SampleDir.logOnce
           "/torrents" SampleDir.env
           ["b.torrent"; "notes.txt"; ".torrent"; "a.torrent";
            "broken.torrent"]
           [SampleDir.stale_row] Sample.world0).
  - reflexivity.
  - constructor.
    + intros [].
    + constructor.
Defined.

Lemma indexNewTorrents_idempotent_witness :
  fst (snd (SampleMore.index_of "/torrents"
              (fst (snd (SampleMore.index_of "/torrents"
                           ([SampleDir.stale_row], Sample.world0))),
               Sample.world0)))
  = fst (snd (SampleMore.index_of "/torrents"
                ([SampleDir.stale_row], Sample.world0))).
Proof.
  apply (indexNewTorrents_idempotent Sample.Metafile Sample.decode
           SampleDir.meta_infoHash SampleDir.meta_name SampleDir.path_join
           SampleDir.path_resolve SampleDir.readdir SampleDir.logOnce
           "/torrents" SampleDir.env
           ["b.torrent"; "notes.txt"; ".torrent"; "a.torrent";
            "broken.torrent"]
           [SampleDir.stale_row] Sample.world0 Sample.world0).
  reflexivity.
Defined.

Lemma getInfoHashesToExclude_after_index_witness :
  In "hash of d4:name1:Be"
     (getInfoHashesToExclude
        (fst (snd (SampleMore.index_of "/torrents" ([], Sample.world0))))).
Proof.
  apply (getInfoHashesToExclude_after_index Sample.Metafile Sample.decode
           SampleDir.meta_infoHash SampleDir.meta_name SampleDir.path_join
           SampleDir.path_resolve SampleDir.readdir SampleDir.logOnce
           "/torrents" SampleDir.env
           ["b.torrent"; "notes.txt"; ".torrent"; "a.torrent";
            "broken.torrent"]
           Sample.world0 "hash of d4:name1:Be").
  - reflexivity.
  - exists "/torrents/b.torrent", "d4:name1:Be". split.
    + vm_compute. right. left. reflexivity.
    + split; reflexivity.
Defined.

Lemma unreadable_torrent_directory_witness :
  validateTorrentDir SampleDir.readdir SampleDir.CrossSeedError "/missing"
  = Throws (mkExn "CrossSeedError" "Torrent dir /missing is invalid")
  /\ SampleMore.index_of "/missing" ([SampleDir.stale_row], Sample.world0)
     = (Throws (Error "ENOENT: no such file or directory, scandir '/missing'"),
        ([SampleDir.stale_row], Sample.world0)).
Proof.
  destruct (unreadable_torrent_directory Sample.Metafile Sample.decode
              SampleDir.meta_infoHash SampleDir.meta_name SampleDir.path_join
              SampleDir.path_resolve SampleDir.readdir SampleDir.logOnce
              SampleDir.CrossSeedError string string SampleDir.searchee_of
              (fun err => Error err) "/missing" SampleDir.env
              (Error "ENOENT: no such file or directory, scandir '/missing'")
              ([SampleDir.stale_row], Sample.world0) eq_refl)
    as (Hvalidate & _ & _ & Hindex).
  split; [exact Hvalidate | exact Hindex].
Defined.

Lemma validated_torrent_directory_witness :
  fst (SampleMore.index_of "/torrents" ([SampleDir.stale_row], Sample.world0))
  = Returns tt.
Proof.
  refine (proj2 (validated_torrent_directory Sample.Metafile Sample.decode
                   SampleDir.meta_infoHash SampleDir.meta_name
                   SampleDir.path_join SampleDir.path_resolve
                   SampleDir.readdir SampleDir.logOnce
                   SampleDir.CrossSeedError "/torrents" SampleDir.env
                   ([SampleDir.stale_row], Sample.world0) _)).
  reflexivity.
Defined.

Lemma loadTorrentDirLight_keeps_successes_witness :
  SampleMore.load_of "/torrents" = Returns ["d4:name1:Ae"; "d4:name1:Be"].
Proof.
  refine (loadTorrentDirLight_keeps_successes SampleDir.path_join
            SampleDir.readdir string string SampleDir.searchee_of
            (fun err => Error err) "/torrents" SampleMore.searchee_result
            ["b.torrent"; "notes.txt"; ".torrent"; "a.torrent";
             "broken.torrent"] _ _).
  - reflexivity.
  - intros fn Hin. vm_compute in Hin.
    destruct Hin as [<-|[<-|[<-|[]]]]; reflexivity.
Defined.

Lemma saveTorrentFile_writes_torrent_witness :
  exists filename : string,
    SampleMore.save "tracker" None "d4:name1:Ae"
    = mkFileWrite (SampleDir.path_join "/output" filename) "d4:name1:Ae" 420
    /\ filename = "[][tracker]d4:name1:Ae.torrent"
    /\ NodePath.extname filename = ".torrent".
Proof.
  apply (saveTorrentFile_writes_torrent Sample.Metafile SampleDir.encode
           SampleDir.getFileSystemSafeName SampleDir.stripExtension
           SampleDir.path_join "/output" "tracker" None "d4:name1:Ae").
  reflexivity.
Defined.

Lemma getTorrentByFuzzyName_nearest_witness :
  exists (term : string) (row : TorrentRow),
    searchTermOf Sample.EP_REGEX Sample.SEASON_REGEX Sample.MOVIE_REGEX
      Sample.GROUP_REGEX "Show.Name.S01E02.1080p-GROUP" = Returns term
    /\ In row (candidates (Sample.episode_store 3) term)
    /\ decoded_file Sample.Metafile Sample.decode (Sample.episode_store 3)
         (row_file_path row) = Returns "d4:infod4:name4:Showee"
    /\ forall x : TorrentRow,
         In x (candidates (Sample.episode_store 3) term) ->
         createComparableTorrent
           (removeExtensionsFromName Sample.VIDEO_EXTENSIONS
              Sample.DATA_EXTENSIONS (row_name x)) <> "__proto__" ->
         Levenshtein.levenshtein
           (createComparableTorrent "Show.Name.S01E02.1080p-GROUP")
           (createComparableTorrent
              (removeExtensionsFromName Sample.VIDEO_EXTENSIONS
                 Sample.DATA_EXTENSIONS (row_name row)))
         <= Levenshtein.levenshtein
              (createComparableTorrent "Show.Name.S01E02.1080p-GROUP")
              (createComparableTorrent
                 (removeExtensionsFromName Sample.VIDEO_EXTENSIONS
                    Sample.DATA_EXTENSIONS (row_name x))).
Proof.
  apply (getTorrentByFuzzyName_nearest Sample.Metafile Sample.decode
           Sample.EP_REGEX Sample.SEASON_REGEX Sample.MOVIE_REGEX
           Sample.GROUP_REGEX Sample.VIDEO_EXTENSIONS Sample.DATA_EXTENSIONS
           (Sample.episode_store 3) "Show.Name.S01E02.1080p-GROUP"
           "d4:infod4:name4:Showee" Sample.world0).
  reflexivity.
Defined.

Lemma parseTorrentFromURL_feed_never_settles_witness :
  Sample.snatch (Sample.online (Some 1000%Z) Sample.large_feed)
    "https://tracker.example/dl/1" Sample.world0
  = (NeverSettles, mkWorld 1 [mkTimer 0 1000 false] []).
Proof.
  apply (parseTorrentFromURL_feed_never_settles Sample.Metafile
           Sample.decode Sample.USER_AGENT
           (Sample.online (Some 1000%Z) Sample.large_feed)
           "https://tracker.example/dl/1" Sample.large_feed Sample.world0).
  - split; reflexivity.
  - reflexivity.
  - reflexivity.
  - right. reflexivity.
Defined.

(** A feed whose body breaks off: no value, no exception. *)
Example broken_feed_never_settles :
  fst (Sample.snatch (Sample.online None Sample.broken_feed)
         "https://tracker.example/dl/1" Sample.world0)
  = NeverSettles.
Proof. reflexivity. Qed.
